(** * firstDraft-api: the three-stage prompt pipeline of [final.py]

    A shallow embedding of [src/final.py]: Python strings and the few
    [str], [re] and [json] operations the program calls, the text cleanup
    [clean_text], the JSON recovery chain shared by [classify_input],
    [analyze_feature] and [generate_tech_layer], the workflow
    [process_user_input] and the command-line loop. *)

From Stdlib Require Import String Ascii.
From Stdlib Require Import List Bool Arith Lia.
From Stdlib Require Import NArith ZArith.
From Stdlib Require DecimalZ DecimalPos DecimalFacts.
From Stdlib Require Import FunInd.
Import ListNotations.

Set Implicit Arguments.
Set Warnings "-register-all".

(** ** Python strings

    A Python [str] is a sequence of Unicode code points. *)

Definition char := N.
Definition str := list char.

(** An ASCII literal as a [str]. *)
Definition py (s : string) : str := map N_of_ascii (list_ascii_of_string s).

Definition ch (a : ascii) : char := N_of_ascii a.

Definition dquote : char := 34%N.
Definition backslash : char := 92%N.
Definition backtick : char := 96%N.
Definition LF : char := 10%N.
Definition TAB : char := 9%N.
Definition apostrophe : char := 39%N.

Fixpoint str_eqb (a b : str) : bool :=
  match a, b with
  | [], [] => true
  | x :: a', y :: b' => N.eqb x y && str_eqb a' b'
  | _, _ => false
  end.

(** [str.isspace] on one code point, which is also what [\s] matches in a
    [str] pattern: the characters Unicode classes as whitespace. *)
Definition is_space (c : char) : bool :=
  ((9 <=? c) && (c <=? 13) || (28 <=? c) && (c <=? 32)
   || (c =? 133) || (c =? 160) || (c =? 5760)
   || (8192 <=? c) && (c <=? 8202)
   || (c =? 8232) || (c =? 8233) || (c =? 8239) || (c =? 8287)
   || (c =? 12288))%N.

Fixpoint lstrip (s : str) : str :=
  match s with
  | c :: s' => if is_space c then lstrip s' else s
  | [] => []
  end.

Definition rstrip (s : str) : str := rev (lstrip (rev s)).

(** [s.strip()] *)
Definition strip (s : str) : str := rstrip (lstrip s).

(** [s.startswith(p)], returning what follows the prefix. *)
Fixpoint strip_prefix (p s : str) : option str :=
  match p with
  | [] => Some s
  | x :: p' =>
      match s with
      | y :: s' => if N.eqb x y then strip_prefix p' s' else None
      | [] => None
      end
  end.

Definition starts_with (p s : str) : bool :=
  match strip_prefix p s with Some _ => true | None => false end.

(** [s.replace(old, new)] for a non-empty [old]: the occurrences of [old]
    are found from the left and do not overlap.  [skip] counts the
    characters of an occurrence that are still to be dropped. *)
Fixpoint replace_go (old new : str) (skip : nat) (s : str) : str :=
  match s with
  | [] => []
  | c :: s' =>
      match skip with
      | S k => replace_go old new k s'
      | O =>
          if starts_with old s
          then new ++ replace_go old new (length old - 1) s'
          else c :: replace_go old new 0 s'
      end
  end.

Definition replace (old new s : str) : str := replace_go old new 0 s.

(** [sub in s] for two strings. *)
Fixpoint contains (sub s : str) : bool :=
  starts_with sub s ||
  match s with
  | [] => false
  | _ :: s' => contains sub s'
  end.

(** ** Regular expressions ([re])

    The fragment of Python's pattern language that the three patterns of
    [final.py] use, with a backtracking matcher in continuation-passing
    style that tries alternatives in the order [re] does: a greedy star
    tries one more iteration before it lets the rest of the pattern run, a
    lazy star the other way round.  The matcher threads the text that is
    still unread and what group 1 captured. *)

Module Re.

Inductive regex : Type :=
| Eps                         (* the empty pattern *)
| Chr (c : char)              (* a literal character *)
| Dot                         (* [.] under [re.DOTALL] *)
| Space                       (* [\s] *)
| NoneOf (cs : list char)     (* [[^...]] *)
| Cat (r1 r2 : regex)
| Star (r : regex)            (* [r*] *)
| StarLazy (r : regex)        (* [r*?] *)
| Group (r : regex).          (* [(r)], capture group 1 *)

(** A literal string as a pattern. *)
Fixpoint lit (s : str) : regex :=
  match s with
  | [] => Eps
  | c :: s' => Cat (Chr c) (lit s')
  end.

Definition mem (c : char) (cs : list char) : bool := existsb (N.eqb c) cs.

Section Matcher.
Variable A : Type.

(** A continuation receives the unread text and the capture. *)
Definition cont := str -> option str -> option A.

Definition one (p : char -> bool) (k : cont) : cont :=
  fun s g =>
    match s with
    | c :: s' => if p c then k s' g else None
    | [] => None
    end.

(** One step of a star: an iteration counts only when it consumed
    something, which every starred pattern of the program does. *)
Definition progress (s : str) (k : cont) : cont :=
  fun s' g' => if length s' <? length s then k s' g' else None.

Definition orelse (a b : option A) : option A :=
  match a with Some _ => a | None => b end.

(** [body*] followed by [k]: one more iteration is tried before [k].
    [n] bounds the iterations, and the length of the text is enough. *)
Fixpoint greedy_loop (body : cont -> cont) (k : cont) (n : nat) : cont :=
  fun s g =>
    match n with
    | O => k s g
    | S n' => orelse (body (progress s (greedy_loop body k n')) s g) (k s g)
    end.

(** [body*?] followed by [k]: [k] is tried before one more iteration. *)
Fixpoint lazy_loop (body : cont -> cont) (k : cont) (n : nat) : cont :=
  fun s g =>
    match n with
    | O => k s g
    | S n' => orelse (k s g) (body (progress s (lazy_loop body k n')) s g)
    end.

Fixpoint rmatch (r : regex) (k : cont) (s : str) (g : option str)
  {struct r} : option A :=
  match r with
  | Eps => k s g
  | Chr c => one (N.eqb c) k s g
  | Dot => one (fun _ => true) k s g
  | Space => one is_space k s g
  | NoneOf cs => one (fun c => negb (mem c cs)) k s g
  | Cat r1 r2 => rmatch r1 (rmatch r2 k) s g
  | Star r1 => greedy_loop (rmatch r1) k (length s) s g
  | StarLazy r1 => lazy_loop (rmatch r1) k (length s) s g
  | Group r1 =>
      rmatch r1 (fun s' _ => k s' (Some (firstn (length s - length s') s))) s g
  end.
End Matcher.

(** A match object: [group(0)] and [group(1)].  Every pattern of the
    program that has a group matches it whenever the pattern matches. *)
Record match_object : Type := MatchObject {
  group0 : str;
  group1 : str
}.

Definition match_at (r : regex) (s : str) : option match_object :=
  rmatch r (fun s' g =>
              Some (MatchObject (firstn (length s - length s') s)
                      (match g with Some x => x | None => [] end))) s None.

(** [re.search(r, s, re.DOTALL)]: the leftmost position with a match. *)
Fixpoint search (r : regex) (s : str) : option match_object :=
  match match_at r s with
  | Some m => Some m
  | None =>
      match s with
      | [] => None
      | _ :: s' => search r s'
      end
  end.

End Re.

Import Re.

Definition lbrace : char := 123%N.
Definition rbrace : char := 125%N.

(** The pattern of lines 32, 133, 234 and 333,
    [```json\s*(\{.*?\})\s*```]: a fenced JSON object. *)
Definition fenced_json_re : regex :=
  Cat (lit (py "```json"))
    (Cat (Star Space)
      (Cat (Group (Cat (Chr lbrace) (Cat (StarLazy Dot) (Chr rbrace))))
        (Cat (Star Space) (lit (py "```"))))).

(** The pattern of line 40, [\{.*\}]: from the first opening brace to the
    last closing one. *)
Definition braces_re : regex :=
  Cat (Chr lbrace) (Cat (Star Dot) (Chr rbrace)).

(** The pattern of lines 144, 245 and 344: group 1 is an opening brace, a
    run of non-brace characters, any number of inner brace pairs (each an
    opening brace, non-brace characters, a closing brace, non-brace
    characters) and a closing brace; an object whose braces nest at most
    one level deep. *)
Definition no_brace : regex := NoneOf [lbrace; rbrace].

Definition shallow_object_re : regex :=
  Group
    (Cat (Chr lbrace)
      (Cat (Star no_brace)
        (Cat (Star (Cat (Chr lbrace)
                     (Cat (Star no_brace) (Cat (Chr rbrace) (Star no_brace)))))
          (Chr rbrace)))).

(** ** Python values

    The objects [json.loads] builds and the program passes around: [None],
    [bool], [int], [float], [str], [list] and [dict].  A [dict] keeps its
    keys in insertion order.  Floating-point arithmetic is outside the
    model: a [float] is carried as the literal it was read from. *)

Inductive value : Type :=
| VNone
| VBool (b : bool)
| VInt (z : Z)
| VFloat (literal : str)
| VStr (s : str)
| VList (l : list value)
| VDict (d : list (str * value)).

Definition dict := list (str * value).

(** [key in d] *)
Fixpoint dict_has (d : dict) (key : str) : bool :=
  match d with
  | [] => false
  | (k, _) :: d' => str_eqb k key || dict_has d' key
  end.

(** [d.get(key)] *)
Fixpoint dict_lookup (d : dict) (key : str) : option value :=
  match d with
  | [] => None
  | (k, v) :: d' => if str_eqb k key then Some v else dict_lookup d' key
  end.

(** [d.get(key, default)] *)
Definition dict_get (d : dict) (key : str) (default : value) : value :=
  match dict_lookup d key with Some v => v | None => default end.

(** [d[key] = v]: a key that is present keeps its place. *)
Fixpoint dict_set (d : dict) (key : str) (v : value) : dict :=
  match d with
  | [] => [(key, v)]
  | (k, x) :: d' =>
      if str_eqb k key then (k, v) :: d' else (k, x) :: dict_set d' key v
  end.

(** ** [json]

    [Json.loads] follows the decoder of Python's [json] module (the
    scanner, [scanstring], [JSONObject] and [JSONArray]) with its default
    settings: strict strings, [NaN] and the infinities accepted.
    [Json.dumps] is [json.dumps] with its default settings
    ([ensure_ascii], separators [", "] and [": "]).  A [float] is kept as
    the text of its literal.  The limits of the interpreter (the depth of
    recursion, the number of digits of an integer) are not modelled. *)

Module Json.

(** The outcome of a scan: a result with the unread text,
    [JSONDecodeError], or the recursion budget of the model used up. *)
Inductive scan (A : Type) : Type :=
| Scanned (a : A) (rest : str)
| DecodeError
| OutOfFuel.
Arguments Scanned {A} a rest.
Arguments DecodeError {A}.
Arguments OutOfFuel {A}.

(** JSON whitespace: space, tab, line feed, carriage return. *)
Definition is_ws (c : char) : bool :=
  ((c =? 32) || (c =? 9) || (c =? 10) || (c =? 13))%N.

Fixpoint skip_ws (s : str) : str :=
  match s with
  | c :: s' => if is_ws c then skip_ws s' else s
  | [] => []
  end.

Definition is_digit (c : char) : bool := ((48 <=? c) && (c <=? 57))%N.

Definition digit (c : char) : option (Decimal.uint -> Decimal.uint) :=
  if is_digit c then
    Some match (c - 48)%N with
         | 0 => Decimal.D0 | 1 => Decimal.D1 | 2 => Decimal.D2
         | 3 => Decimal.D3 | 4 => Decimal.D4 | 5 => Decimal.D5
         | 6 => Decimal.D6 | 7 => Decimal.D7 | 8 => Decimal.D8
         | _ => Decimal.D9
         end%N
  else None.

(** The longest run of digits at the head of [s]. *)
Fixpoint scan_digits (s : str) : Decimal.uint * str :=
  match s with
  | c :: s' =>
      match digit c with
      | Some d => let (ds, r) := scan_digits s' in (d ds, r)
      | None => (Decimal.Nil, s)
      end
  | [] => (Decimal.Nil, [])
  end.

Definition hex_digit (c : char) : option N :=
  (if (48 <=? c) && (c <=? 57) then Some (c - 48)
   else if (97 <=? c) && (c <=? 102) then Some (c - 87)
   else if (65 <=? c) && (c <=? 70) then Some (c - 55)
   else None)%N.

Definition hex4 (a b c d : char) : option N :=
  match hex_digit a, hex_digit b, hex_digit c, hex_digit d with
  | Some x, Some y, Some z, Some w => Some (((x * 16 + y) * 16 + z) * 16 + w)%N
  | _, _, _, _ => None
  end.

(** The character a one-letter escape stands for. *)
Definition escape_char (c : char) : option char :=
  match c with
  | 34 => Some 34 | 92 => Some 92 | 47 => Some 47
  | 98 => Some 8 | 102 => Some 12 | 110 => Some 10
  | 114 => Some 13 | 116 => Some 9
  | _ => None
  end%N.

Definition is_high_surrogate (c : N) : bool := ((55296 <=? c) && (c <=? 56319))%N.
Definition is_low_surrogate (c : N) : bool := ((56320 <=? c) && (c <=? 57343))%N.
Definition join_surrogates (hi lo : N) : N :=
  (65536 + (hi - 55296) * 1024 + (lo - 56320))%N.

(** [scanstring], strict: the text after an opening quote up to the
    closing one, escapes decoded; [acc] holds what was read, reversed. *)
Fixpoint scanstring (acc : str) (s : str) : scan str :=
  match s with
  | [] => DecodeError
  | c :: s1 =>
      if (c =? dquote)%N then Scanned (rev acc) s1
      else if (c =? backslash)%N then
        match s1 with
        | [] => DecodeError
        | e :: s2 =>
            if (e =? 117)%N then
              match s2 with
              | h1 :: h2 :: h3 :: h4 :: s3 =>
                  match hex4 h1 h2 h3 h4 with
                  | None => DecodeError
                  | Some u =>
                      match s3 with
                      | b :: u' :: l1 :: l2 :: l3 :: l4 :: s4 =>
                          if is_high_surrogate u && (b =? backslash)%N
                             && (u' =? 117)%N
                          then
                            match hex4 l1 l2 l3 l4 with
                            | None => DecodeError
                            | Some lo =>
                                if is_low_surrogate lo
                                then scanstring (join_surrogates u lo :: acc) s4
                                else scanstring (u :: acc) s3
                            end
                          else scanstring (u :: acc) s3
                      | _ => scanstring (u :: acc) s3
                      end
                  end
              | _ => DecodeError
              end
            else
              match escape_char e with
              | Some x => scanstring (x :: acc) s2
              | None => DecodeError
              end
        end
      else if (c <=? 31)%N then DecodeError
      else scanstring (c :: acc) s1
  end.

Definition minus : char := 45%N.
Definition comma : char := 44%N.
Definition colon : char := 58%N.
Definition lbracket : char := 91%N.
Definition rbracket : char := 93%N.

(** What [s] lost to become its suffix [rest]. *)
Definition consumed (s rest : str) : str :=
  firstn (length s - length rest) s.

(** The integer part of a number: [0], or a run of digits that does not
    start with [0]. *)
Definition scan_integer (s : str) : option (Decimal.uint * str) :=
  match s with
  | [] => None
  | c :: r =>
      if is_digit c then
        Some (if (c =? 48)%N then (Decimal.D0 Decimal.Nil, r) else scan_digits s)
      else None
  end.

(** A fraction: a point and at least one digit. *)
Definition scan_fraction (s : str) : bool * str :=
  match s with
  | p :: d :: _ =>
      if (p =? 46)%N && is_digit d then (true, snd (scan_digits (tl s)))
      else (false, s)
  | _ => (false, s)
  end.

(** An exponent: [e] or [E], an optional sign and at least one digit. *)
Definition scan_exponent (s : str) : bool * str :=
  match s with
  | e :: r =>
      if (e =? 101)%N || (e =? 69)%N then
        let r' :=
          match r with
          | sg :: r1 => if (sg =? 43)%N || (sg =? minus)%N then r1 else r
          | [] => r
          end in
        match r' with
        | d :: _ => if is_digit d then (true, snd (scan_digits r')) else (false, s)
        | [] => (false, s)
        end
      else (false, s)
  | [] => (false, s)
  end.

(** An optional minus sign. *)
Definition scan_sign (s : str) : bool * str :=
  match s with
  | c :: r => if (c =? minus)%N then (true, r) else (false, s)
  | [] => (false, s)
  end.

(** The number at the head of [s]: an optional sign, the integer part, an
    optional fraction and an optional exponent.  With neither fraction nor
    exponent it is an [int]. *)
Definition match_number (s : str) : scan value :=
  let (negative, s1) := scan_sign s in
  match scan_integer s1 with
  | None => DecodeError
  | Some (int_digits, s2) =>
      let (has_frac, s3) := scan_fraction s2 in
      let (has_exp, s4) := scan_exponent s3 in
      if has_frac || has_exp then Scanned (VFloat (consumed s s4)) s4
      else
        Scanned
          (VInt (Z.of_int (if negative then Decimal.Neg int_digits
                           else Decimal.Pos int_digits))) s4
  end.

(** The literals of the scanner, tried in its order before a number. *)
Definition scan_literal (s : str) : scan value :=
  match strip_prefix (py "null") s with
  | Some r => Scanned VNone r
  | None =>
  match strip_prefix (py "true") s with
  | Some r => Scanned (VBool true) r
  | None =>
  match strip_prefix (py "false") s with
  | Some r => Scanned (VBool false) r
  | None =>
  match strip_prefix (py "NaN") s with
  | Some r => Scanned (VFloat (py "NaN")) r
  | None =>
  match strip_prefix (py "Infinity") s with
  | Some r => Scanned (VFloat (py "Infinity")) r
  | None =>
  match strip_prefix (py "-Infinity") s with
  | Some r => Scanned (VFloat (py "-Infinity")) r
  | None => match_number s
  end end end end end end.

(** [scan_once], with [JSONObject] and [JSONArray] as the loops
    [scan_pairs] and [scan_items] over what follows the opening bracket. *)
Fixpoint scan_once (fuel : nat) (s : str) : scan value :=
  match fuel with
  | O => OutOfFuel
  | S fuel' =>
      match s with
      | [] => DecodeError
      | c :: s1 =>
          if (c =? dquote)%N then
            match scanstring [] s1 with
            | Scanned x r => Scanned (VStr x) r
            | DecodeError => DecodeError
            | OutOfFuel => OutOfFuel
            end
          else if (c =? lbrace)%N then
            match skip_ws s1 with
            | [] => DecodeError
            | c1 :: s2 =>
                if (c1 =? rbrace)%N then Scanned (VDict []) s2
                else scan_pairs fuel' [] (c1 :: s2)
            end
          else if (c =? lbracket)%N then
            match skip_ws s1 with
            | [] => DecodeError
            | c1 :: s2 =>
                if (c1 =? rbracket)%N then Scanned (VList []) s2
                else scan_items fuel' [] (c1 :: s2)
            end
          else scan_literal s
      end
  end

with scan_pairs (fuel : nat) (acc : dict) (s : str) : scan value :=
  match fuel with
  | O => OutOfFuel
  | S fuel' =>
      match s with
      | [] => DecodeError
      | c :: s1 =>
          if (c =? dquote)%N then
            match scanstring [] s1 with
            | Scanned key r1 =>
                match skip_ws r1 with
                | [] => DecodeError
                | c2 :: r2 =>
                    if (c2 =? colon)%N then
                      match scan_once fuel' (skip_ws r2) with
                      | Scanned v r3 =>
                          let acc' := dict_set acc key v in
                          match skip_ws r3 with
                          | [] => DecodeError
                          | c3 :: r4 =>
                              if (c3 =? rbrace)%N then Scanned (VDict acc') r4
                              else if (c3 =? comma)%N
                              then scan_pairs fuel' acc' (skip_ws r4)
                              else DecodeError
                          end
                      | DecodeError => DecodeError
                      | OutOfFuel => OutOfFuel
                      end
                    else DecodeError
                end
            | DecodeError => DecodeError
            | OutOfFuel => OutOfFuel
            end
          else DecodeError
      end
  end

with scan_items (fuel : nat) (acc : list value) (s : str) : scan value :=
  match fuel with
  | O => OutOfFuel
  | S fuel' =>
      match scan_once fuel' s with
      | Scanned v r =>
          match skip_ws r with
          | [] => DecodeError
          | c :: r1 =>
              if (c =? rbracket)%N then Scanned (VList (rev (v :: acc))) r1
              else if (c =? comma)%N
              then scan_items fuel' (v :: acc) (skip_ws r1)
              else DecodeError
          end
      | DecodeError => DecodeError
      | OutOfFuel => OutOfFuel
      end
  end.

(** The budget [decode] gives the scanner; [decode_never_out_of_fuel]
    shows that it is never used up. *)
Definition budget (s : str) : nat := 2 * length s + 2.

(** [JSONDecoder.decode]: one value between optional whitespace, and
    nothing after it. *)
Definition decode (s : str) : scan value :=
  match scan_once (budget s) (skip_ws s) with
  | Scanned v r =>
      match skip_ws r with
      | [] => Scanned v []
      | _ :: _ => DecodeError
      end
  | DecodeError => DecodeError
  | OutOfFuel => OutOfFuel
  end.

(** [json.loads(s)]; [None] stands for a raised [JSONDecodeError]. *)
Definition loads (s : str) : option value :=
  match decode s with
  | Scanned v _ => Some v
  | _ => None
  end.

(** *** Serialization *)

Fixpoint uint_chars (d : Decimal.uint) : str :=
  match d with
  | Decimal.Nil => []
  | Decimal.D0 d => 48%N :: uint_chars d
  | Decimal.D1 d => 49%N :: uint_chars d
  | Decimal.D2 d => 50%N :: uint_chars d
  | Decimal.D3 d => 51%N :: uint_chars d
  | Decimal.D4 d => 52%N :: uint_chars d
  | Decimal.D5 d => 53%N :: uint_chars d
  | Decimal.D6 d => 54%N :: uint_chars d
  | Decimal.D7 d => 55%N :: uint_chars d
  | Decimal.D8 d => 56%N :: uint_chars d
  | Decimal.D9 d => 57%N :: uint_chars d
  end.

(** [str(z)] for an [int]. *)
Definition int_repr (z : Z) : str :=
  match Z.to_int z with
  | Decimal.Pos d => uint_chars d
  | Decimal.Neg d => minus :: uint_chars d
  end.

Definition hex_char (n : N) : char :=
  (if n <? 10 then 48 + n else 87 + n)%N.

(** [\uXXXX] with lower-case digits. *)
Definition u_escape (c : N) : str :=
  [backslash; 117%N;
   hex_char ((c / 4096) mod 16); hex_char ((c / 256) mod 16);
   hex_char ((c / 16) mod 16); hex_char (c mod 16)].

(** What [ensure_ascii] writes for one character of a string. *)
Definition encode_char (c : char) : str :=
  (if c =? 34 then [backslash; 34]
   else if c =? 92 then [backslash; 92]
   else if c =? 10 then [backslash; 110]
   else if c =? 13 then [backslash; 114]
   else if c =? 9 then [backslash; 116]
   else if c =? 12 then [backslash; 102]
   else if c =? 8 then [backslash; 98]
   else if (32 <=? c) && (c <=? 126) then [c]
   else if c <? 65536 then u_escape c
   else u_escape (55296 + (c - 65536) / 1024)
          ++ u_escape (56320 + (c - 65536) mod 1024))%N.

Definition encode_string (s : str) : str :=
  dquote :: flat_map encode_char s ++ [dquote].

Definition item_separator : str := py ", ".
Definition key_separator : str := py ": ".

(** [sep.join(parts)] *)
Fixpoint join (sep : str) (parts : list str) : str :=
  match parts with
  | [] => []
  | [x] => x
  | x :: parts' => x ++ sep ++ join sep parts'
  end.

Fixpoint dumps (v : value) : str :=
  match v with
  | VNone => py "null"
  | VBool true => py "true"
  | VBool false => py "false"
  | VInt z => int_repr z
  | VFloat literal => literal
  | VStr s => encode_string s
  | VList l => lbracket :: join item_separator (map dumps l) ++ [rbracket]
  | VDict d =>
      lbrace ::
      join item_separator
        (map (fun '(k, x) => encode_string k ++ key_separator ++ dumps x) d)
      ++ [rbrace]
  end.

End Json.

(** ** [clean_text] (lines 25-54) *)

Definition unescape_all (text : str) : str :=
  let text := replace [backslash; ch "n"] [LF] text in
  let text := replace [backslash; ch "t"] [TAB] text in
  let text := replace [backslash; dquote] [dquote] text in
  let text := replace [backslash; backslash] [backslash] text in
  let text := replace [backslash; apostrophe] [apostrophe] text in
  text.

Definition clean_text (text : str) : str :=
  match text with
  | [] => []
  | _ =>
      let text :=
        match search fenced_json_re text with
        | Some json_match => group1 json_match
        | None =>
            let text := replace (py "```") [] (replace (py "```json") [] text) in
            match search braces_re text with
            | Some json_match => group0 json_match
            | None => text
            end
        end in
      let text := strip text in
      unescape_all text
  end.


(** ** The language model and the effects of the program

    [PromptTemplate.format] fills a constant template with its input
    variables; the three templates differ from their first line on, so a
    prompt is given by its template and the values of its variables.
    [TechLayerPrompt] holds the analysis that line 301 serializes with
    [json.dumps(..., indent=2)]. *)

Inductive prompt : Type :=
| ClassifyPrompt (user_input : str)
| AnalyzePrompt (description : value)
| TechLayerPrompt (feature_analysis : value) (user_prompt : str).

Inductive level : Type := DEBUG | INFO | ERROR.

(** What a run does besides computing: calls of the model, log records on
    the stream handler, lines printed and read, and files written with
    [json.dump]. *)
Inductive event : Type :=
| Invoke (p : prompt)
| Log (l : level)
| Print
| Input
| WriteJson (filename : str) (content : value).

Inductive exn : Type := TypeError | AttributeError | EOFError.

Inductive outcome (A : Type) : Type :=
| Return (a : A)
| Raise (e : exn).
Arguments Return {A} a.
Arguments Raise {A} e.

(** A computation: its outcome and the events it caused, in order. *)
Definition M (A : Type) : Type := (outcome A * list event)%type.

Definition ret {A} (a : A) : M A := (Return a, []).
Definition raise {A} (e : exn) : M A := (Raise e, []).
Definition emit (e : event) : M unit := (Return tt, [e]).
Definition lift {A} (o : outcome A) : M A := (o, []).

Definition bind {A B} (m : M A) (f : A -> M B) : M B :=
  match m with
  | (Return a, t) => let (r, t') := f a in (r, t ++ t')
  | (Raise e, t) => (Raise e, t)
  end.

Notation "x <- m ;; k" := (bind m (fun x => k))
  (at level 61, m at next level, right associativity).
Notation "m ;; k" := (bind m (fun _ => k))
  (at level 61, right associativity).

Definition logger (l : level) : M unit := emit (Log l).

(** ** The JSON recovery chain (lines 119-155, 220-256 and 319-355) *)

(** The replacements of lines 138 and 149. *)
Definition unescape_extracted (extracted_json : str) : str :=
  replace [backslash; apostrophe] [apostrophe]
    (replace [backslash; backslash] [backslash]
      (replace [backslash; dquote] [dquote]
        (replace [backslash; ch "n"] [LF] extracted_json))).

(** A [re.search] on the raw output whose group 1, unescaped, is given to
    [json.loads]; [None] when nothing matched or the text did not parse. *)
Definition reextract (r : regex) (text_output : str) : option value :=
  match search r text_output with
  | Some json_match => Json.loads (unescape_extracted (group1 json_match))
  | None => None
  end.

Definition failed_to_parse (cleaned : str) : value :=
  VDict [(py "raw_output", VStr cleaned);
         (py "error", VStr (py "Failed to parse JSON"))].

Definition parse_output (text_output : str) : M value :=
  let cleaned := clean_text text_output in
  match Json.loads cleaned with
  | Some parsed_json => logger INFO ;; ret parsed_json
  | None =>
      logger ERROR ;;
      match reextract fenced_json_re text_output with
      | Some v => ret v
      | None =>
          match reextract shallow_object_re text_output with
          | Some v => ret v
          | None => ret (failed_to_parse cleaned)
          end
      end
  end.

(** The value [parse_output] returns. *)
Definition parsed (text_output : str) : value :=
  match Json.loads (clean_text text_output) with
  | Some v => v
  | None =>
      match reextract fenced_json_re text_output with
      | Some v => v
      | None =>
          match reextract shallow_object_re text_output with
          | Some v => v
          | None => failed_to_parse (clean_text text_output)
          end
      end
  end.

Definition is_str (s : str) (v : value) : bool :=
  match v with
  | VStr t => str_eqb t s
  | _ => false
  end.

(** [needle in container] for a string [needle]: a key of a [dict], an
    element of a [list], a substring of a [str]; [TypeError] otherwise. *)
Definition py_in (needle : str) (container : value) : outcome bool :=
  match container with
  | VDict d => Return (dict_has d needle)
  | VList l => Return (existsb (is_str needle) l)
  | VStr s => Return (contains needle s)
  | _ => Raise TypeError
  end.

(** [obj.get(key, default)]: only a [dict] has the method. *)
Definition py_get (obj : value) (key : str) (default : value) : outcome value :=
  match obj with
  | VDict d => Return (dict_get d key default)
  | _ => Raise AttributeError
  end.

Definition user_prompt : str :=
  py "Generate 8 unique video chunks (~8s each) following cinematic/narrative principles, optimized for VEO3.".

Section Pipeline.

(** The model: the text [str(model.invoke(prompt))] for each prompt. *)
Variable oracle : prompt -> str.

Definition invoke (p : prompt) : M str :=
  emit (Invoke p) ;; ret (oracle p).

Definition ask (p : prompt) : M value :=
  text_output <- invoke p ;;
  logger DEBUG ;;
  parse_output text_output.

(** Lines 56-155. *)
Definition classify_input (user_input : str) : M value :=
  ask (ClassifyPrompt user_input).

(** Lines 157-256. *)
Definition analyze_feature (feature_input : dict) : M value :=
  ask (AnalyzePrompt (dict_get feature_input (py "description") (VStr []))).

(** Lines 258-355. *)
Definition generate_tech_layer (feature_analysis : value) : M value :=
  ask (TechLayerPrompt feature_analysis user_prompt).

(** Lines 357-418. *)
Definition process_user_input (user_input : str) : M dict :=
  logger INFO ;;
  logger INFO ;;
  classification_result <- classify_input user_input ;;
  failed <- lift (py_in (py "error") classification_result) ;;
  if failed : bool then
    logger ERROR ;;
    ret [(py "error", VStr (py "Classification failed"));
         (py "details", classification_result)]
  else
    classification <-
      lift (py_get classification_result (py "classification") (VStr [])) ;;
    logger INFO ;;
    if is_str (py "General Conversation") classification then
      logger INFO ;;
      ret [(py "workflow", VStr (py "general_conversation"));
           (py "classification", classification);
           (py "result", classification_result)]
    else if is_str (py "Feature Description") classification then
      logger INFO ;;
      let feature_input := [(py "description", VStr user_input)] in
      feature_analysis <- analyze_feature feature_input ;;
      failed <- lift (py_in (py "error") feature_analysis) ;;
      if failed : bool then
        logger ERROR ;;
        ret [(py "error", VStr (py "Feature analysis failed"));
             (py "details", feature_analysis)]
      else
        logger INFO ;;
        logger INFO ;;
        tech_layer_result <- generate_tech_layer feature_analysis ;;
        failed <- lift (py_in (py "error") tech_layer_result) ;;
        if failed : bool then
          logger ERROR ;;
          ret [(py "error", VStr (py "Tech layer failed"));
               (py "details", tech_layer_result)]
        else
          logger INFO ;;
          ret [(py "workflow", VStr (py "feature_processing"));
               (py "classification", classification);
               (py "feature_analysis", feature_analysis);
               (py "tech_layer_result", tech_layer_result)]
    else
      logger ERROR ;;
      ret [(py "error", VStr (py "Unknown classification"));
           (py "classification", classification)].

End Pipeline.

(** ** The command-line loop (lines 421-504)

    Standard input is the list of lines still to be read.  [str.lower] is
    applied only to compare with words spelled in ASCII letters.  No
    character outside ASCII has one of their letters as its lower case
    (that of U+0130 is an i followed by a combining dot), so the ASCII
    mapping decides the comparisons as the Unicode one does. *)

Definition ascii_lower (c : char) : char :=
  (if (65 <=? c) && (c <=? 90) then c + 32 else c)%N.

Definition lower (s : str) : str := map ascii_lower s.

(** [s in words] *)
Definition str_in (s : str) (words : list str) : bool :=
  existsb (str_eqb s) words.

(** [result.get(key, {}).keys()]: only a [dict] has the method. *)
Definition keys_of (result : dict) (key : str) : outcome unit :=
  match dict_get result key (VDict []) with
  | VDict _ => Return tt
  | _ => Raise AttributeError
  end.

(** Lines 458-474. *)
Definition display (result : dict) : M unit :=
  emit Print ;; emit Print ;; emit Print ;;
  (if is_str (py "feature_processing") (dict_get result (py "workflow") VNone)
   then
     emit Print ;; emit Print ;;
     lift (keys_of result (py "feature_analysis")) ;; emit Print ;;
     lift (keys_of result (py "tech_layer_result")) ;; emit Print
   else if is_str (py "general_conversation")
             (dict_get result (py "workflow") VNone)
   then emit Print
   else ret tt) ;;
  (if dict_has result (py "error") then emit Print else ret tt) ;;
  emit Print.

(** [f"workflow_result_{test_count}.json"] *)
Definition output_filename (test_count : nat) : str :=
  py "workflow_result_" ++ Json.int_repr (Z.of_nat test_count) ++ py ".json".

Definition summary_filename : str := py "all_workflow_results.json".

Section CommandLine.

Variable oracle : prompt -> str.

(** The [while True] loop.  The result is [Some results] when the loop
    is left by [break].  When the input ends, [input()] raises
    [EOFError], the handler of line 487 prints it and the loop tries
    again without end: the result is [None], and the events stop at the
    first failed read. *)
Fixpoint loop (stdin : list str) (results : list value) (test_count : nat)
  {struct stdin} : list event * option (list value) :=
  match stdin with
  | [] => ([Input; Print], None)
  | line :: stdin1 =>
      let user_input := strip line in
      if str_in (lower user_input) [py "quit"; py "exit"; py "q"] then
        ([Input; Print], Some results)
      else
        match user_input with
        | [] =>
            let (t, r) := loop stdin1 results test_count in
            (Input :: Print :: t, r)
        | _ :: _ =>
            let test_count := S test_count in
            match (emit Print ;; emit Print ;; emit Print ;;
                   process_user_input oracle user_input) with
            | (Raise _, t1) =>
                let (t, r) := loop stdin1 results test_count in
                (Input :: t1 ++ Print :: t, r)
            | (Return result, t1) =>
                let results :=
                  results ++ [VDict [(py "input", VStr user_input);
                                     (py "result", VDict result)]] in
                match display result with
                | (Raise _, t2) =>
                    let (t, r) := loop stdin1 results test_count in
                    (Input :: t1 ++ t2 ++ Print :: t, r)
                | (Return _, t2) =>
                    match stdin1 with
                    | [] => (Input :: t1 ++ t2 ++ [Input; Print], None)
                    | choice :: stdin2 =>
                        let save_choice := lower (strip choice) in
                        let saved :=
                          if str_in save_choice [py "y"; py "yes"]
                          then [WriteJson (output_filename test_count)
                                  (VDict result); Print]
                          else [] in
                        let (t, r) := loop stdin2 results test_count in
                        (Input :: t1 ++ t2 ++ Input :: saved ++ t, r)
                    end
                end
            end
        end
  end.

(** The whole program: the banner, the loop, and the summary of lines
    491-504 when the loop was left. *)
Definition main (stdin : list str) : list event :=
  let (t, r) := loop stdin [] 0 in
  [Print; Print; Print; Print] ++ t ++
  match r with
  | None => []
  | Some [] => [Print]
  | Some ((_ :: _) as results) =>
      WriteJson summary_filename (VList results) :: Print :: Print
      :: map (fun _ => Print) results
  end.

End CommandLine.

(** The prompts given to the model during a run, in order. *)
Fixpoint llm_calls (t : list event) : list prompt :=
  match t with
  | [] => []
  | Invoke p :: t' => p :: llm_calls t'
  | _ :: t' => llm_calls t'
  end.

(** The names of the files written during a run, in order. *)
Fixpoint files_written (t : list event) : list str :=
  match t with
  | [] => []
  | WriteJson name _ :: t' => name :: files_written t'
  | _ :: t' => files_written t'
  end.

(** ** The logger (lines 12-23)

    [logging.getLogger(name)] returns the logger that the [logging]
    module keeps under [name]; one that was never configured has no
    handler and no level of its own.  The loggers of the module are a map
    from names to loggers, and [get_logger] returns the logger found
    under [name] in the map it leaves. *)

Inductive handler : Type :=
| StreamHandler (format : str).

Record py_logger : Type := Logger {
  handlers : list handler;
  own_level : option level
}.

Definition loggers := str -> py_logger.

Definition unconfigured : py_logger := Logger [] None.

Definition log_format : str :=
  py "%(asctime)s - %(name)s - %(levelname)s - %(message)s".

(** The map with the logger under [name] replaced. *)
Definition set_logger (registry : loggers) (name : str) (logger : py_logger)
  : loggers :=
  fun n => if str_eqb n name then logger else registry n.

Definition get_logger (name : str) (registry : loggers) : loggers :=
  let logger := registry name in
  match handlers logger with
  | [] =>
      let handler := StreamHandler log_format in
      set_logger registry name (Logger (handlers logger ++ [handler]) (Some DEBUG))
  | _ :: _ => registry
  end.

(** * Vocabulary of the properties *)

(** ** Models of the language model *)

(** The words of the workflow. *)
Definition General_Conversation : value := VStr (py "General Conversation").

Definition Feature_Description : value := VStr (py "Feature Description").

(** A model that answers each kind of prompt with a fixed text. *)
Definition scripted (classification analysis chunks : str) (p : prompt) : str :=
  match p with
  | ClassifyPrompt _ => classification
  | AnalyzePrompt _ => analysis
  | TechLayerPrompt _ _ => chunks
  end.

(** The text of the object that holds the classification [category]. *)
Definition classified_as (category : value) : str :=
  Json.dumps (VDict [(py "classification", category)]).

(** A user input. *)
Definition hello : str := py "hello".

(** A model that classifies the input as general conversation. *)
Definition chats : prompt -> str :=
  scripted (classified_as General_Conversation) (py "{}") (py "{}").

(** The two well-formed classification results. *)
Definition feature_answer : dict := [(py "classification", Feature_Description)].

Definition chat_answer : dict := [(py "classification", General_Conversation)].

(** A model that invents a third category. *)
Definition poet : prompt -> str :=
  scripted (classified_as (VStr (py "Poem"))) (py "{}") (py "{}").

(** A model whose answer is the text 123. *)
Definition digits_only (p : prompt) : str := py "123".

(** A model that classifies the input as a feature description and
    answers the two other prompts with an empty object. *)
Definition empty_answers : prompt -> str :=
  scripted (classified_as Feature_Description) (py "{}") (py "{}").

(** The text of a chat message with the given content, as [str] prints
    it: the content in quotes, then the other fields. *)
Definition chat_message (content : str) : str :=
  py "content='" ++ content ++ py "' additional_kwargs={} response_metadata={}".

(** A model whose messages have the content 123. *)
Definition says_123 (p : prompt) : str := chat_message (py "123").

(** ** Events *)

(** The record [parse_output] logs: at level INFO when the cleaned text
    parses, at level ERROR when it does not. *)
Definition parse_log (text_output : str) : list event :=
  [Log (match Json.loads (clean_text text_output) with
        | Some _ => INFO
        | None => ERROR
        end)].

(** An event of a stage: a call of the model or a log record. *)
Definition quiet (e : event) : Prop :=
  match e with
  | Invoke _ | Log _ => True
  | _ => False
  end.

(** An event that writes a file. *)
Definition is_write (e : event) : bool :=
  match e with
  | WriteJson _ _ => true
  | _ => false
  end.

(** The two kinds of file the program writes. *)
Definition result_file (name : str) : Prop :=
  name = summary_filename \/ exists n, name = output_filename n.

(** ** JSON text and values *)

(** A code point of the surrogate range, D800 to DFFF. *)
Definition is_surrogate (c : char) : bool := ((55296 <=? c) && (c <=? 57343))%N.

(** A Unicode scalar value: a code point that is not a surrogate. *)
Definition is_scalar (c : char) : bool :=
  negb (is_surrogate c) && (c <? 1114112)%N.

(** A decimal numeral that starts with a digit other than zero. *)
Definition leading_nonzero (d : Decimal.uint) : bool :=
  match d with
  | Decimal.Nil | Decimal.D0 _ => false
  | _ => true
  end.

(** Text that cannot continue a number: it does not start with a digit,
    a point or an exponent mark. *)
Definition ends_number (rest : str) : bool :=
  match rest with
  | [] => true
  | c :: _ =>
      negb (Json.is_digit c || (c =? 46) || (c =? 101) || (c =? 69))%N
  end.

(** No key occurs twice. *)
Fixpoint distinct (keys : list str) : bool :=
  match keys with
  | [] => true
  | k :: keys' => negb (existsb (str_eqb k) keys') && distinct keys'
  end.

(** The values [json.dumps] writes so that [json.loads] reads them back
    in this model: no [float], strings and keys made of Unicode scalar
    values, and the keys of a dictionary distinct, as those of a [dict]
    are. *)
Fixpoint encodable (v : value) : bool :=
  match v with
  | VFloat _ => false
  | VStr s => forallb is_scalar s
  | VList l => forallb encodable l
  | VDict d =>
      distinct (map fst d)
      && forallb (fun '(k, x) => forallb is_scalar k && encodable x) d
  | _ => true
  end.

(** The recursion budget [scan_once] needs for [dumps v]. *)
Fixpoint size (v : value) : nat :=
  match v with
  | VList l => S (list_sum (map (fun x => S (size x)) l))
  | VDict d => S (list_sum (map (fun '(_, x) => S (size x)) d))
  | _ => 1
  end.

(** What the text of a value starts with. *)
Definition starts_value (s : str) : Prop :=
  exists c r, s = c :: r /\ Json.is_ws c = false
              /\ (c =? Json.rbracket)%N = false /\ (c =? rbrace)%N = false.

(** A value whose text [scan_once] reads back, whatever follows it. *)
Definition reads_back (v : value) : Prop :=
  forall fuel rest,
    size v <= fuel -> ends_number rest = true ->
    Json.scan_once fuel (Json.dumps v ++ rest) = Json.Scanned v rest.

(** A scan that ended, and left less text than it was given. *)
Definition consumes (A : Type) (s : str) (r : Json.scan A) : Prop :=
  match r with
  | Json.Scanned _ rest => length rest < length s
  | Json.DecodeError => True
  | Json.OutOfFuel => False
  end.

(** ** Patterns and answers *)

(** The pattern has a capturing group. *)
Fixpoint has_group (r : regex) : bool :=
  match r with
  | Cat r1 r2 => has_group r1 || has_group r2
  | Star r1 | StarLazy r1 => has_group r1
  | Group _ => true
  | _ => false
  end.

(** [k] succeeds with [x] on some text no longer than [s]; the capture is
    the one given when the pattern has no group. *)
Definition reaches (A : Type) (b : bool) (k : cont A) (s : str)
    (g : option str) (x : A) : Prop :=
  exists s' g', k s' g' = Some x /\ length s' <= length s
                /\ (b = false -> g' = g).

(** The text of an object between the markers of a JSON code block. *)
Definition fence (s : str) : str := py "```json" ++ LF :: s ++ LF :: py "```".

(** A model that answers every prompt with the same fenced object. *)
Definition fenced_feature (p : prompt) : str :=
  fence (Json.dumps (VDict feature_answer)).

(** Text with an opening brace and, later, a closing brace. *)
Definition has_object_span (s : str) : Prop :=
  exists a b c, s = a ++ lbrace :: b ++ rbrace :: c.

(** An opening or a closing brace. *)
Definition is_brace (c : char) : bool := ((c =? lbrace) || (c =? rbrace))%N.

(** ** Text that the cleanup leaves alone *)

(** The second character of an escape sequence that [clean_text]
    rewrites: n, t, a double quote, a backslash or an apostrophe. *)
Definition rewritten (e : char) : bool :=
  ((e =? 110) || (e =? 116) || (e =? 34) || (e =? 92) || (e =? 39))%N.

(** Text without backticks in which no backslash starts a sequence that
    [clean_text] rewrites. *)
Fixpoint tidy (s : str) : bool :=
  match s with
  | [] => true
  | c :: s' =>
      negb (c =? backtick)%N
      && (if (c =? backslash)%N
          then match s' with
               | e :: _ => negb (rewritten e)
               | [] => false
               end
          else true)
      && tidy s'
  end.

(** A character of a string that survives serialization, the fence and
    [clean_text]: a Unicode scalar value other than the double quote, the
    backslash, the line feed, the tab and the backtick. *)
Definition kept (c : char) : bool :=
  is_scalar c
  && negb ((c =? 34) || (c =? 92) || (c =? 10) || (c =? 9) || (c =? 96))%N.

(** The values the recovery chain gets back from their fenced text: no
    [float], distinct keys, and every string and key made of kept
    characters. *)
Fixpoint plain (v : value) : bool :=
  match v with
  | VFloat _ => false
  | VStr s => forallb kept s
  | VList l => forallb plain l
  | VDict d =>
      distinct (map fst d)
      && forallb (fun '(k, x) => forallb kept k && plain x) d
  | _ => true
  end.

(** ** The cleanup, step by step *)

(** [text.replace(sub, '')] *)
Definition delete (sub text : str) : str := replace sub [] text.

(** The replacements of the last step, in order. *)
Definition escapes : list (str * str) :=
  [([backslash; ch "n"], [LF]);
   ([backslash; ch "t"], [TAB]);
   ([backslash; dquote], [dquote]);
   ([backslash; backslash], [backslash]);
   ([backslash; apostrophe], [apostrophe])].

(** [clean_text] as the specification describes it: the object of a
    fenced block if one matches; otherwise the text without the fence
    markers, cut down to its brace-delimited span if there is one; then
    stripped; then the replacements in order. *)
Definition clean_text_spec (text : str) : str :=
  let extracted :=
    match search fenced_json_re text with
    | Some fenced => group1 fenced
    | None =>
        let unfenced := delete (py "```") (delete (py "```json") text) in
        match search braces_re unfenced with
        | Some span => group0 span
        | None => unfenced
        end
    end in
  fold_left (fun text '(old, new) => replace old new text) escapes
    (strip extracted).

(** ** Statements about whole runs *)

(** C1 as the specification states it, for the object [o]: a model that
    answers with the fenced serialization of [o] makes the stage return
    [o]. *)
Definition recovers_fenced_object (o : dict) : Prop :=
  forall (oracle : prompt -> str) (user_input : str),
    oracle (ClassifyPrompt user_input) = fence (Json.dumps (VDict o)) ->
    fst (classify_input oracle user_input) = Return (VDict o).

(** An object with a line feed in a string. *)
Definition two_lines : dict :=
  [(py "note", VStr (py "line1" ++ LF :: py "line2"))].

(** C2 as the specification states it: classification comes first; the
    two further calls are made exactly when the classification value is
    "Feature Description"; "General Conversation" makes no further call
    and returns the classification result. *)
Definition two_calls_exactly_when_feature (oracle : prompt -> str)
    (user_input : str) : Prop :=
  let run := process_user_input oracle user_input in
  let classify := ClassifyPrompt user_input in
  let analyze := AnalyzePrompt (VStr user_input) in
  hd_error (llm_calls (snd run)) = Some classify
  /\
  forall r1,
    fst (classify_input oracle user_input) = Return (VDict r1) ->
    let classification := dict_get r1 (py "classification") (VStr []) in
    (classification = Feature_Description <->
     exists r2,
       fst (analyze_feature oracle [(py "description", VStr user_input)]) = Return r2
       /\ llm_calls (snd run) = [classify; analyze; TechLayerPrompt r2 user_prompt])
    /\
    (classification = General_Conversation ->
     llm_calls (snd run) = [classify]
     /\ fst run = Return [(py "workflow", VStr (py "general_conversation"));
                          (py "classification", classification);
                          (py "result", VDict r1)]).

(** A model that classifies the input as a feature description and then
    answers the analysis with text that holds no JSON. *)
Definition analysis_fails : prompt -> str :=
  scripted (classified_as Feature_Description) (py "oops") (py "{}").

(** C3 as the specification states it: the "tech_layer_result" of a
    completed feature workflow is a dictionary whose keys are exactly
    chunk1 to chunk8. *)
Definition chunk_keys : list str :=
  [py "chunk1"; py "chunk2"; py "chunk3"; py "chunk4";
   py "chunk5"; py "chunk6"; py "chunk7"; py "chunk8"].

(** A dictionary whose keys are exactly [chunk_keys]. *)
Definition eight_chunks (v : value) : Prop :=
  exists d, v = VDict d /\ forall key, dict_has d key = true <-> In key chunk_keys.

Definition feature_workflow_yields_eight_chunks (oracle : prompt -> str)
    (user_input : str) : Prop :=
  forall result t,
    process_user_input oracle user_input = (Return result, t) ->
    dict_lookup result (py "workflow") = Some (VStr (py "feature_processing")) ->
    exists v,
      dict_lookup result (py "tech_layer_result") = Some v /\ eight_chunks v.

(** What [process_user_input] returns with [empty_answers]. *)
Definition completed_run : dict :=
  [(py "workflow", VStr (py "feature_processing"));
   (py "classification", Feature_Description);
   (py "feature_analysis", VDict []);
   (py "tech_layer_result", VDict [])].

(** What [process_user_input] returns with [chats]. *)
Definition chat_run : dict :=
  [(py "workflow", VStr (py "general_conversation"));
   (py "classification", General_Conversation);
   (py "result", VDict chat_answer)].

(** ** What a pattern matches *)

(** [matches r w g g']: the pattern [r] matches exactly the text [w] and
    takes the capture from [g] to [g'].  The relation says which texts a
    pattern admits, not which of them the matcher prefers. *)
Inductive matches : regex -> str -> option str -> option str -> Prop :=
| MEps g : matches Eps [] g g
| MChr c g : matches (Chr c) [c] g g
| MDot c g : matches Dot [c] g g
| MSpace c g : is_space c = true -> matches Space [c] g g
| MNoneOf cs c g : mem c cs = false -> matches (NoneOf cs) [c] g g
| MCat r1 r2 w1 w2 g g1 g2 :
    matches r1 w1 g g1 -> matches r2 w2 g1 g2 ->
    matches (Cat r1 r2) (w1 ++ w2) g g2
| MStarNil r g : matches (Star r) [] g g
| MStarCons r w1 w2 g g1 g2 :
    matches r w1 g g1 -> matches (Star r) w2 g1 g2 ->
    matches (Star r) (w1 ++ w2) g g2
| MLazyNil r g : matches (StarLazy r) [] g g
| MLazyCons r w1 w2 g g1 g2 :
    matches r w1 g g1 -> matches (StarLazy r) w2 g1 g2 ->
    matches (StarLazy r) (w1 ++ w2) g g2
| MGroup r w g g1 : matches r w g g1 -> matches (Group r) w g (Some w).

(** No character of [s] is [c]. *)
Definition lacks (c : char) (s : str) : Prop := Forall (fun x => x <> c) s.

(** The text is made of whitespace. *)
Definition blank (s : str) : Prop := Forall (fun c => is_space c = true) s.

(** Text without braces. *)
Definition flat (s : str) : Prop := lacks lbrace s /\ lacks rbrace s.

(** An object whose braces nest at most one level deep: an opening brace,
    text without braces, inner brace pairs around and before text without
    braces, and a closing brace. *)
Definition inner_object (xy : str * str) : str :=
  lbrace :: fst xy ++ rbrace :: snd xy.

Definition shallow_object (w : str) : Prop :=
  exists (head : str) (inner : list (str * str)),
    w = lbrace :: head ++ concat (map inner_object inner) ++ [rbrace]
    /\ flat head
    /\ Forall (fun xy => flat (fst xy) /\ flat (snd xy)) inner.

(** ** Answers of the model *)

(** The text without the two fence markers, as line 37 deletes them. *)
Definition unfenced (text : str) : str :=
  replace (py "```") [] (replace (py "```json") [] text).

(** What a stage makes of an answer that holds no opening brace: the
    value of the text without fence markers, stripped and unescaped, or
    the error dictionary with that text. *)
Definition value_or_error (text : str) : value :=
  let cleaned := unescape_all (strip (unfenced text)) in
  match Json.loads cleaned with
  | Some v => v
  | None => failed_to_parse cleaned
  end.

(** The answer holds the serialization of the object [o] in a JSON code
    block; no backtick comes before the block. *)
Definition fenced_answer (o : dict) (text : str) : Prop :=
  exists before after,
    lacks backtick before
    /\ text = before ++ fence (Json.dumps (VDict o)) ++ after.

(** The answer holds the serialization of the object [o] without a code
    block, between text without backticks; no opening brace comes before
    the object and no closing brace after it. *)
Definition bare_answer (o : dict) (text : str) : Prop :=
  exists before after,
    lacks backtick before /\ lacks lbrace before
    /\ lacks backtick after /\ lacks rbrace after
    /\ text = before ++ Json.dumps (VDict o) ++ after.

(** A model that wraps the classification "General Conversation" in a
    code block and a sentence. *)
Definition polite (p : prompt) : str :=
  py "Here is the result: " ++ fence (Json.dumps (VDict chat_answer))
  ++ py " Anything else?".

(** A model that writes the classification after a few words, without a
    code block. *)
Definition terse (p : prompt) : str :=
  py "Result: " ++ Json.dumps (VDict chat_answer) ++ py " (done)".

(** A model that answers with a list. *)
Definition lists (p : prompt) : str := py "[1, 2]".

(** ** Runs of the workflow *)

(** An analysis and a set of chunks, as a well-behaved model writes
    them. *)
Definition some_analysis : dict := [(py "tone", VStr (py "calm"))].
Definition some_chunks : dict := [(py "chunk1", VStr (py "opening shot"))].

(** A model that answers each prompt with a fenced object and a few
    words around it. *)
Definition well_behaved : prompt -> str :=
  scripted
    (py "Sure. " ++ fence (Json.dumps (VDict feature_answer)))
    (fence (Json.dumps (VDict some_analysis)) ++ py " Enjoy!")
    (fence (Json.dumps (VDict some_chunks))).

(** The sequences of model calls a run can make. *)
Definition call_sequences (user_input : str) (calls : list prompt) : Prop :=
  calls = [ClassifyPrompt user_input]
  \/ calls = [ClassifyPrompt user_input; AnalyzePrompt (VStr user_input)]
  \/ exists feature_analysis,
       calls = [ClassifyPrompt user_input; AnalyzePrompt (VStr user_input);
                TechLayerPrompt feature_analysis user_prompt].

(** The result for a stage result that contains "error". *)
Definition failure (message : string) (details : value) : dict :=
  [(py "error", VStr (py message)); (py "details", details)].

(** A model that answers the classification with a JSON string. *)
Definition mumbles (p : prompt) : str :=
  dquote :: py "an error occurred" ++ [dquote].

(** ** Runs of the command-line loop *)

(** A line that ends the loop (line 436). *)
Definition exit_word (line : str) : Prop :=
  str_in (lower (strip line)) [py "quit"; py "exit"; py "q"] = true.

(** An entry of the results list (lines 451-454). *)
Definition entry (ur : str * dict) : value :=
  VDict [(py "input", VStr (fst ur)); (py "result", VDict (snd ur))].

(** [user_input] is a line of [stdin] without the whitespace around it,
    and it is not empty. *)
Definition typed (stdin : list str) (user_input : str) : Prop :=
  user_input <> [] /\ exists line, In line stdin /\ strip line = user_input.

(** The input was typed and [process_user_input] returned the result
    for it. *)
Definition processed (oracle : prompt -> str) (stdin : list str)
    (ur : str * dict) : Prop :=
  typed stdin (fst ur)
  /\ fst (process_user_input oracle (fst ur)) = Return (snd ur).

(** Numbers that grow, all above [lo]. *)
Fixpoint increasing (lo : nat) (ks : list nat) : bool :=
  match ks with
  | [] => true
  | k :: ks' => (lo <? k) && increasing k ks'
  end.

(** A session: an input, the choice to save its result, and the word
    that ends the loop. *)
Definition session : list str := [py " hello "; py "y"; py "quit"].

(** ** Texts for the patterns *)

(** An empty object in a JSON code block. *)
Definition fenced_empty : str := fence [lbrace; rbrace].

(** Braces one level deep, between words. *)
Definition nested_once : str := py "see {a{b}c} end".

(** A logger that was configured elsewhere, with a handler of another
    format and the level ERROR. *)
Definition configured (name : str) : loggers :=
  set_logger (fun _ => unconfigured) name
    (Logger [StreamHandler (py "%(message)s")] (Some ERROR)).

(** * Properties *)

(** ** The stages and the workflow, unfolded *)

Arguments py : simpl never.

Lemma parse_output_eq (text_output : str) :
  parse_output text_output = (Return (parsed text_output), parse_log text_output).
Proof.
  unfold parse_output, parsed, parse_log.
  destruct (Json.loads (clean_text text_output)); [reflexivity|].
  destruct (reextract fenced_json_re text_output); [reflexivity|].
  destruct (reextract shallow_object_re text_output); reflexivity.
Qed.

Section StageFacts.
Variable oracle : prompt -> str.

Lemma ask_eq (p : prompt) :
  ask oracle p =
  (Return (parsed (oracle p)), Invoke p :: Log DEBUG :: parse_log (oracle p)).
Proof.
  unfold ask, invoke. cbn. rewrite parse_output_eq. reflexivity.
Qed.

Lemma classify_input_eq (user_input : str) :
  classify_input oracle user_input =
  (Return (parsed (oracle (ClassifyPrompt user_input))),
   Invoke (ClassifyPrompt user_input) :: Log DEBUG
     :: parse_log (oracle (ClassifyPrompt user_input))).
Proof. apply ask_eq. Qed.

Lemma analyze_feature_eq (feature_input : dict) :
  let p := AnalyzePrompt (dict_get feature_input (py "description") (VStr [])) in
  analyze_feature oracle feature_input =
  (Return (parsed (oracle p)), Invoke p :: Log DEBUG :: parse_log (oracle p)).
Proof. apply ask_eq. Qed.

Lemma generate_tech_layer_eq (feature_analysis : value) :
  let p := TechLayerPrompt feature_analysis user_prompt in
  generate_tech_layer oracle feature_analysis =
  (Return (parsed (oracle p)), Invoke p :: Log DEBUG :: parse_log (oracle p)).
Proof. apply ask_eq. Qed.

End StageFacts.

(** Unfolds the workflow down to the tests it makes on the stage results. *)
Ltac workflow :=
  unfold process_user_input;
  repeat (rewrite ?classify_input_eq, ?analyze_feature_eq, ?generate_tech_layer_eq;
          cbn [bind lift logger emit ret raise fst snd app]).

Ltac run_step := cbn [bind lift logger emit ret raise fst snd app].

(** Splits on the first test of the goal. *)
Ltac split_test :=
  match goal with
  | |- context [py_in ?k ?v] => destruct (py_in k v) as [[|]|] eqn:?
  | |- context [py_get ?o ?k ?d] => destruct (py_get o k d) eqn:?
  | |- context [is_str ?s ?v] => destruct (is_str s v) eqn:?
  end; run_step.

Lemma str_eqb_eq (a b : str) : str_eqb a b = true <-> a = b.
Proof.
  revert b. induction a as [|x a IH]; destruct b as [|y b]; simpl;
    try (split; congruence).
  rewrite andb_true_iff, N.eqb_eq, IH. split.
  - intros [-> ->]. reflexivity.
  - intros H. inversion H. auto.
Qed.

Lemma str_eqb_refl (a : str) : str_eqb a a = true.
Proof. apply str_eqb_eq. reflexivity. Qed.

Lemma is_str_true (s : str) (v : value) : is_str s v = true <-> v = VStr s.
Proof.
  destruct v; simpl; try (split; congruence).
  rewrite str_eqb_eq. split; congruence.
Qed.

Lemma is_str_false (s : str) (v : value) : v <> VStr s -> is_str s v = false.
Proof.
  intros H. destruct (is_str s v) eqn:E; [|reflexivity].
  apply is_str_true in E. contradiction.
Qed.

(** Decides the comparisons of literal keys. *)
Ltac keys :=
  cbn [dict_has dict_lookup dict_get];
  repeat match goal with
         | |- context [str_eqb (py ?a) (py ?b)] =>
             let r := eval vm_compute in (str_eqb (py a) (py b)) in
             change (str_eqb (py a) (py b)) with r
         end;
  cbn [orb andb].

Ltac keys_in H :=
  cbn [dict_has dict_lookup dict_get] in H;
  repeat match type of H with
         | context [str_eqb (py ?a) (py ?b)] =>
             let r := eval vm_compute in (str_eqb (py a) (py b)) in
             change (str_eqb (py a) (py b)) with r in H
         end;
  cbn [orb andb] in H.

Ltac Zify.zify_post_hook ::= Z.to_euclidean_division_equations.

(** Splits on the first comparison of code points in the goal. *)
Ltac case_N :=
  match goal with
  | |- context [N.eqb ?a ?b] => destruct (N.eqb_spec a b)
  | |- context [N.leb ?a ?b] => destruct (N.leb_spec a b)
  | |- context [N.ltb ?a ?b] => destruct (N.ltb_spec a b)
  end.

(** ** [json.loads] after [json.dumps] *)

Lemma hex_digit_hex_char (n : N) :
  (n < 16)%N -> Json.hex_digit (Json.hex_char n) = Some n.
Proof.
  intros H. unfold Json.hex_digit, Json.hex_char.
  repeat case_N; cbn [andb]; try lia; f_equal; lia.
Qed.

Lemma hex4_u_escape (c : N) :
  (c < 65536)%N ->
  Json.hex4 (Json.hex_char ((c / 4096) mod 16)) (Json.hex_char ((c / 256) mod 16))
            (Json.hex_char ((c / 16) mod 16)) (Json.hex_char (c mod 16)) = Some c.
Proof.
  intros H. unfold Json.hex4.
  rewrite !hex_digit_hex_char by (apply N.mod_lt; discriminate).
  f_equal. lia.
Qed.

(** A [\uXXXX] escape of a code point that is not a high surrogate is read
    back as that code point. *)
Lemma scanstring_u_escape (c : N) (acc rest : str) :
  (c < 65536)%N -> Json.is_high_surrogate c = false ->
  Json.scanstring acc (Json.u_escape c ++ rest) = Json.scanstring (c :: acc) rest.
Proof.
  intros Hc Hhi. unfold Json.u_escape.
  cbn [app Json.scanstring].
  change (backslash =? dquote)%N with false.
  change (backslash =? backslash)%N with true.
  change (117 =? 117)%N with true. cbv iota.
  rewrite hex4_u_escape by assumption. rewrite Hhi. cbn [andb].
  destruct rest as [|? [|? [|? [|? [|? [|? ?]]]]]]; reflexivity.
Qed.

(** A surrogate pair is read back as the code point it encodes. *)
Lemma scanstring_surrogate_pair (c : N) (acc rest : str) :
  (65536 <= c)%N -> (c < 1114112)%N ->
  Json.scanstring acc
    (Json.u_escape (55296 + (c - 65536) / 1024)
     ++ Json.u_escape (56320 + (c - 65536) mod 1024) ++ rest)
  = Json.scanstring (c :: acc) rest.
Proof.
  intros Hlo Hhi.
  set (hi := (55296 + (c - 65536) / 1024)%N).
  set (lo := (56320 + (c - 65536) mod 1024)%N).
  assert (Hhi1 : (hi < 65536)%N) by (subst hi; lia).
  assert (Hlo1 : (lo < 65536)%N) by (subst lo; lia).
  assert (Hhs : Json.is_high_surrogate hi = true).
  { unfold Json.is_high_surrogate. subst hi. repeat case_N; cbn [andb]; lia. }
  assert (Hls : Json.is_low_surrogate lo = true).
  { unfold Json.is_low_surrogate. subst lo. repeat case_N; cbn [andb]; lia. }
  unfold Json.u_escape at 1. cbn [app Json.scanstring].
  change (backslash =? dquote)%N with false.
  change (backslash =? backslash)%N with true.
  change (117 =? 117)%N with true. cbv iota.
  rewrite hex4_u_escape by assumption.
  unfold Json.u_escape. cbn [app]. rewrite Hhs.
  change (backslash =? backslash)%N with true.
  change (117 =? 117)%N with true. cbn [andb].
  rewrite hex4_u_escape by assumption. rewrite Hls.
  f_equal. f_equal. unfold Json.join_surrogates. subst hi lo. lia.
Qed.

Lemma scanstring_encode_char (c : char) (acc rest : str) :
  is_scalar c = true ->
  Json.scanstring acc (Json.encode_char c ++ rest) = Json.scanstring (c :: acc) rest.
Proof.
  unfold is_scalar, is_surrogate. intros Hc.
  apply andb_true_iff in Hc. destruct Hc as [Hs Hmax].
  apply N.ltb_lt in Hmax. apply negb_true_iff in Hs.
  unfold Json.encode_char.
  destruct (N.eqb_spec c 34) as [->|]; [reflexivity|].
  destruct (N.eqb_spec c 92) as [->|]; [reflexivity|].
  destruct (N.eqb_spec c 10) as [->|]; [reflexivity|].
  destruct (N.eqb_spec c 13) as [->|]; [reflexivity|].
  destruct (N.eqb_spec c 9) as [->|]; [reflexivity|].
  destruct (N.eqb_spec c 12) as [->|]; [reflexivity|].
  destruct (N.eqb_spec c 8) as [->|]; [reflexivity|].
  destruct (N.leb_spec 32 c); destruct (N.leb_spec c 126); cbn [andb].
  - cbn [app Json.scanstring]. unfold dquote, backslash.
    repeat case_N; try lia; reflexivity.
  - destruct (N.ltb_spec c 65536).
    + apply scanstring_u_escape; [assumption|].
      unfold Json.is_high_surrogate.
      revert Hs. repeat case_N; cbn [andb]; try lia; congruence.
    + rewrite <- app_assoc. apply scanstring_surrogate_pair; assumption.
  - destruct (N.ltb_spec c 65536); [|lia].
    apply scanstring_u_escape; [lia|].
    unfold Json.is_high_surrogate. repeat case_N; cbn [andb]; try lia; congruence.
  - lia.
Qed.

Lemma scanstring_encode (s : str) : forall acc rest,
  forallb is_scalar s = true ->
  Json.scanstring acc (flat_map Json.encode_char s ++ dquote :: rest)
  = Json.Scanned (rev acc ++ s) rest.
Proof.
  induction s as [|c s IH]; intros acc rest Hs.
  - cbn. rewrite app_nil_r. reflexivity.
  - cbn [forallb] in Hs. apply andb_true_iff in Hs. destruct Hs as [Hc Hs].
    cbn [flat_map]. rewrite <- app_assoc.
    rewrite scanstring_encode_char by assumption.
    rewrite IH by assumption. cbn [rev]. rewrite <- app_assoc. reflexivity.
Qed.

Lemma scanstring_encode_string (s rest : str) :
  forallb is_scalar s = true ->
  Json.scanstring [] (tl (Json.encode_string s) ++ rest) = Json.Scanned s rest.
Proof.
  intros Hs. unfold Json.encode_string. cbn [tl].
  rewrite <- app_assoc. cbn [app].
  apply (scanstring_encode s [] rest Hs).
Qed.

(** *** Integers *)

(** [str(z)] is [0] or starts with a digit that is not [0]. *)
Lemma to_uint_leading_nonzero (p : positive) :
  leading_nonzero (Pos.to_uint p) = true.
Proof.
  pose proof (DecimalPos.Unsigned.to_of (Pos.to_uint p)) as H.
  rewrite DecimalPos.Unsigned.of_to in H. cbn [N.to_uint] in H.
  pose proof (DecimalPos.Unsigned.to_uint_nonzero p) as Hnz.
  unfold Decimal.unorm in H.
  destruct (Decimal.nzhead (Pos.to_uint p)) eqn:E;
    try (rewrite H; reflexivity).
  - contradiction.
  - exfalso. exact (DecimalFacts.nzhead_nonzero _ _ E).
Qed.

Lemma scan_digits_uint_chars (d : Decimal.uint) (rest : str) :
  ends_number rest = true ->
  Json.scan_digits (Json.uint_chars d ++ rest) = (d, rest).
Proof.
  intros Hrest.
  induction d; cbn [Json.uint_chars app Json.scan_digits];
    try (change (Json.digit _) with (Some Decimal.D0) ||
         change (Json.digit _) with (Some Decimal.D1) ||
         change (Json.digit _) with (Some Decimal.D2) ||
         change (Json.digit _) with (Some Decimal.D3) ||
         change (Json.digit _) with (Some Decimal.D4) ||
         change (Json.digit _) with (Some Decimal.D5) ||
         change (Json.digit _) with (Some Decimal.D6) ||
         change (Json.digit _) with (Some Decimal.D7) ||
         change (Json.digit _) with (Some Decimal.D8) ||
         change (Json.digit _) with (Some Decimal.D9));
    try (cbv iota; rewrite IHd; reflexivity).
  destruct rest as [|c rest]; [reflexivity|].
  cbn [Json.scan_digits]. unfold Json.digit.
  cbn [ends_number] in Hrest. apply negb_true_iff in Hrest.
  repeat (apply orb_false_iff in Hrest; destruct Hrest as [Hrest ?]).
  rewrite Hrest. reflexivity.
Qed.

Lemma ends_number_cases (rest : str) :
  ends_number rest = true ->
  rest = [] \/
  exists c rest', rest = c :: rest' /\ Json.is_digit c = false
                  /\ (c =? 46)%N = false /\ (c =? 101)%N = false
                  /\ (c =? 69)%N = false.
Proof.
  destruct rest as [|c rest']; [left; reflexivity|].
  cbn [ends_number]. intros H. apply negb_true_iff in H.
  repeat (apply orb_false_iff in H; destruct H as [H ?]).
  right. exists c, rest'. auto.
Qed.

Lemma scan_fraction_none (rest : str) :
  ends_number rest = true -> Json.scan_fraction rest = (false, rest).
Proof.
  intros H. destruct (ends_number_cases rest H) as [->|(c & r & -> & _ & Hp & _)];
    [reflexivity|].
  unfold Json.scan_fraction. rewrite Hp. destruct r; reflexivity.
Qed.

Lemma scan_exponent_none (rest : str) :
  ends_number rest = true -> Json.scan_exponent rest = (false, rest).
Proof.
  intros H.
  destruct (ends_number_cases rest H) as [->|(c & r & -> & _ & _ & He & HE)];
    [reflexivity|].
  unfold Json.scan_exponent. rewrite He, HE. reflexivity.
Qed.

Lemma scan_integer_uint_chars (d : Decimal.uint) (rest : str) :
  d = Decimal.D0 Decimal.Nil \/ leading_nonzero d = true ->
  ends_number rest = true ->
  Json.scan_integer (Json.uint_chars d ++ rest) = Some (d, rest).
Proof.
  intros [->|Hd] Hrest; [reflexivity|].
  pose proof (scan_digits_uint_chars d rest Hrest) as Hscan.
  destruct d; try discriminate Hd;
    cbn [Json.uint_chars app] in *; unfold Json.scan_integer;
    match goal with
    | |- context [Json.is_digit ?c] => change (Json.is_digit c) with true
    end;
    match goal with
    | |- context [N.eqb ?c 48] => change (N.eqb c 48) with false
    end; cbv iota; rewrite Hscan; reflexivity.
Qed.

Lemma match_number_uint_chars (negative : bool) (d : Decimal.uint) (rest : str) :
  d = Decimal.D0 Decimal.Nil \/ leading_nonzero d = true ->
  ends_number rest = true ->
  Json.match_number
    ((if negative then [Json.minus] else []) ++ Json.uint_chars d ++ rest)
  = Json.Scanned
      (VInt (Z.of_int (if negative then Decimal.Neg d else Decimal.Pos d))) rest.
Proof.
  intros Hd Hrest.
  assert (Hsign :
    Json.scan_sign
      ((if negative then [Json.minus] else []) ++ Json.uint_chars d ++ rest)
    = (negative, Json.uint_chars d ++ rest)).
  { destruct negative; [reflexivity|]. cbn [app].
    destruct Hd as [->|Hd]; [reflexivity|].
    destruct d; try discriminate Hd; reflexivity. }
  unfold Json.match_number. rewrite Hsign.
  rewrite scan_integer_uint_chars by assumption.
  rewrite scan_fraction_none, scan_exponent_none by assumption.
  reflexivity.
Qed.

Lemma match_number_int_repr (z : Z) (rest : str) :
  ends_number rest = true ->
  Json.match_number (Json.int_repr z ++ rest) = Json.Scanned (VInt z) rest.
Proof.
  intros Hrest. rewrite <- (DecimalZ.of_to z) at 2.
  unfold Json.int_repr.
  destruct z as [|p|p]; cbn [Z.to_int].
  - apply (match_number_uint_chars false); auto.
  - apply (match_number_uint_chars false);
      auto using to_uint_leading_nonzero.
  - apply (match_number_uint_chars true);
      auto using to_uint_leading_nonzero.
Qed.

(** The first character of [str(z)]: a minus sign or a digit. *)
Lemma int_repr_head (z : Z) :
  exists c r, Json.int_repr z = c :: r
              /\ (c = Json.minus \/ Json.is_digit c = true)
              /\ (c = Json.minus ->
                  exists c' r', r = c' :: r' /\ Json.is_digit c' = true).
Proof.
  unfold Json.int_repr.
  assert (Hd : forall d, leading_nonzero d = true ->
                 exists c r, Json.uint_chars d = c :: r /\ Json.is_digit c = true).
  { intros d H. destruct d; try discriminate H; eexists; eexists; split; reflexivity. }
  destruct z as [|p|p]; cbn [Z.to_int].
  - exists 48%N, []. repeat split; auto. intros H; discriminate H.
  - destruct (Hd _ (to_uint_leading_nonzero p)) as (c & r & -> & Hc).
    exists c, r. repeat split; auto.
    intros ->. discriminate Hc.
  - destruct (Hd _ (to_uint_leading_nonzero p)) as (c & r & -> & Hc).
    exists Json.minus, (c :: r). repeat split; auto.
    intros _. exists c, r. auto.
Qed.

Lemma strip_prefix_head (x c : char) (p s : str) :
  (x =? c)%N = false -> strip_prefix (x :: p) (c :: s) = None.
Proof. intros H. cbn [strip_prefix]. rewrite H. reflexivity. Qed.

(** Text that starts like no literal is scanned as a number. *)
Lemma scan_literal_number (c : char) (r : str) :
  (110 =? c)%N = false -> (116 =? c)%N = false -> (102 =? c)%N = false ->
  (78 =? c)%N = false -> (73 =? c)%N = false ->
  (c = Json.minus -> exists c' r', r = c' :: r' /\ (73 =? c')%N = false) ->
  Json.scan_literal (c :: r) = Json.match_number (c :: r).
Proof.
  intros Hn Ht Hf HN HI Hminus. unfold Json.scan_literal.
  change (py "null") with [110; 117; 108; 108]%N.
  change (py "true") with [116; 114; 117; 101]%N.
  change (py "false") with [102; 97; 108; 115; 101]%N.
  change (py "NaN") with [78; 97; 78]%N.
  change (py "Infinity") with [73; 110; 102; 105; 110; 105; 116; 121]%N.
  change (py "-Infinity") with [45; 73; 110; 102; 105; 110; 105; 116; 121]%N.
  rewrite !strip_prefix_head by assumption.
  destruct (N.eqb_spec 45 c) as [<-|Hne].
  - destruct (Hminus eq_refl) as (c' & r' & -> & Hc').
    cbn [strip_prefix]. change (45 =? 45)%N with true. cbv iota.
    rewrite Hc'. reflexivity.
  - rewrite strip_prefix_head by (apply N.eqb_neq; assumption). reflexivity.
Qed.

Lemma is_digit_range (c : char) :
  Json.is_digit c = true <-> (48 <= c <= 57)%N.
Proof.
  unfold Json.is_digit. rewrite andb_true_iff, !N.leb_le. reflexivity.
Qed.

Lemma scan_once_int_repr (z : Z) (fuel : nat) (rest : str) :
  ends_number rest = true ->
  Json.scan_once (S fuel) (Json.int_repr z ++ rest) = Json.Scanned (VInt z) rest.
Proof.
  intros Hrest. rewrite <- (match_number_int_repr z rest Hrest).
  destruct (int_repr_head z) as (c & r & -> & Hc & Hminus).
  cbn [app Json.scan_once].
  assert (Hrange : (c = 45 \/ 48 <= c <= 57)%N).
  { destruct Hc as [->|Hc]; [left; reflexivity|right].
    apply is_digit_range. assumption. }
  replace (c =? dquote)%N with false
    by (symmetry; apply N.eqb_neq; unfold dquote; lia).
  replace (c =? lbrace)%N with false
    by (symmetry; apply N.eqb_neq; unfold lbrace; lia).
  replace (c =? Json.lbracket)%N with false
    by (symmetry; apply N.eqb_neq; unfold Json.lbracket; lia).
  apply scan_literal_number; try (apply N.eqb_neq; lia).
  intros ->. destruct (Hminus eq_refl) as (c' & r' & -> & Hc').
  exists c', (r' ++ rest). split; [reflexivity|].
  apply is_digit_range in Hc'. apply N.eqb_neq. lia.
Qed.

(** *** Values *)

(** Induction on a value with the hypotheses for the members of lists
    and dictionaries. *)
Section ValueInd.
Variable P : value -> Prop.
Hypothesis HNone : P VNone.
Hypothesis HBool : forall b, P (VBool b).
Hypothesis HInt : forall z, P (VInt z).
Hypothesis HFloat : forall literal, P (VFloat literal).
Hypothesis HStr : forall s, P (VStr s).
Hypothesis HList : forall l, Forall P l -> P (VList l).
Hypothesis HDict : forall d, Forall (fun kv => P (snd kv)) d -> P (VDict d).

Fixpoint value_ind' (v : value) : P v :=
  match v with
  | VNone => HNone
  | VBool b => HBool b
  | VInt z => HInt z
  | VFloat literal => HFloat literal
  | VStr s => HStr s
  | VList l =>
      HList ((fix members (l : list value) : Forall P l :=
                match l with
                | [] => Forall_nil _
                | x :: l' => Forall_cons x (value_ind' x) (members l')
                end) l)
  | VDict d =>
      HDict ((fix members (d : list (str * value))
                : Forall (fun kv => P (snd kv)) d :=
                match d with
                | [] => Forall_nil _
                | (k, x) :: d' =>
                    Forall_cons (k, x) (value_ind' x) (members d')
                end) d)
  end.
End ValueInd.

Lemma skip_ws_head (c : char) (s : str) :
  Json.is_ws c = false -> Json.skip_ws (c :: s) = c :: s.
Proof. intros H. cbn [Json.skip_ws]. rewrite H. reflexivity. Qed.

Lemma starts_value_app (s rest : str) :
  starts_value s -> starts_value (s ++ rest).
Proof.
  intros (c & r & -> & H). exists c, (r ++ rest). split; [reflexivity|exact H].
Qed.

Lemma starts_value_literal (c : char) (r : str) :
  negb (Json.is_ws c) && negb (c =? Json.rbracket)%N && negb (c =? rbrace)%N = true ->
  starts_value (c :: r).
Proof.
  intros H. apply andb_true_iff in H. destruct H as [H H3].
  apply andb_true_iff in H. destruct H as [H1 H2].
  apply negb_true_iff in H1, H2, H3.
  exists c, r. auto.
Qed.

Lemma dumps_starts_value (v : value) :
  encodable v = true -> starts_value (Json.dumps v).
Proof.
  destruct v as [|[|]|z|l|s|l|d]; cbn [encodable Json.dumps]; intros H;
    try discriminate H;
    try (apply starts_value_literal; reflexivity).
  destruct (int_repr_head z) as (c & r & -> & Hc & _).
  assert (Hrange : (c = 45 \/ 48 <= c <= 57)%N).
  { destruct Hc as [->|Hc]; [left; reflexivity|right].
    apply is_digit_range. assumption. }
  exists c, r. unfold Json.is_ws, Json.rbracket, rbrace.
  repeat split; repeat case_N; cbn [orb]; try lia; reflexivity.
Qed.

Lemma skip_ws_starts_value (s : str) :
  starts_value s -> Json.skip_ws s = s.
Proof. intros (c & r & -> & H & _). apply skip_ws_head. exact H. Qed.

Lemma str_eqb_sym (a b : str) : str_eqb a b = str_eqb b a.
Proof.
  destruct (str_eqb a b) eqn:E.
  - apply str_eqb_eq in E. subst. symmetry. apply str_eqb_refl.
  - destruct (str_eqb b a) eqn:E'; [|reflexivity].
    apply str_eqb_eq in E'. subst. rewrite str_eqb_refl in E. discriminate E.
Qed.

Lemma dict_set_fresh (d : dict) (key : str) (v : value) :
  existsb (str_eqb key) (map fst d) = false ->
  dict_set d key v = d ++ [(key, v)].
Proof.
  induction d as [|[k x] d IH]; cbn [map fst existsb dict_set app]; intros H.
  - reflexivity.
  - apply orb_false_iff in H. destruct H as [Hk Hd].
    rewrite str_eqb_sym, Hk, IH by assumption. reflexivity.
Qed.

Lemma unique_app_cons (keys : list str) (k : str) (rest : list str) :
  distinct (keys ++ k :: rest) = true ->
  existsb (str_eqb k) keys = false.
Proof.
  induction keys as [|a keys IH]; cbn [app distinct existsb]; intros H.
  - reflexivity.
  - apply andb_true_iff in H. destruct H as [Ha H].
    apply negb_true_iff in Ha. rewrite existsb_app in Ha.
    apply orb_false_iff in Ha. destruct Ha as [_ Ha].
    cbn [existsb] in Ha. apply orb_false_iff in Ha. destruct Ha as [Ha _].
    rewrite str_eqb_sym, Ha, IH by assumption. reflexivity.
Qed.

Lemma join_cons2 (sep a b : str) (l : list str) :
  Json.join sep (a :: b :: l) = a ++ sep ++ Json.join sep (b :: l).
Proof. reflexivity. Qed.

Lemma join_starts_value (f : value -> str) (sep : str) (x : value)
    (l : list value) (rest : str) :
  starts_value (f x) ->
  starts_value (Json.join sep (map f (x :: l)) ++ rest).
Proof.
  intros H. apply starts_value_app. destruct l as [|y l].
  - exact H.
  - cbn [map]. rewrite join_cons2. apply starts_value_app. exact H.
Qed.

Lemma scan_items_join (l : list value) : forall acc fuel rest,
  l <> [] ->
  Forall reads_back l ->
  forallb encodable l = true ->
  list_sum (map (fun x => S (size x)) l) <= fuel ->
  Json.scan_items fuel acc
    (Json.join Json.item_separator (map Json.dumps l) ++ Json.rbracket :: rest)
  = Json.Scanned (VList (rev acc ++ l)) rest.
Proof.
  induction l as [|x l IH]; intros acc fuel rest Hne Hback Henc Hfuel;
    [congruence|].
  inversion Hback as [|? ? Hx Hl]; subst.
  cbn [forallb] in Henc. apply andb_true_iff in Henc. destruct Henc as [Hex Hel].
  change (S (size x) + list_sum (map (fun x => S (size x)) l) <= fuel) in Hfuel.
  destruct fuel as [|fuel]; [lia|].
  assert (Hsx : size x <= fuel) by lia.
  assert (Hsl : list_sum (map (fun x => S (size x)) l) <= fuel) by lia.
  cbn [Json.scan_items].
  destruct l as [|y l].
  - cbn [map Json.join].
    rewrite (Hx fuel (Json.rbracket :: rest) Hsx eq_refl).
    rewrite skip_ws_head by reflexivity.
    change (Json.rbracket =? Json.rbracket)%N with true. cbv iota.
    cbn [rev]. reflexivity.
  - cbn [map]. rewrite join_cons2. rewrite <- !app_assoc.
    change Json.item_separator with [Json.comma; 32%N]. cbn [app].
    rewrite (Hx fuel) by (assumption || reflexivity).
    rewrite skip_ws_head by reflexivity.
    change (Json.comma =? Json.rbracket)%N with false.
    change (Json.comma =? Json.comma)%N with true. cbv iota.
    cbn [Json.skip_ws]. change (Json.is_ws 32%N) with true. cbv iota.
    change (Json.dumps y :: map Json.dumps l) with (map Json.dumps (y :: l)).
    rewrite skip_ws_starts_value.
    + rewrite IH; try assumption.
      * cbn [rev]. rewrite <- app_assoc. reflexivity.
      * discriminate.
    + apply join_starts_value. apply dumps_starts_value.
      cbn [forallb] in Hel. apply andb_true_iff in Hel. apply Hel.
Qed.

Lemma scan_key (k : str) (rest : str) :
  forallb is_scalar k = true ->
  Json.scanstring [] (tl (Json.encode_string k ++ Json.key_separator ++ rest))
  = Json.Scanned k (Json.key_separator ++ rest).
Proof.
  intros Hk. unfold Json.encode_string. cbn [app tl].
  rewrite <- app_assoc. cbn [app].
  apply (scanstring_encode k [] _ Hk).
Qed.

Lemma scan_pairs_join (d : dict) : forall acc fuel rest,
  d <> [] ->
  Forall (fun kv => reads_back (snd kv)) d ->
  forallb (fun '(k, x) => forallb is_scalar k && encodable x) d = true ->
  distinct (map fst acc ++ map fst d) = true ->
  list_sum (map (fun '(_, x) => S (size x)) d) <= fuel ->
  Json.scan_pairs fuel acc
    (Json.join Json.item_separator
       (map (fun '(k, x) =>
               Json.encode_string k ++ Json.key_separator ++ Json.dumps x) d)
     ++ rbrace :: rest)
  = Json.Scanned (VDict (acc ++ d)) rest.
Proof.
  induction d as [|[k x] d IH]; intros acc fuel rest Hne Hback Henc Hkeys Hfuel;
    [congruence|].
  inversion Hback as [|? ? Hx Hd]; subst. cbn [snd] in Hx.
  cbn [forallb] in Henc. apply andb_true_iff in Henc. destruct Henc as [Hkx Hed].
  apply andb_true_iff in Hkx. destruct Hkx as [Hk Hex].
  change (S (size x) + list_sum (map (fun '(_, x) => S (size x)) d) <= fuel)
    in Hfuel.
  destruct fuel as [|fuel]; [lia|].
  assert (Hsx : size x <= fuel) by lia.
  assert (Hsd : list_sum (map (fun '(_, x) => S (size x)) d) <= fuel) by lia.
  cbn [map fst] in Hkeys.
  pose proof (unique_app_cons _ _ _ Hkeys) as Hfresh.
  assert (Hstep : forall tail,
    ends_number tail = true ->
    Json.scan_pairs (S fuel) acc
      (Json.encode_string k ++ Json.key_separator ++ Json.dumps x ++ tail)
    = match Json.skip_ws tail with
      | [] => Json.DecodeError
      | c3 :: r4 =>
          if (c3 =? rbrace)%N then Json.Scanned (VDict (acc ++ [(k, x)])) r4
          else if (c3 =? Json.comma)%N
               then Json.scan_pairs fuel (acc ++ [(k, x)]) (Json.skip_ws r4)
               else Json.DecodeError
      end).
  { intros tail Htail.
    pose proof (scan_key k (Json.dumps x ++ tail) Hk) as Hscan.
    unfold Json.encode_string in *. cbn [app tl] in *.
    cbn [Json.scan_pairs]. change (dquote =? dquote)%N with true. cbv iota.
    rewrite Hscan.
    change Json.key_separator with [Json.colon; 32%N]. cbn [app].
    rewrite skip_ws_head by reflexivity.
    change (Json.colon =? Json.colon)%N with true. cbv iota.
    cbn [Json.skip_ws]. change (Json.is_ws 32%N) with true. cbv iota.
    rewrite skip_ws_starts_value
      by (apply starts_value_app, dumps_starts_value; assumption).
    rewrite (Hx fuel tail Hsx Htail).
    rewrite dict_set_fresh by assumption. reflexivity. }
  destruct d as [|[k' y] d].
  - cbn [map Json.join]. rewrite <- !app_assoc.
    rewrite Hstep by reflexivity.
    rewrite skip_ws_head by reflexivity.
    change (rbrace =? rbrace)%N with true. reflexivity.
  - cbn [map]. rewrite join_cons2. rewrite <- !app_assoc.
    rewrite Hstep by reflexivity.
    change Json.item_separator with [Json.comma; 32%N]. cbn [app].
    rewrite skip_ws_head by reflexivity.
    change (Json.comma =? rbrace)%N with false.
    change (Json.comma =? Json.comma)%N with true. cbv iota.
    cbn [Json.skip_ws]. change (Json.is_ws 32%N) with true. cbv iota.
    match goal with
    | |- context [Json.join ?sep (?a :: map ?f d)] =>
        change (a :: map f d) with (map f ((k', y) :: d))
    end.
    rewrite skip_ws_starts_value.
    + rewrite IH; try assumption.
      * rewrite <- app_assoc. reflexivity.
      * discriminate.
      * rewrite map_app, <- app_assoc. exact Hkeys.
    + apply starts_value_app. destruct d as [|kv d].
      * cbn [map Json.join]. apply starts_value_literal. reflexivity.
      * cbn [map]. rewrite join_cons2. apply starts_value_literal. reflexivity.
Qed.

(** [scan_once] reads back the text of every encodable value. *)
Lemma scan_once_dumps (v : value) : encodable v = true -> reads_back v.
Proof.
  induction v as [| b | z | literal | s | l IH | d IH] using value_ind';
    intros Henc fuel rest Hfuel Hrest; cbn [encodable] in Henc;
    try discriminate Henc;
    (destruct fuel as [|fuel]; [cbn [size] in Hfuel; lia|]).
  - reflexivity.
  - destruct b; reflexivity.
  - apply scan_once_int_repr. assumption.
  - cbn [Json.dumps]. unfold Json.encode_string. cbn [app Json.scan_once].
    change (dquote =? dquote)%N with true. cbv iota.
    rewrite <- app_assoc. cbn [app].
    rewrite (scanstring_encode s [] rest Henc). reflexivity.
  - cbn [Json.dumps app Json.scan_once].
    change (Json.lbracket =? dquote)%N with false.
    change (Json.lbracket =? lbrace)%N with false.
    change (Json.lbracket =? Json.lbracket)%N with true. cbv iota.
    rewrite <- app_assoc. cbn [app].
    destruct l as [|x l].
    + cbn [map Json.join app]. rewrite skip_ws_head by reflexivity.
      change (Json.rbracket =? Json.rbracket)%N with true. reflexivity.
    + assert (Hstart : starts_value
                (Json.join Json.item_separator (map Json.dumps (x :: l))
                 ++ Json.rbracket :: rest)).
      { apply join_starts_value, dumps_starts_value.
        cbn [forallb] in Henc. apply andb_true_iff in Henc. apply Henc. }
      rewrite (skip_ws_starts_value Hstart).
      destruct Hstart as (c & r & E & _ & Hc & _). rewrite E, Hc. rewrite <- E.
      assert (Hall : Forall reads_back (x :: l)).
      { clear - IH Henc. revert IH Henc.
        generalize (x :: l) as l'. induction l' as [|y l' IHl]; intros IH Henc.
        - constructor.
        - inversion IH; subst. cbn [forallb] in Henc.
          apply andb_true_iff in Henc. destruct Henc. constructor; auto. }
      rewrite (scan_items_join (l:=x :: l) [] (fuel:=fuel)); try assumption.
      * reflexivity.
      * discriminate.
      * cbn [size] in Hfuel. lia.
  - apply andb_true_iff in Henc. destruct Henc as [Hkeys Henc].
    cbn [Json.dumps app Json.scan_once].
    change (lbrace =? dquote)%N with false.
    change (lbrace =? lbrace)%N with true. cbv iota.
    rewrite <- app_assoc. cbn [app].
    destruct d as [|[k x] d].
    + cbn [map Json.join app]. rewrite skip_ws_head by reflexivity.
      change (rbrace =? rbrace)%N with true. reflexivity.
    + assert (Hall : Forall (fun kv => reads_back (snd kv)) ((k, x) :: d)).
      { clear - IH Henc. revert IH Henc.
        generalize ((k, x) :: d) as d'. induction d' as [|[k' y] d' IHd];
          intros IH Henc.
        - constructor.
        - inversion IH; subst. cbn [forallb] in Henc.
          apply andb_true_iff in Henc. destruct Henc as [Hy Hd'].
          apply andb_true_iff in Hy. destruct Hy.
          constructor; auto. }
      assert (Hhead : exists r,
                 Json.join Json.item_separator
                   (map (fun '(k, x) =>
                      Json.encode_string k ++ Json.key_separator ++ Json.dumps x)
                      ((k, x) :: d)) ++ rbrace :: rest = dquote :: r).
      { destruct d as [|kv d]; cbn [map]; [cbn [Json.join]|rewrite join_cons2];
          unfold Json.encode_string; cbn [app]; eexists; reflexivity. }
      destruct Hhead as [r E]. rewrite E.
      rewrite skip_ws_head by reflexivity.
      change (dquote =? rbrace)%N with false. cbv iota.
      rewrite <- E.
      rewrite (scan_pairs_join (d:=(k, x) :: d) [] (fuel:=fuel)); try assumption.
      * reflexivity.
      * discriminate.
      * cbn [size] in Hfuel. lia.
Qed.

Lemma join_length_lower (f : value -> str) (g : value -> nat) (sep : str)
    (l : list value) :
  1 <= length sep ->
  Forall (fun x => g x <= length (f x)) l ->
  list_sum (map (fun x => S (g x)) l) <= S (length (Json.join sep (map f l))).
Proof.
  intros Hsep. induction l as [|x l IH]; intros H.
  - cbn. lia.
  - inversion H as [|? ? Hx Hl]; subst. specialize (IH Hl).
    destruct l as [|y l].
    + cbn [map list_sum fold_right Json.join]. lia.
    + change (map f (x :: y :: l)) with (f x :: f y :: map f l).
      rewrite join_cons2, !length_app.
      change (list_sum (map (fun x => S (g x)) (x :: y :: l)))
        with (S (g x) + list_sum (map (fun x => S (g x)) (y :: l))).
      change (f y :: map f l) with (map f (y :: l)). lia.
Qed.

Lemma size_le_length (v : value) :
  encodable v = true -> size v <= length (Json.dumps v).
Proof.
  induction v as [| b | z | literal | s | l IH | d IH] using value_ind';
    intros Henc;
    try (destruct (dumps_starts_value _ Henc) as (c & r & -> & _);
         cbn [size length]; lia).
  - cbn [encodable] in Henc. cbn [size Json.dumps length].
    rewrite length_app. cbn [length].
    assert (Hall : Forall (fun x => size x <= length (Json.dumps x)) l).
    { clear - IH Henc. induction l as [|y l IHl].
      - constructor.
      - inversion IH; subst. cbn [forallb] in Henc.
        apply andb_true_iff in Henc. destruct Henc. constructor; auto. }
    assert (Hsep : 1 <= length Json.item_separator) by (vm_compute; lia).
    pose proof (@join_length_lower Json.dumps size Json.item_separator l Hsep Hall). lia.
  - cbn [encodable] in Henc. apply andb_true_iff in Henc.
    destruct Henc as [_ Henc].
    cbn [size Json.dumps length]. rewrite length_app. cbn [length].
    enough (list_sum (map (fun '(_, x) => S (size x)) d)
            <= S (length (Json.join Json.item_separator
                  (map (fun '(k, x) => Json.encode_string k
                          ++ Json.key_separator ++ Json.dumps x) d)))) by lia.
    clear - IH Henc. induction d as [|[k x] d IHd].
    + cbn. lia.
    + inversion IH as [|? ? Hx Hd]; subst. cbn [snd] in Hx.
      cbn [forallb] in Henc. apply andb_true_iff in Henc.
      destruct Henc as [Hkx Henc]. apply andb_true_iff in Hkx.
      destruct Hkx as [_ Hex]. specialize (IHd Hd Henc). specialize (Hx Hex).
      change (list_sum (map (fun '(_, x) => S (size x)) ((k, x) :: d)))
        with (S (size x) + list_sum (map (fun '(_, x) => S (size x)) d)).
      assert (Hsep : 1 <= length Json.item_separator) by (vm_compute; lia).
      destruct d as [|[k' y] d].
      * cbn [map list_sum fold_right Json.join]. rewrite !length_app. lia.
      * cbn [map] in *. rewrite join_cons2. rewrite !length_app.
        match type of IHd with
        | _ <= S (length ?J) =>
            match goal with
            | |- context [length (Json.join ?s ?l)] =>
                change (Json.join s l) with J
            end
        end. lia.
Qed.

(** [json.loads(json.dumps(v))] is [v]. *)
Theorem loads_dumps (v : value) :
  encodable v = true -> Json.loads (Json.dumps v) = Some v.
Proof.
  intros Henc. unfold Json.loads, Json.decode.
  rewrite (skip_ws_starts_value (dumps_starts_value _ Henc)).
  rewrite <- (app_nil_r (Json.dumps v)) at 2.
  rewrite (scan_once_dumps _ Henc).
  - reflexivity.
  - pose proof (size_le_length _ Henc). unfold Json.budget. lia.
  - reflexivity.
Qed.

(** ** The recursion budget of the decoder is never used up *)

Lemma skip_ws_length (s : str) : length (Json.skip_ws s) <= length s.
Proof.
  induction s as [|c s IH]; cbn [Json.skip_ws length]; [lia|].
  destruct (Json.is_ws c); cbn [length]; lia.
Qed.

Lemma scanstring_consumes (n : nat) : forall s acc,
  length s <= n -> consumes s (Json.scanstring acc s).
Proof.
  induction n as [|n IH]; intros s acc Hn.
  - destruct s; [exact I|cbn in Hn; lia].
  - destruct s as [|c s1]; [exact I|]. cbn [Json.scanstring].
    repeat match goal with
           | |- consumes _ (if ?b then _ else _) => destruct b
           | |- consumes _ (match ?x with _ => _ end) =>
               lazymatch x with
               | Json.scanstring _ _ => fail
               | _ => destruct x
               end
           end;
      try exact I; try (cbn [consumes length]; lia);
      match goal with
      | |- consumes _ (Json.scanstring ?a ?s') =>
          specialize (IH s' a ltac:(cbn [length] in *; lia));
          destruct (Json.scanstring a s'); cbn [consumes length] in *;
          (exact I || lia)
      end.
Qed.

Lemma scan_digits_length (s : str) :
  length (snd (Json.scan_digits s)) <= length s.
Proof.
  induction s as [|c s IH]; cbn [Json.scan_digits]; [cbn; lia|].
  destruct (Json.digit c); [|cbn; lia].
  destruct (Json.scan_digits s). cbn [snd length] in *. lia.
Qed.

Lemma scan_integer_consumes (s : str) (d : Decimal.uint) (r : str) :
  Json.scan_integer s = Some (d, r) -> length r < length s.
Proof.
  unfold Json.scan_integer. destruct s as [|c s]; [discriminate|].
  destruct (Json.is_digit c) eqn:Hc; [|discriminate].
  destruct (c =? 48)%N; intros H.
  - inversion H; subst. cbn [length]. lia.
  - pose proof (scan_digits_length s) as Hlen. revert H.
    cbn [Json.scan_digits]. unfold Json.digit. rewrite Hc.
    destruct (Json.scan_digits s). intros H. inversion H; subst.
    cbn [snd length] in *. lia.
Qed.

Lemma scan_fraction_length (s : str) :
  length (snd (Json.scan_fraction s)) <= length s.
Proof.
  unfold Json.scan_fraction. destruct s as [|p [|d s]]; cbn [snd]; try lia.
  destruct ((p =? 46)%N && Json.is_digit d); cbn [snd tl]; [|lia].
  pose proof (scan_digits_length (d :: s)). cbn [length] in *. lia.
Qed.

Lemma scan_exponent_length (s : str) :
  length (snd (Json.scan_exponent s)) <= length s.
Proof.
  unfold Json.scan_exponent. destruct s as [|e r]; cbn [snd]; [lia|].
  destruct ((e =? 101)%N || (e =? 69)%N); cbn [snd]; [|lia].
  set (r' := match r with [] => r | _ => _ end).
  assert (Hr' : length r' <= length r).
  { subst r'. destruct r as [|sg r1]; [lia|].
    destruct ((sg =? 43)%N || (sg =? Json.minus)%N); cbn [length]; lia. }
  destruct r' as [|d r'']; cbn [snd]; [lia|].
  destruct (Json.is_digit d); cbn [snd]; [|lia].
  pose proof (scan_digits_length (d :: r'')). cbn [length] in *. lia.
Qed.

Lemma match_number_consumes (s : str) : consumes s (Json.match_number s).
Proof.
  unfold Json.match_number.
  assert (Hsign : length (snd (Json.scan_sign s)) <= length s).
  { unfold Json.scan_sign. destruct s as [|c r]; cbn [snd]; [lia|].
    destruct (c =? Json.minus)%N; cbn [snd length]; lia. }
  destruct (Json.scan_sign s) as [negative s1]. cbn [snd] in Hsign.
  destruct (Json.scan_integer s1) as [[d s2]|] eqn:Eint; [|exact I].
  apply scan_integer_consumes in Eint.
  pose proof (scan_fraction_length s2) as Hfrac.
  destruct (Json.scan_fraction s2) as [has_frac s3]. cbn [snd] in Hfrac.
  pose proof (scan_exponent_length s3) as Hexp.
  destruct (Json.scan_exponent s3) as [has_exp s4]. cbn [snd] in Hexp.
  destruct (has_frac || has_exp); cbn [consumes]; lia.
Qed.

Lemma strip_prefix_length (p s r : str) :
  strip_prefix p s = Some r -> length r + length p = length s.
Proof.
  revert s. induction p as [|x p IH]; intros s; cbn [strip_prefix].
  - intros H. injection H as <-. cbn. lia.
  - destruct s as [|y s]; [discriminate|].
    destruct (N.eqb x y); [|discriminate].
    intros H. apply IH in H. cbn [length]. lia.
Qed.

Lemma scan_literal_consumes (s : str) : consumes s (Json.scan_literal s).
Proof.
  unfold Json.scan_literal.
  repeat match goal with
         | |- context [strip_prefix ?p s] =>
             let E := fresh "E" in
             destruct (strip_prefix p s) eqn:E;
             [apply strip_prefix_length in E;
              assert (0 < length p) by (vm_compute; lia);
              cbn [consumes]; lia|]
         end.
  apply match_number_consumes.
Qed.

Lemma skip_ws_cons_length (s r : str) (c : char) :
  Json.skip_ws s = c :: r -> length r < length s.
Proof.
  intros E. pose proof (skip_ws_length s) as H. rewrite E in H.
  cbn [length] in H. lia.
Qed.

Lemma scan_total (fuel : nat) :
  (forall s, 2 * length s < fuel -> consumes s (Json.scan_once fuel s))
  /\ (forall acc s, 2 * length s + 1 < fuel ->
        consumes s (Json.scan_pairs fuel acc s))
  /\ (forall acc s, 2 * length s + 1 < fuel ->
        consumes s (Json.scan_items fuel acc s)).
Proof.
  induction fuel as [|fuel (IHonce & IHpairs & IHitems)];
    [repeat split; intros; lia|].
  split; [|split].
  - intros [|c s1] Hfuel; cbn [Json.scan_once]; [exact I|].
    cbn [length] in Hfuel.
    destruct (c =? dquote)%N.
    { pose proof (@scanstring_consumes (length s1) s1 [] (le_n _)) as H.
      destruct (Json.scanstring [] s1); cbn [consumes length] in *;
        (exact I || lia). }
    destruct (c =? lbrace)%N.
    { destruct (Json.skip_ws s1) as [|c1 s2] eqn:E; [exact I|].
      pose proof (skip_ws_length s1) as Hlen. rewrite E in Hlen.
      destruct (c1 =? rbrace)%N; [cbn [consumes length] in *; lia|].
      pose proof (IHpairs [] (c1 :: s2) ltac:(lia)) as H.
      destruct (Json.scan_pairs fuel [] (c1 :: s2)); cbn [consumes length] in *;
        (exact I || lia). }
    destruct (c =? Json.lbracket)%N.
    { destruct (Json.skip_ws s1) as [|c1 s2] eqn:E; [exact I|].
      pose proof (skip_ws_length s1) as Hlen. rewrite E in Hlen.
      destruct (c1 =? Json.rbracket)%N; [cbn [consumes length] in *; lia|].
      pose proof (IHitems [] (c1 :: s2) ltac:(lia)) as H.
      destruct (Json.scan_items fuel [] (c1 :: s2)); cbn [consumes length] in *;
        (exact I || lia). }
    apply scan_literal_consumes.
  - intros acc [|c s1] Hfuel; cbn [Json.scan_pairs]; [exact I|].
    cbn [length] in Hfuel.
    destruct (c =? dquote)%N; [|exact I].
    pose proof (@scanstring_consumes (length s1) s1 [] (le_n _)) as Hkey.
    destruct (Json.scanstring [] s1) as [key r1| |]; cbn [consumes] in Hkey;
      [|exact I|contradiction].
    destruct (Json.skip_ws r1) as [|c2 r2] eqn:E2; [exact I|].
    apply skip_ws_cons_length in E2.
    destruct (c2 =? Json.colon)%N; [|exact I].
    pose proof (skip_ws_length r2) as Hr2.
    pose proof (IHonce (Json.skip_ws r2) ltac:(lia)) as Hv.
    destruct (Json.scan_once fuel (Json.skip_ws r2)) as [v r3| |];
      cbn [consumes] in Hv; [|exact I|contradiction].
    destruct (Json.skip_ws r3) as [|c3 r4] eqn:E4; [exact I|].
    apply skip_ws_cons_length in E4.
    destruct (c3 =? rbrace)%N; [cbn [consumes length]; lia|].
    destruct (c3 =? Json.comma)%N; [|exact I].
    pose proof (skip_ws_length r4) as Hr4.
    pose proof (IHpairs (dict_set acc key v) (Json.skip_ws r4) ltac:(lia)) as H.
    destruct (Json.scan_pairs fuel _ (Json.skip_ws r4));
      cbn [consumes length] in *; (exact I || lia).
  - intros acc s Hfuel; cbn [Json.scan_items].
    pose proof (IHonce s ltac:(lia)) as Hv.
    destruct (Json.scan_once fuel s) as [v r| |];
      cbn [consumes] in Hv; [|exact I|contradiction].
    destruct (Json.skip_ws r) as [|c r1] eqn:E; [exact I|].
    apply skip_ws_cons_length in E.
    destruct (c =? Json.rbracket)%N; [cbn [consumes]; lia|].
    destruct (c =? Json.comma)%N; [|exact I].
    pose proof (skip_ws_length r1) as Hr1.
    pose proof (IHitems (v :: acc) (Json.skip_ws r1) ltac:(lia)) as H.
    destruct (Json.scan_items fuel _ (Json.skip_ws r1));
      cbn [consumes] in *; (exact I || lia).
Qed.

(** [Json.decode] never runs out of budget: a [None] of [Json.loads] is
    a [JSONDecodeError]. *)
Theorem decode_never_out_of_fuel (s : str) : Json.decode s <> Json.OutOfFuel.
Proof.
  unfold Json.decode.
  pose proof (skip_ws_length s) as Hlen.
  pose proof (proj1 (scan_total (Json.budget s)) (Json.skip_ws s)) as H.
  unfold Json.budget in *. specialize (H ltac:(lia)).
  destruct (Json.scan_once _ _) as [v r| |]; cbn [consumes] in H;
    [|discriminate|contradiction].
  destruct (Json.skip_ws r); discriminate.
Qed.

Corollary loads_none_is_decode_error (s : str) :
  Json.loads s = None <-> Json.decode s = Json.DecodeError.
Proof.
  unfold Json.loads. pose proof (decode_never_out_of_fuel s) as H.
  destruct (Json.decode s); split; congruence.
Qed.

(** ** Text that starts with a brace decodes to a dictionary *)

(** The object loop returns a dictionary. *)
Lemma scan_pairs_dict (fuel : nat) : forall acc s v r,
  Json.scan_pairs fuel acc s = Json.Scanned v r -> exists d, v = VDict d.
Proof.
  induction fuel as [|fuel IH]; intros acc s v r; cbn [Json.scan_pairs];
    [discriminate|].
  repeat match goal with
         | |- (if ?b then _ else _) = _ -> _ => destruct b
         | |- match ?x with _ => _ end = _ -> _ =>
             lazymatch x with
             | Json.scan_pairs _ _ _ => fail
             | _ => destruct x
             end
         end; try discriminate.
  - intros H. injection H as <- _. eauto.
  - apply IH.
Qed.

(** Text that starts with an opening brace parses as a dictionary, if it
    parses. *)
Lemma loads_object (y : str) (v : value) :
  Json.loads (lbrace :: y) = Some v -> exists d, v = VDict d.
Proof.
  unfold Json.loads, Json.decode, Json.budget.
  rewrite skip_ws_head by reflexivity.
  cbn [Nat.add Nat.mul length Json.scan_once].
  rewrite Nat.add_comm. cbn [Nat.add Json.scan_once].
  change (lbrace =? dquote)%N with false.
  change (lbrace =? lbrace)%N with true. cbv iota.
  destruct (Json.skip_ws y) as [|c1 s2]; [discriminate|].
  destruct (c1 =? rbrace)%N.
  - destruct (Json.skip_ws s2); intros H; inversion H; eauto.
  - destruct (Json.scan_pairs _ [] (c1 :: s2)) as [v' r| |] eqn:E;
      try discriminate.
    apply scan_pairs_dict in E. destruct E as [d ->].
    destruct (Json.skip_ws r); intros H; inversion H; eauto.
Qed.

(** ** The fenced pattern on a fenced object *)

Section FencedMatch.
Variable A : Type.
Implicit Types (k : cont A) (s : str) (g : option str).

Lemma rmatch_lit (p : str) k s g :
  rmatch (lit p) k (p ++ s) g = k s g.
Proof.
  induction p as [|c p IH]; cbn [lit rmatch app one].
  - reflexivity.
  - rewrite N.eqb_refl. apply IH.
Qed.

(** The closing marker does not match text that starts with another
    character. *)
Lemma closing_marker_fails k s g :
  match s with [] => True | c :: _ => c <> backtick end ->
  rmatch (lit (py "```")) k s g = None.
Proof.
  intros H. change (py "```") with [backtick; backtick; backtick].
  cbn [lit rmatch]. unfold one at 1. destruct s as [|c s]; [reflexivity|].
  destruct (N.eqb_spec backtick c); [congruence|reflexivity].
Qed.

Lemma progress_tail (c : char) s (k : cont A) g :
  progress (c :: s) k s g = k s g.
Proof.
  unfold progress. cbn [length].
  rewrite (proj2 (Nat.ltb_lt _ _) (Nat.lt_succ_diag_r _)). reflexivity.
Qed.

(** Whitespace and then the closing marker do not match text whose
    first backtick comes after a closing brace. *)
Lemma no_marker_before_brace k (n : nat) : forall u tail g,
  Forall (fun c => c <> backtick) u ->
  greedy_loop (rmatch Space) (rmatch (lit (py "```")) k) n
    (u ++ rbrace :: tail) g = None.
Proof.
  induction n as [|n IH]; intros u tail g Hu; cbn [greedy_loop].
  - apply closing_marker_fails.
    destruct u as [|c u]; cbn [app]; [discriminate|].
    inversion Hu; assumption.
  - rewrite (closing_marker_fails k (u ++ rbrace :: tail) g).
    + destruct u as [|c u]; cbn [app rmatch one].
      * reflexivity.
      * inversion Hu; subst. destruct (is_space c); [|reflexivity].
        rewrite progress_tail, IH by assumption. reflexivity.
    + destruct u as [|c u]; cbn [app]; [discriminate|].
      inversion Hu; assumption.
Qed.

(** A lazy [.*?] stops at the first place where the rest of the pattern
    matches. *)
Lemma lazy_dot_first k (x : A) (post : str) g : forall pre n,
  length pre <= n ->
  (forall a c b, pre = a ++ c :: b -> k (c :: b ++ post) g = None) ->
  k post g = Some x ->
  lazy_loop (rmatch Dot) k n (pre ++ post) g = Some x.
Proof.
  induction pre as [|c pre IH]; intros n Hn Hfail Hpost.
  - destruct n; cbn [app lazy_loop]; rewrite Hpost; reflexivity.
  - destruct n as [|n]; [cbn in Hn; lia|].
    cbn [app lazy_loop].
    rewrite (Hfail [] c pre eq_refl). cbn [orelse rmatch one].
    rewrite progress_tail. apply IH.
    + cbn in Hn. lia.
    + intros a c' b ->. apply (Hfail (c :: a) c' b). reflexivity.
    + exact Hpost.
Qed.

Lemma closing_matches k g :
  rmatch (Cat (Star Space) (lit (py "```"))) k (LF :: py "```") g = k [] g.
Proof.
  assert (Ho : forall o : option A,
             match o with Some _ => o | None => None end = o)
    by (intros [|]; reflexivity).
  cbv. apply Ho.
Qed.

End FencedMatch.

Lemma firstn_minus_app (s t : str) :
  firstn (length (s ++ t) - length t) (s ++ t) = s.
Proof.
  rewrite length_app, Nat.add_sub. rewrite firstn_app, Nat.sub_diag.
  rewrite firstn_all, firstn_O. apply app_nil_r.
Qed.

(** On a fenced object without backticks the pattern matches the whole
    text, and group 1 is the object. *)
Lemma match_at_fence (mid : str) :
  Forall (fun c => c <> backtick) mid ->
  let s := lbrace :: mid ++ [rbrace] in
  match_at fenced_json_re (fence s) = Some (MatchObject (fence s) s).
Proof.
  intros Hmid s. unfold match_at, fenced_json_re, fence.
  cbn [rmatch]. rewrite rmatch_lit.
  set (k := fun s' g => Some (MatchObject _ _)).
  set (tail := LF :: py "```").
  assert (Es : s ++ tail = lbrace :: mid ++ rbrace :: tail).
  { subst s. cbn [app]. rewrite <- app_assoc. reflexivity. }
  (* the leading whitespace *)
  cbn [length greedy_loop rmatch one]. change (is_space LF) with true. cbv iota.
  rewrite progress_tail. rewrite Es. cbn [app length greedy_loop].
  cbn [rmatch one]. change (is_space lbrace) with false. cbv iota.
  cbn [orelse]. rewrite N.eqb_refl.
  (* the object, up to its last brace *)
  set (kg := fun (s' : str) (_ : option str) => _).
  assert (Hobject :
    lazy_loop (rmatch Dot) kg (length (mid ++ rbrace :: tail))
      (mid ++ rbrace :: tail) None = Some (MatchObject (fence s) s));
    [|match goal with
      | |- orelse ?a ?b = _ =>
          replace a with (Some (MatchObject (fence s) s))
            by (symmetry; exact Hobject)
      end; cbn [orelse]; unfold fence; fold tail; rewrite Es; reflexivity].
  apply (@lazy_dot_first match_object kg
           (MatchObject (fence s) s) (rbrace :: tail) None mid).
  - rewrite length_app. lia.
  - intros a c b E. subst kg. cbv beta. unfold one at 1.
    destruct (N.eqb_spec rbrace c) as [<-|]; [|reflexivity].
    apply (@no_marker_before_brace match_object k).
    rewrite E in Hmid. apply Forall_app in Hmid. destruct Hmid as [_ Hmid].
    inversion Hmid; assumption.
  - subst kg. cbv beta. unfold one at 1. rewrite N.eqb_refl.
    pose proof (@closing_matches match_object k) as Hclose.
    cbn [rmatch] in Hclose. unfold tail at 1 2. rewrite Hclose.
    subst k. cbv beta. f_equal. f_equal.
    + cbn [length]. rewrite Nat.sub_0_r. apply firstn_all.
    + change (S (length (mid ++ rbrace :: tail)))
        with (length (lbrace :: mid ++ rbrace :: tail)).
      rewrite <- Es. apply firstn_minus_app.
Qed.

Lemma search_fence (mid : str) :
  Forall (fun c => c <> backtick) mid ->
  let s := lbrace :: mid ++ [rbrace] in
  search fenced_json_re (fence s) = Some (MatchObject (fence s) s).
Proof.
  intros Hmid s. pose proof (match_at_fence Hmid) as H. cbv zeta in H.
  fold s in H. unfold fence in *.
  change (py "```json") with [backtick; backtick; backtick; 106; 115; 111; 110]%N
    in *.
  cbn [app search] in *. rewrite H. reflexivity.
Qed.

(** ** What a match hands to the rest of the pattern *)

Section Reaches.
Variable A : Type.
Implicit Types (k : cont A) (s : str) (g : option str) (x : A).

Lemma reaches_one (p : char -> bool) b k s g x :
  one p k s g = Some x -> reaches b k s g x.
Proof.
  unfold one. destruct s as [|c s]; [discriminate|].
  destruct (p c); [|discriminate]. intros H.
  exists s, g. cbn [length]. auto.
Qed.

Lemma orelse_some (a b : option A) x :
  orelse a b = Some x -> a = Some x \/ b = Some x.
Proof. destruct a; cbn [orelse]; auto. Qed.

Lemma reaches_greedy (body : cont A -> cont A) b k x :
  (forall k' s g, body k' s g = Some x -> reaches b k' s g x) ->
  forall n s g, greedy_loop body k n s g = Some x -> reaches b k s g x.
Proof.
  intros Hbody. induction n as [|n IH]; intros s g H; cbn [greedy_loop] in H.
  - exists s, g. auto.
  - destruct (orelse_some _ _ H) as [H1|H1].
    + destruct (Hbody _ _ _ H1) as (s1 & g1 & Hk & Hlen & Hg).
      unfold progress in Hk. destruct (length s1 <? length s); [|discriminate].
      destruct (IH _ _ Hk) as (s2 & g2 & Hk2 & Hlen2 & Hg2).
      exists s2, g2. repeat split; [assumption|lia|].
      intros E. rewrite Hg2, Hg by assumption. reflexivity.
    + exists s, g. auto.
Qed.

Lemma reaches_lazy (body : cont A -> cont A) b k x :
  (forall k' s g, body k' s g = Some x -> reaches b k' s g x) ->
  forall n s g, lazy_loop body k n s g = Some x -> reaches b k s g x.
Proof.
  intros Hbody. induction n as [|n IH]; intros s g H; cbn [lazy_loop] in H.
  - exists s, g. auto.
  - destruct (orelse_some _ _ H) as [H1|H1].
    + exists s, g. auto.
    + destruct (Hbody _ _ _ H1) as (s1 & g1 & Hk & Hlen & Hg).
      unfold progress in Hk. destruct (length s1 <? length s); [|discriminate].
      destruct (IH _ _ Hk) as (s2 & g2 & Hk2 & Hlen2 & Hg2).
      exists s2, g2. repeat split; [assumption|lia|].
      intros E. rewrite Hg2, Hg by assumption. reflexivity.
Qed.

Lemma rmatch_reaches (r : regex) : forall k s g x,
  rmatch r k s g = Some x -> reaches (has_group r) k s g x.
Proof.
  induction r as [| c | | | cs | r1 IH1 r2 IH2 | r1 IH1 | r1 IH1 | r1 IH1];
    intros k s g x H; cbn [rmatch has_group] in *;
    try (eapply reaches_one; eassumption).
  - exists s, g. auto.
  - destruct (IH1 _ _ _ _ H) as (s1 & g1 & H1 & Hlen1 & Hg1).
    destruct (IH2 _ _ _ _ H1) as (s2 & g2 & H2 & Hlen2 & Hg2).
    exists s2, g2. repeat split; [assumption|lia|].
    intros E. apply orb_false_iff in E. destruct E.
    rewrite Hg2, Hg1 by assumption. reflexivity.
  - eapply reaches_greedy; [|eassumption]. intros; auto.
  - eapply reaches_lazy; [|eassumption]. intros; auto.
  - destruct (IH1 _ _ _ _ H) as (s1 & g1 & H1 & Hlen1 & _).
    exists s1, (Some (firstn (length s - length s1) s)).
    repeat split; [assumption|assumption|discriminate].
Qed.

End Reaches.

Lemma firstn_head (c : char) (s s' : str) :
  length s' <= length s ->
  firstn (S (length s) - length s') (c :: s)
  = c :: firstn (length s - length s') s.
Proof.
  intros H. rewrite Nat.sub_succ_l by assumption. reflexivity.
Qed.

(** A group that starts with a literal character captures text that
    starts with it. *)
Lemma group_head (A : Type) (c : char) (r : regex) (k : cont A) (s : str)
    (g : option str) (x : A) :
  rmatch (Group (Cat (Chr c) r)) k s g = Some x ->
  exists s' y, k s' (Some (c :: y)) = Some x.
Proof.
  cbn [rmatch]. unfold one at 1. destruct s as [|c' s1]; [discriminate|].
  destruct (N.eqb_spec c c') as [<-|]; [|discriminate]. intros H.
  destruct (rmatch_reaches _ _ _ _ H) as (s' & g' & Hk & Hlen & _).
  change (length (c :: s1)) with (S (length s1)) in Hk.
  rewrite firstn_head in Hk by assumption. eauto.
Qed.

Lemma search_match_at (r : regex) (s : str) (m : match_object) :
  search r s = Some m -> exists t, match_at r t = Some m.
Proof.
  induction s as [|c s IH]; cbn [search].
  - destruct (match_at r []) eqn:E; [|discriminate].
    intros H. injection H as <-. eauto.
  - destruct (match_at r (c :: s)) eqn:E; [|exact IH].
    intros H. injection H as <-. eauto.
Qed.

Lemma rmatch_cat (A : Type) (r1 r2 : regex) (k : cont A) (s : str)
    (g : option str) :
  rmatch (Cat r1 r2) k s g = rmatch r1 (rmatch r2 k) s g.
Proof. reflexivity. Qed.

Lemma fenced_group_head (s : str) (m : match_object) :
  search fenced_json_re s = Some m -> exists y, group1 m = lbrace :: y.
Proof.
  intros H. apply search_match_at in H. destruct H as [t H].
  unfold match_at, fenced_json_re in H. rewrite rmatch_cat in H.
  destruct (rmatch_reaches _ _ _ _ H) as (s1 & g1 & H1 & _).
  rewrite rmatch_cat in H1.
  destruct (rmatch_reaches _ _ _ _ H1) as (s2 & g2 & H2 & _).
  rewrite rmatch_cat in H2.
  destruct (group_head _ _ _ _ _ H2) as (s3 & y & H3).
  destruct (rmatch_reaches _ _ _ _ H3) as (s4 & g4 & H4 & _ & Hg).
  rewrite (Hg eq_refl) in H4. injection H4 as <-. exists y. reflexivity.
Qed.

Lemma shallow_group_head (s : str) (m : match_object) :
  search shallow_object_re s = Some m -> exists y, group1 m = lbrace :: y.
Proof.
  intros H. apply search_match_at in H. destruct H as [t H].
  unfold match_at, shallow_object_re in H.
  destruct (group_head _ _ _ _ _ H) as (s' & y & H1).
  injection H1 as <-. exists y. reflexivity.
Qed.

Lemma braces_group_head (s : str) (m : match_object) :
  search braces_re s = Some m -> exists y, group0 m = lbrace :: y.
Proof.
  intros H. apply search_match_at in H. destruct H as [t H].
  unfold match_at, braces_re in H. rewrite rmatch_cat in H.
  destruct t as [|c t1]; [discriminate|].
  change (rmatch (Chr lbrace) ?k (c :: t1) None)
    with (if N.eqb lbrace c then k t1 None else None) in H.
  destruct (N.eqb_spec lbrace c) as [<-|]; [|discriminate].
  destruct (rmatch_reaches _ _ _ _ H) as (s1 & g1 & H1 & Hlen & _).
  change (length (lbrace :: t1)) with (S (length t1)) in H1.
  rewrite firstn_head in H1 by assumption.
  injection H1 as <-. eexists. reflexivity.
Qed.

(** ** The brace pattern on text with a brace-delimited span *)

Lemma orelse_not_none (A : Type) (a b : option A) :
  a <> None \/ b <> None -> orelse a b <> None.
Proof. destruct a; cbn [orelse]; intros [H|H]; congruence. Qed.

(** A greedy [.*] before a closing brace finds one if there is any. *)
Lemma greedy_dot_finds (A : Type) (k : cont A) (c : str) :
  (forall s g, k s g <> None) ->
  forall b n g,
    length (b ++ rbrace :: c) <= n ->
    greedy_loop (rmatch Dot) (rmatch (Chr rbrace) k) n (b ++ rbrace :: c) g
    <> None.
Proof.
  intros Hk. induction b as [|x b IH]; intros n g Hn;
    (destruct n as [|n]; [cbn in Hn; lia|]); cbn [app greedy_loop].
  - apply orelse_not_none. right. cbn [rmatch]. unfold one.
    rewrite N.eqb_refl. apply Hk.
  - apply orelse_not_none. left. cbn [rmatch]. unfold one at 1.
    rewrite progress_tail. apply IH. cbn [length app] in Hn. lia.
Qed.

Lemma search_suffix (r : regex) (t1 t2 : str) :
  match_at r t2 <> None -> search r (t1 ++ t2) <> None.
Proof.
  intros H. induction t1 as [|c t1 IH]; cbn [app].
  - destruct t2; cbn [search]; destruct (match_at r _); congruence.
  - cbn [search]. destruct (match_at r (c :: t1 ++ t2)); [discriminate|exact IH].
Qed.

Lemma braces_re_finds (s : str) :
  has_object_span s -> search braces_re s <> None.
Proof.
  intros (a & b & c & ->). apply search_suffix.
  unfold match_at, braces_re. rewrite rmatch_cat.
  change (rmatch (Chr lbrace) ?k (lbrace :: ?t) None) with (k t None).
  rewrite rmatch_cat.
  change (rmatch (Star Dot) ?k ?t None)
    with (greedy_loop (rmatch Dot) k (length t) t None).
  apply greedy_dot_finds; [discriminate|lia].
Qed.

(** ** The cleanup *)

Lemma strip_braces (mid : str) :
  strip (lbrace :: mid ++ [rbrace]) = lbrace :: mid ++ [rbrace].
Proof.
  unfold strip, rstrip. cbn [lstrip]. change (is_space lbrace) with false.
  cbv iota. change (lbrace :: mid ++ [rbrace]) with ((lbrace :: mid) ++ [rbrace]).
  rewrite rev_unit. cbn [lstrip]. change (is_space rbrace) with false.
  cbv iota. rewrite <- (rev_unit (lbrace :: mid) rbrace). apply rev_involutive.
Qed.

Lemma tidy_app (a b : str) : tidy a = true -> tidy b = true -> tidy (a ++ b) = true.
Proof.
  intros Ha Hb. induction a as [|c a IH]; [exact Hb|].
  cbn [tidy app] in *. apply andb_true_iff in Ha. destruct Ha as [Hc Ha].
  rewrite (IH Ha), andb_true_r.
  destruct a; [|exact Hc].
  destruct (c =? backslash)%N; [|exact Hc].
  rewrite andb_false_r in Hc. discriminate Hc.
Qed.

Lemma tidy_no_backtick (s : str) :
  tidy s = true -> Forall (fun c => c <> backtick) s.
Proof.
  induction s as [|c s IH]; intros H; constructor;
    cbn [tidy] in H; apply andb_true_iff in H; destruct H as [H Hs];
    apply andb_true_iff in H; destruct H as [Hc _].
  - apply negb_true_iff, N.eqb_neq in Hc. exact Hc.
  - apply IH. exact Hs.
Qed.

(** Replacing a rewritten escape sequence changes nothing in tidy text. *)
Lemma replace_tidy (e : char) (new s : str) :
  rewritten e = true -> tidy s = true -> replace [backslash; e] new s = s.
Proof.
  intros He. unfold replace. induction s as [|c s IH]; intros Hs; [reflexivity|].
  cbn [tidy] in Hs. apply andb_true_iff in Hs. destruct Hs as [Hs Htl].
  apply andb_true_iff in Hs. destruct Hs as [_ Hc].
  cbn [replace_go]. unfold starts_with. cbn [strip_prefix].
  destruct (N.eqb_spec backslash c) as [<-|Hne].
  - rewrite N.eqb_refl in Hc. destruct s as [|e' s]; [discriminate Hc|].
    destruct (N.eqb_spec e e') as [<-|_].
    + rewrite He in Hc. discriminate Hc.
    + rewrite IH by assumption. reflexivity.
  - rewrite IH by assumption. reflexivity.
Qed.

Lemma unescape_all_tidy (s : str) : tidy s = true -> unescape_all s = s.
Proof.
  intros H. unfold unescape_all. cbv zeta.
  rewrite (@replace_tidy (ch "n") [LF] s eq_refl H).
  rewrite (@replace_tidy (ch "t") [TAB] s eq_refl H).
  rewrite (@replace_tidy dquote [dquote] s eq_refl H).
  rewrite (@replace_tidy backslash [backslash] s eq_refl H).
  apply (@replace_tidy apostrophe [apostrophe] s eq_refl H).
Qed.

Lemma kept_scalar (s : str) : forallb kept s = true -> forallb is_scalar s = true.
Proof.
  induction s as [|c s IH]; [reflexivity|]. cbn [forallb]. intros H.
  apply andb_true_iff in H. destruct H as [Hc Hs].
  unfold kept in Hc. apply andb_true_iff in Hc. destruct Hc as [Hc _].
  rewrite Hc, IH by assumption. reflexivity.
Qed.

Lemma plain_encodable (v : value) : plain v = true -> encodable v = true.
Proof.
  induction v as [| b | z | literal | s | l IH | d IH] using value_ind';
    cbn [plain encodable]; intros H; auto using kept_scalar.
  - induction l as [|x l IHl]; [reflexivity|].
    inversion IH; subst. cbn [forallb] in *.
    apply andb_true_iff in H. destruct H. apply andb_true_iff. auto.
  - apply andb_true_iff in H. destruct H as [Hk H]. rewrite Hk. cbn [andb].
    induction d as [|[k x] d IHd]; [reflexivity|].
    inversion IH; subst. cbn [forallb map fst distinct snd] in *.
    apply andb_true_iff in H. destruct H as [Hkx H].
    apply andb_true_iff in Hkx. destruct Hkx.
    apply andb_true_iff in Hk. destruct Hk.
    rewrite kept_scalar by assumption.
    apply andb_true_iff. split; [cbn [andb]|]; auto.
Qed.

Lemma hex_char_tidy (n : N) (s : str) :
  (n < 16)%N -> tidy (Json.hex_char n :: s) = tidy s.
Proof.
  intros H. cbn [tidy]. unfold Json.hex_char, backtick, backslash.
  destruct (N.ltb_spec n 10); repeat case_N; cbn [negb andb]; try lia;
    reflexivity.
Qed.

Lemma tidy_u_escape (c : N) : tidy (Json.u_escape c) = true.
Proof.
  unfold Json.u_escape.
  change (tidy (backslash :: 117%N :: ?s)) with (tidy s).
  rewrite !hex_char_tidy by (apply N.mod_lt; discriminate). reflexivity.
Qed.

Lemma tidy_encode_char (c : char) : kept c = true -> tidy (Json.encode_char c) = true.
Proof.
  unfold kept. intros H. apply andb_true_iff in H. destruct H as [_ H].
  apply negb_true_iff in H.
  repeat (apply orb_false_iff in H; destruct H as [H ?]).
  repeat match goal with
         | E : (c =? _)%N = false |- _ => apply N.eqb_neq in E
         end.
  unfold Json.encode_char.
  repeat case_N; cbn [andb]; try lia; subst;
    try reflexivity; auto using tidy_u_escape, tidy_app.
  all: cbn [tidy]; unfold backtick, backslash;
    repeat case_N; cbn [negb andb]; try lia; reflexivity.
Qed.

Lemma tidy_encode_string (s : str) :
  forallb kept s = true -> tidy (Json.encode_string s) = true.
Proof.
  intros H. unfold Json.encode_string.
  change (dquote :: ?x) with ([dquote] ++ x).
  apply tidy_app; [reflexivity|]. apply tidy_app; [|reflexivity].
  induction s as [|c s IH]; [reflexivity|].
  cbn [forallb flat_map] in *. apply andb_true_iff in H. destruct H.
  apply tidy_app; auto using tidy_encode_char.
Qed.

Lemma tidy_uint_chars (d : Decimal.uint) : tidy (Json.uint_chars d) = true.
Proof. induction d; cbn [Json.uint_chars]; [reflexivity|exact IHd..]. Qed.

Lemma tidy_int_repr (z : Z) : tidy (Json.int_repr z) = true.
Proof.
  unfold Json.int_repr. destruct (Z.to_int z); [apply tidy_uint_chars|].
  change (tidy (Json.minus :: ?s)) with (tidy s). apply tidy_uint_chars.
Qed.

Lemma tidy_join (sep : str) (parts : list str) :
  tidy sep = true -> Forall (fun p => tidy p = true) parts ->
  tidy (Json.join sep parts) = true.
Proof.
  intros Hsep H. induction H as [|p parts Hp Hparts IH]; [reflexivity|].
  destruct parts as [|q parts]; [exact Hp|].
  rewrite join_cons2. auto using tidy_app.
Qed.

Lemma tidy_dumps (v : value) : plain v = true -> tidy (Json.dumps v) = true.
Proof.
  induction v as [| b | z | literal | s | l IH | d IH] using value_ind';
    cbn [plain Json.dumps]; intros H.
  - reflexivity.
  - destruct b; reflexivity.
  - apply tidy_int_repr.
  - discriminate H.
  - apply tidy_encode_string. assumption.
  - change (Json.lbracket :: ?x) with ([Json.lbracket] ++ x).
    apply tidy_app; [reflexivity|]. apply tidy_app; [|reflexivity].
    apply tidy_join; [reflexivity|].
    induction l as [|x l IHl]; [constructor|].
    inversion IH; subst. cbn [forallb map] in *.
    apply andb_true_iff in H. destruct H. constructor; auto.
  - apply andb_true_iff in H. destruct H as [_ H].
    change (lbrace :: ?x) with ([lbrace] ++ x).
    apply tidy_app; [reflexivity|]. apply tidy_app; [|reflexivity].
    apply tidy_join; [reflexivity|].
    induction d as [|[k x] d IHd]; [constructor|].
    inversion IH; subst. cbn [forallb map snd] in *.
    apply andb_true_iff in H. destruct H as [Hkx H].
    apply andb_true_iff in Hkx. destruct Hkx.
    constructor; auto.
    apply tidy_app; [apply tidy_encode_string; assumption|].
    apply tidy_app; [reflexivity|]. auto.
Qed.

(** [clean_text] takes the serialized object out of its fence unchanged. *)
Lemma clean_text_fence (d : dict) :
  plain (VDict d) = true ->
  clean_text (fence (Json.dumps (VDict d))) = Json.dumps (VDict d).
Proof.
  intros H. pose proof (tidy_dumps _ H) as Htidy.
  cbn [Json.dumps] in *.
  set (mid := Json.join _ _) in *.
  assert (Hmid : Forall (fun c => c <> backtick) mid).
  { apply tidy_no_backtick in Htidy. inversion Htidy as [|? ? _ Hrest]; subst.
    apply Forall_app in Hrest. apply Hrest. }
  pose proof (search_fence Hmid) as Hsearch. cbv zeta in Hsearch.
  unfold clean_text.
  destruct (fence (lbrace :: mid ++ [rbrace])) eqn:E; [discriminate E|].
  rewrite Hsearch. cbn [group1].
  rewrite strip_braces. apply unescape_all_tidy. exact Htidy.
Qed.

(** Deleting text without braces keeps the braces, in their order. *)
Lemma strip_prefix_app (p s r : str) : strip_prefix p s = Some r -> s = p ++ r.
Proof.
  revert s. induction p as [|x p IH]; intros s; cbn [strip_prefix app].
  - congruence.
  - destruct s as [|y s]; [discriminate|].
    destruct (N.eqb_spec x y) as [->|]; [|discriminate].
    intros H. rewrite (IH _ H). reflexivity.
Qed.

Lemma delete_keeps_braces (x : char) (old : str) :
  forallb (fun c => negb (is_brace c)) (x :: old) = true ->
  forall s skip,
    forallb (fun c => negb (is_brace c)) (firstn skip s) = true ->
    filter is_brace (replace_go (x :: old) [] skip s) = filter is_brace s.
Proof.
  intros Hold. cbn [forallb] in Hold. apply andb_true_iff in Hold.
  destruct Hold as [Hx Hold]. apply negb_true_iff in Hx.
  induction s as [|c s IH]; intros skip Hskip; [reflexivity|].
  cbn [replace_go]. destruct skip as [|skip].
  - unfold starts_with. destruct (strip_prefix (x :: old) (c :: s)) as [r|] eqn:E.
    + apply strip_prefix_app in E. cbn [app] in E. injection E as <- E.
      change (length (c :: old) - 1) with (length old - 0).
      rewrite Nat.sub_0_r. cbn [app filter]. rewrite Hx. apply IH. rewrite E, firstn_app, Nat.sub_diag, firstn_all.
      cbn [firstn]. rewrite app_nil_r. exact Hold.
    + cbn [filter]. rewrite (IH 0 eq_refl). reflexivity.
  - cbn [firstn forallb] in Hskip. apply andb_true_iff in Hskip.
    destruct Hskip as [Hc Hskip]. apply negb_true_iff in Hc.
    cbn [filter]. rewrite Hc. apply IH. exact Hskip.
Qed.

Lemma filter_split (p : char -> bool) (s l1 : str) (x : char) (l2 : str) :
  filter p s = l1 ++ x :: l2 ->
  exists s1 s2, s = s1 ++ x :: s2 /\ filter p s1 = l1 /\ filter p s2 = l2.
Proof.
  revert l1. induction s as [|c s IH]; intros l1 H; cbn [filter] in H.
  - destruct l1; discriminate H.
  - destruct (p c) eqn:Hc.
    + destruct l1 as [|y l1]; cbn [app] in H; injection H as -> H.
      * exists [], s. cbn [app filter]. auto.
      * destruct (IH _ H) as (s1 & s2 & -> & H1 & H2).
        exists (y :: s1), s2. cbn [app filter]. rewrite Hc, H1. auto.
    + destruct (IH _ H) as (s1 & s2 & -> & H1 & H2).
      exists (c :: s1), s2. cbn [app filter]. rewrite Hc. auto.
Qed.

Lemma span_of_braces (s : str) :
  has_object_span (filter is_brace s) -> has_object_span s.
Proof.
  intros (a & b & c & H).
  destruct (filter_split _ _ _ _ _ H) as (s1 & s2 & -> & _ & H2).
  destruct (filter_split _ _ _ _ _ H2) as (s3 & s4 & -> & _ & _).
  exists s1, s3, s4. reflexivity.
Qed.

Lemma braces_of_span (s : str) :
  has_object_span s -> has_object_span (filter is_brace s).
Proof.
  intros (a & b & c & ->).
  exists (filter is_brace a), (filter is_brace b), (filter is_brace c).
  rewrite filter_app. cbn [filter]. change (is_brace lbrace) with true.
  cbv iota. rewrite filter_app. reflexivity.
Qed.

Lemma delete_keeps_span (x : char) (old s : str) :
  forallb (fun c => negb (is_brace c)) (x :: old) = true ->
  has_object_span s -> has_object_span (replace (x :: old) [] s).
Proof.
  intros Hold H. apply span_of_braces. unfold replace.
  rewrite (delete_keeps_braces x old Hold s 0 eq_refl).
  apply braces_of_span. exact H.
Qed.

(** What [strip] and the replacements keep at the head of the text. *)
Lemma lstrip_last (y : str) (c : char) :
  is_space c = false -> exists y', lstrip (y ++ [c]) = y' ++ [c].
Proof.
  intros Hc. induction y as [|x y IH]; cbn [app lstrip].
  - rewrite Hc. exists []. reflexivity.
  - destruct (is_space x); [exact IH|]. exists (x :: y). reflexivity.
Qed.

Lemma strip_head (c : char) (y : str) :
  is_space c = false -> exists y', strip (c :: y) = c :: y'.
Proof.
  intros Hc. unfold strip, rstrip. cbn [lstrip]. rewrite Hc. cbn [rev].
  destruct (lstrip_last (rev y) c Hc) as [y' ->].
  rewrite rev_unit. eauto.
Qed.

Lemma replace_head (old new : str) (c : char) (y : str) :
  starts_with old (c :: y) = false ->
  replace old new (c :: y) = c :: replace old new y.
Proof. intros H. unfold replace. cbn [replace_go]. rewrite H. reflexivity. Qed.

Lemma unescape_all_head (y : str) :
  exists y', unescape_all (lbrace :: y) = lbrace :: y'.
Proof. unfold unescape_all. rewrite !replace_head by reflexivity. eauto. Qed.

Lemma unescape_extracted_head (y : str) :
  exists y', unescape_extracted (lbrace :: y) = lbrace :: y'.
Proof. unfold unescape_extracted. rewrite !replace_head by reflexivity. eauto. Qed.

Lemma clean_text_object (text : str) :
  has_object_span text -> exists y, clean_text text = lbrace :: y.
Proof.
  intros Hspan. unfold clean_text.
  destruct text as [|c text]; [destruct Hspan as ([|] & ? & ? & H); discriminate H|].
  assert (Hclean : forall y, exists y', unescape_all (strip (lbrace :: y)) = lbrace :: y').
  { intros y. destruct (strip_head lbrace y eq_refl) as [y1 ->].
    apply unescape_all_head. }
  destruct (search fenced_json_re (c :: text)) as [m|] eqn:Efenced.
  - destruct (fenced_group_head _ Efenced) as [y ->]. apply Hclean.
  - set (unfenced := replace (py "```") [] (replace (py "```json") [] (c :: text))).
    assert (Hunfenced : has_object_span unfenced).
    { subst unfenced.
      change (py "```") with [backtick; backtick; backtick].
      change (py "```json")
        with [backtick; backtick; backtick; 106; 115; 111; 110]%N.
      apply delete_keeps_span; [reflexivity|].
      apply delete_keeps_span; [reflexivity|]. exact Hspan. }
    pose proof (braces_re_finds Hunfenced) as Hfound.
    destruct (search braces_re unfenced) as [m|] eqn:Ebraces; [|congruence].
    destruct (braces_group_head _ Ebraces) as [y ->]. apply Hclean.
Qed.

(** ** The parse chain *)

(** The recovery chain gets a plain object back from its fenced text. *)
Lemma parsed_fence (d : dict) :
  plain (VDict d) = true ->
  parsed (fence (Json.dumps (VDict d))) = VDict d.
Proof.
  intros H. unfold parsed.
  rewrite (clean_text_fence d H), (loads_dumps _ (plain_encodable _ H)).
  reflexivity.
Qed.

Lemma reextract_dict (r : regex) (text_output : str) (v : value) :
  (forall m, search r text_output = Some m -> exists y, group1 m = lbrace :: y) ->
  reextract r text_output = Some v -> exists d, v = VDict d.
Proof.
  intros Hhead. unfold reextract.
  destruct (search r text_output) as [m|]; [|discriminate].
  destruct (Hhead m eq_refl) as [y ->].
  destruct (unescape_extracted_head y) as [y' ->].
  apply loads_object.
Qed.

(** An answer that holds an opening brace and, later, a closing brace is
    recovered as a dictionary: the cleaned text starts with a brace, and
    so does the group of either extraction. *)
Theorem parsed_dict (text_output : str) :
  has_object_span text_output -> exists d, parsed text_output = VDict d.
Proof.
  intros Hspan. unfold parsed.
  destruct (clean_text_object Hspan) as [y ->].
  destruct (Json.loads (lbrace :: y)) as [v|] eqn:E1.
  { exact (loads_object _ E1). }
  destruct (reextract fenced_json_re text_output) as [v|] eqn:E2.
  { exact (reextract_dict _ _ (@fenced_group_head text_output) E2). }
  destruct (reextract shallow_object_re text_output) as [v|] eqn:E3.
  { exact (reextract_dict _ _ (@shallow_group_head text_output) E3). }
  unfold failed_to_parse. eauto.
Qed.

(** ** What is written *)

Lemma files_written_app (t1 t2 : list event) :
  files_written (t1 ++ t2) = files_written t1 ++ files_written t2.
Proof.
  induction t1 as [|e t1 IH]; [reflexivity|].
  destruct e; cbn [app files_written]; rewrite IH; reflexivity.
Qed.

Lemma quiet_writes_nothing (t : list event) :
  Forall quiet t -> files_written t = [].
Proof.
  induction 1 as [|e t He _ IH]; [reflexivity|].
  destruct e; cbn [quiet] in He; try contradiction; exact IH.
Qed.

Lemma ask_quiet (oracle : prompt -> str) (p : prompt) :
  Forall quiet (snd (ask oracle p)).
Proof. rewrite ask_eq. repeat constructor. Qed.

Lemma process_user_input_quiet (oracle : prompt -> str) (user_input : str) :
  Forall quiet (snd (process_user_input oracle user_input)).
Proof.
  workflow. unfold parse_log.
  repeat split_test; repeat constructor.
Qed.

Lemma display_writes_nothing (result : dict) :
  files_written (snd (display result)) = [].
Proof.
  unfold display, keys_of.
  repeat match goal with
         | |- context [if ?b then _ else _] => destruct b
         | |- context [match dict_get ?d ?k ?v with _ => _ end] =>
             destruct (dict_get d k v)
         end; reflexivity.
Qed.

Lemma prints_write_nothing (A : Type) (l : list A) :
  files_written (map (fun _ => Print) l) = [].
Proof. induction l as [|x l IH]; [reflexivity|exact IH]. Qed.

Section LoopWrites.
Variable oracle : prompt -> str.

Lemma loop_writes_result_files (n : nat) : forall stdin results test_count,
  length stdin <= n ->
  Forall result_file (files_written (fst (loop oracle stdin results test_count))).
Proof.
  induction n as [|n IH]; intros stdin results test_count Hn.
  - destruct stdin; [|cbn in Hn; lia]. constructor.
  - destruct stdin as [|line stdin1]; [constructor|].
    cbn [length] in Hn. cbn [loop].
    destruct (str_in _ _); [constructor|].
    destruct (strip line) as [|c user_input] eqn:Einput.
    + specialize (IH stdin1 results test_count ltac:(lia)).
      destruct (loop oracle stdin1 results test_count). exact IH.
    + pose proof (process_user_input_quiet oracle (c :: user_input)) as Hq.
      apply quiet_writes_nothing in Hq.
      destruct (process_user_input oracle (c :: user_input)) as [[result|e] t1].
      * cbn [bind emit snd fst app] in *.
        pose proof (display_writes_nothing result) as Hd.
        destruct (display result) as [[u|e] t2]; cbn [snd] in Hd.
        -- destruct stdin1 as [|choice stdin2].
           ++ cbn [files_written fst].
              rewrite !files_written_app, Hq, Hd. constructor.
           ++ cbn [length] in Hn.
              match goal with
              | |- context [loop oracle stdin2 ?r ?tc] =>
                  specialize (IH stdin2 r tc ltac:(lia));
                  destruct (loop oracle stdin2 r tc) as [t r']
              end.
              cbn [files_written fst] in *.
              rewrite !files_written_app, Hq, Hd. cbn [app files_written].
              destruct (str_in _ _); cbn [app files_written]; [|exact IH].
              constructor; [|exact IH].
              right. eexists. reflexivity.
        -- match goal with
           | |- context [loop oracle stdin1 ?r ?tc] =>
               specialize (IH stdin1 r tc ltac:(lia));
               destruct (loop oracle stdin1 r tc) as [t r']
           end.
           cbn [files_written fst] in *.
           rewrite !files_written_app, Hq, Hd. exact IH.
      * cbn [bind emit snd fst app] in *.
        match goal with
        | |- context [loop oracle stdin1 ?r ?tc] =>
            specialize (IH stdin1 r tc ltac:(lia));
            destruct (loop oracle stdin1 r tc) as [t r']
        end.
        cbn [files_written fst] in *.
        rewrite !files_written_app, Hq. exact IH.
Qed.

Lemma main_writes_result_files (stdin : list str) :
  Forall result_file (files_written (main oracle stdin)).
Proof.
  unfold main.
  pose proof (loop_writes_result_files (n:=length stdin) stdin [] 0 (le_n _)) as H.
  destruct (loop oracle stdin [] 0) as [t r]. cbn [fst] in H.
  cbn [app files_written]. rewrite files_written_app.
  apply Forall_app. split; [exact H|].
  destruct r as [[|x results]|]; cbn [files_written].
  - constructor.
  - rewrite prints_write_nothing. repeat constructor.
  - constructor.
Qed.
End LoopWrites.

(** * The claims *)

(** ** C1: a fenced object through the recovery chain *)




(** ** C2: the calls of the workflow *)

(** C2, counterexample: the classification is "Feature Description", the
    analysis fails, and the model is called twice, not three times. *)
Lemma C2_counterexample_analysis_fails :
  ~ two_calls_exactly_when_feature analysis_fails hello.
Proof.
  intros [_ H].
  specialize (H [(py "classification", Feature_Description)] eq_refl).
  destruct H as [[H _] _].
  destruct (H eq_refl) as [r2 [_ Hcalls]].
  vm_compute in Hcalls. discriminate Hcalls.
Qed.

(** C2, amended: classification comes first.  When its result is a
    dictionary without "error" and the classification value is "Feature
    Description", [analyze_feature] is called on the user input, and
    [generate_tech_layer] on the analysis exactly when the analysis does
    not contain "error".  Every other classification result leaves the
    classification as the only call, and "General Conversation" returns
    the classification result. *)
Theorem C2_calls_in_order (oracle : prompt -> str) (user_input : str) :
  let run := process_user_input oracle user_input in
  let classify := ClassifyPrompt user_input in
  let analyze := AnalyzePrompt (VStr user_input) in
  hd_error (llm_calls (snd run)) = Some classify
  /\
  (forall r1,
      fst (classify_input oracle user_input) = Return r1 ->
      py_in (py "error") r1 <> Return false ->
      llm_calls (snd run) = [classify])
  /\
  (forall r1,
      fst (classify_input oracle user_input) = Return (VDict r1) ->
      dict_has r1 (py "error") = false ->
      let classification := dict_get r1 (py "classification") (VStr []) in
      (classification = Feature_Description ->
       forall r2,
         fst (analyze_feature oracle [(py "description", VStr user_input)]) = Return r2 ->
         (py_in (py "error") r2 = Return false ->
          llm_calls (snd run) = [classify; analyze; TechLayerPrompt r2 user_prompt])
         /\
         (py_in (py "error") r2 <> Return false ->
          llm_calls (snd run) = [classify; analyze]))
      /\
      (classification <> Feature_Description ->
       llm_calls (snd run) = [classify])
      /\
      (classification = General_Conversation ->
       fst run = Return [(py "workflow", VStr (py "general_conversation"));
                         (py "classification", classification);
                         (py "result", VDict r1)])).
Proof.
  intros run classify analyze. subst run classify analyze.
  split; [|split].
  - workflow. repeat split_test; reflexivity.
  - intros r1. rewrite classify_input_eq. cbn [fst]. intros E Herr.
    injection E as E. workflow. rewrite E.
    destruct (py_in (py "error") r1) as [[|]|]; try congruence; reflexivity.
  - intros r1. rewrite classify_input_eq. cbn [fst]. intros E Hok.
    injection E as E.
    set (c := dict_get r1 (py "classification") (VStr [])).
    split; [|split].
    + intros Hc r2. rewrite analyze_feature_eq. keys. cbn [fst].
      intros E2. injection E2 as E2.
      assert (Hrun : llm_calls (snd (process_user_input oracle user_input)) =
                     match py_in (py "error") r2 with
                     | Return false =>
                         [ClassifyPrompt user_input; AnalyzePrompt (VStr user_input);
                          TechLayerPrompt r2 user_prompt]
                     | _ => [ClassifyPrompt user_input; AnalyzePrompt (VStr user_input)]
                     end).
      { workflow. rewrite E. cbn [py_in py_get]. rewrite Hok. fold c. rewrite Hc.
        run_step.
        change (is_str (py "General Conversation") Feature_Description) with false.
        change (is_str (py "Feature Description") Feature_Description) with true.
        workflow. keys. rewrite E2.
        destruct (py_in (py "error") r2) as [[|]|]; run_step; try reflexivity.
        destruct (py_in (py "error") _) as [[|]|]; reflexivity. }
      rewrite Hrun. split.
      * intros ->. reflexivity.
      * intros Hne. destruct (py_in (py "error") r2) as [[|]|]; congruence.
    + intros Hc. apply is_str_false in Hc. workflow. rewrite E.
      cbn [py_in py_get]. rewrite Hok. fold c. run_step. rewrite Hc.
      destruct (is_str (py "General Conversation") c); reflexivity.
    + intros Hc. workflow. rewrite E. cbn [py_in py_get]. rewrite Hok. fold c.
      rewrite Hc. reflexivity.
Qed.

Lemma C2_witness :
  llm_calls (snd (process_user_input empty_answers hello))
  = [ClassifyPrompt hello; AnalyzePrompt (VStr hello);
     TechLayerPrompt (VDict []) user_prompt]
  /\ llm_calls (snd (process_user_input analysis_fails hello))
     = [ClassifyPrompt hello; AnalyzePrompt (VStr hello)]
  /\ llm_calls (snd (process_user_input chats hello)) = [ClassifyPrompt hello].
Proof.
  split; [|split].
  - destruct (C2_calls_in_order empty_answers hello) as (_ & _ & H).
    assert (E1 : fst (classify_input empty_answers hello)
                 = Return (VDict feature_answer)) by (vm_compute; reflexivity).
    destruct (H feature_answer E1 eq_refl) as [H1 _].
    assert (E2 : fst (analyze_feature empty_answers [(py "description", VStr hello)])
                 = Return (VDict [])) by (vm_compute; reflexivity).
    apply (H1 eq_refl (VDict []) E2). reflexivity.
  - destruct (C2_calls_in_order analysis_fails hello) as (_ & _ & H).
    assert (E1 : fst (classify_input analysis_fails hello)
                 = Return (VDict feature_answer)) by (vm_compute; reflexivity).
    destruct (H feature_answer E1 eq_refl) as [H1 _].
    assert (E2 : fst (analyze_feature analysis_fails [(py "description", VStr hello)])
                 = Return (failed_to_parse (py "oops")))
      by (vm_compute; reflexivity).
    apply (H1 eq_refl _ E2). discriminate.
  - destruct (C2_calls_in_order chats hello) as (_ & _ & H).
    assert (E1 : fst (classify_input chats hello) = Return (VDict chat_answer))
      by (vm_compute; reflexivity).
    destruct (H chat_answer E1 eq_refl) as (_ & H2 & _).
    apply H2. discriminate.
Defined.

(** ** C3: the technical layer *)

(** C3, counterexample: the workflow completes with an empty
    "tech_layer_result". *)
Lemma C3_counterexample_no_chunks :
  ~ feature_workflow_yields_eight_chunks empty_answers hello.
Proof.
  unfold feature_workflow_yields_eight_chunks. intros H.
  destruct (process_user_input empty_answers hello) as [r t] eqn:E.
  vm_compute in E. injection E as <- <-.
  specialize (H _ _ eq_refl).
  destruct H as [v [Hv [d [Hd Hkeys]]]]; [vm_compute; reflexivity|].
  vm_compute in Hv. injection Hv as <-. injection Hd as <-.
  assert (Hin : In (py "chunk1") chunk_keys) by (left; reflexivity).
  apply Hkeys in Hin. discriminate Hin.
Qed.

(** C3, amended: the "tech_layer_result" of a completed feature workflow
    is what the recovery chain makes of the model's answer to the
    tech-layer prompt for the analysis, a value that does not contain
    "error"; its keys are whatever the model wrote. *)
Theorem C3_tech_layer_result_is_the_answer (oracle : prompt -> str)
    (user_input : str) (result : dict) (t : list event) :
  process_user_input oracle user_input = (Return result, t) ->
  dict_lookup result (py "workflow") = Some (VStr (py "feature_processing")) ->
  exists feature_analysis tech_layer_result,
    fst (analyze_feature oracle [(py "description", VStr user_input)])
      = Return feature_analysis
    /\ fst (generate_tech_layer oracle feature_analysis) = Return tech_layer_result
    /\ tech_layer_result =
       parsed (oracle (TechLayerPrompt feature_analysis user_prompt))
    /\ py_in (py "error") tech_layer_result = Return false
    /\ dict_lookup result (py "feature_analysis") = Some feature_analysis
    /\ dict_lookup result (py "tech_layer_result") = Some tech_layer_result.
Proof.
  workflow. keys.
  repeat split_test; intros H Hw; inversion H; subst; keys_in Hw;
    try discriminate Hw.
  all: exists (parsed (oracle (AnalyzePrompt (VStr user_input)))).
  all: eexists; rewrite generate_tech_layer_eq; keys.
  all: repeat split; try reflexivity; assumption.
Qed.

Lemma C3_witness :
  exists feature_analysis tech_layer_result,
    fst (analyze_feature empty_answers [(py "description", VStr hello)])
      = Return feature_analysis
    /\ fst (generate_tech_layer empty_answers feature_analysis)
       = Return tech_layer_result
    /\ tech_layer_result =
       parsed (empty_answers (TechLayerPrompt feature_analysis user_prompt))
    /\ py_in (py "error") tech_layer_result = Return false
    /\ dict_lookup completed_run (py "feature_analysis") = Some feature_analysis
    /\ dict_lookup completed_run (py "tech_layer_result") = Some tech_layer_result.
Proof.
  apply (@C3_tech_layer_result_is_the_answer empty_answers hello completed_run
           (snd (process_user_input empty_answers hello))).
  - vm_compute. reflexivity.
  - vm_compute. reflexivity.
Defined.

(** ** C4: the two categories *)

(** C4: a result of [process_user_input] without the "error" key carries
    the classification "General Conversation" or "Feature Description",
    and a classification result whose value is neither of them makes the
    result an error. *)
Theorem C4_two_categories (oracle : prompt -> str) (user_input : str) :
  (forall result t,
      process_user_input oracle user_input = (Return result, t) ->
      dict_has result (py "error") = false ->
      dict_lookup result (py "classification") = Some General_Conversation
      \/ dict_lookup result (py "classification") = Some Feature_Description)
  /\
  (forall classification_result,
      fst (classify_input oracle user_input) = Return (VDict classification_result) ->
      let classification :=
        dict_get classification_result (py "classification") (VStr []) in
      classification <> General_Conversation ->
      classification <> Feature_Description ->
      exists result,
        fst (process_user_input oracle user_input) = Return result
        /\ dict_has result (py "error") = true).
Proof.
  split.
  - workflow. intros result t.
    repeat split_test; intros H Herr; inversion H; subst; keys_in Herr;
      try discriminate Herr; keys;
      repeat match goal with
             | E : is_str _ _ = true |- _ => apply is_str_true in E; subst
             end; first [left; reflexivity | right; reflexivity].
  - intros d. rewrite classify_input_eq. cbn [fst]. intros Hd Hgc Hfd.
    injection Hd as Hd. apply is_str_false in Hgc, Hfd.
    workflow. rewrite Hd. cbn [py_in py_get].
    destruct (dict_has d (py "error")); run_step.
    + eexists. split; reflexivity.
    + unfold General_Conversation, Feature_Description in *.
      rewrite Hgc, Hfd. run_step.
      eexists. split; reflexivity.
Qed.

Lemma C4_witness :
  (dict_lookup chat_run (py "classification") = Some General_Conversation
   \/ dict_lookup chat_run (py "classification") = Some Feature_Description)
  /\ exists result,
       fst (process_user_input poet hello) = Return result
       /\ dict_has result (py "error") = true.
Proof.
  split.
  - apply (proj1 (C4_two_categories chats hello) chat_run
             (snd (process_user_input chats hello))).
    + vm_compute. reflexivity.
    + vm_compute. reflexivity.
  - apply (proj2 (C4_two_categories poet hello)
             [(py "classification", VStr (py "Poem"))]).
    + vm_compute. reflexivity.
    + discriminate.
    + discriminate.
Defined.

(** ** C5: errors end the workflow *)

(** C5: a stage whose result contains "error" ends the workflow: the
    result has the keys "error" and "details", the latter with the
    stage's result, and no later stage calls the model. *)
Theorem C5_error_short_circuits (oracle : prompt -> str) (user_input : str) :
  let run := process_user_input oracle user_input in
  let classify := ClassifyPrompt user_input in
  let analyze := AnalyzePrompt (VStr user_input) in
  (forall r1,
      fst (classify_input oracle user_input) = Return r1 ->
      py_in (py "error") r1 = Return true ->
      fst run = Return [(py "error", VStr (py "Classification failed"));
                        (py "details", r1)]
      /\ llm_calls (snd run) = [classify])
  /\
  (forall r1 r2,
      fst (classify_input oracle user_input) = Return r1 ->
      py_in (py "error") r1 = Return false ->
      py_get r1 (py "classification") (VStr []) = Return Feature_Description ->
      fst (analyze_feature oracle [(py "description", VStr user_input)]) = Return r2 ->
      (py_in (py "error") r2 = Return true ->
       fst run = Return [(py "error", VStr (py "Feature analysis failed"));
                         (py "details", r2)]
       /\ llm_calls (snd run) = [classify; analyze])
      /\
      (forall r3,
          py_in (py "error") r2 = Return false ->
          fst (generate_tech_layer oracle r2) = Return r3 ->
          py_in (py "error") r3 = Return true ->
          fst run = Return [(py "error", VStr (py "Tech layer failed"));
                            (py "details", r3)]
          /\ llm_calls (snd run) =
             [classify; analyze; TechLayerPrompt r2 user_prompt])).
Proof.
  intros run classify analyze. subst run classify analyze. split.
  - intros r1. rewrite classify_input_eq. cbn [fst]. intros E Herr.
    injection E as E. workflow. rewrite E, Herr.
    run_step.
    unfold parse_log. split; reflexivity.
  - intros r1 r2. rewrite classify_input_eq, analyze_feature_eq.
    cbn [fst dict_get dict_lookup]. intros E1 Hok Hc E2.
    injection E1 as E1. change (str_eqb (py "description") (py "description")) with true in E2.
    injection E2 as E2. split.
    + intros Herr. workflow. rewrite E1, Hok.
      run_step. rewrite Hc.
      run_step.
      change (is_str (py "General Conversation") Feature_Description) with false.
      change (is_str (py "Feature Description") Feature_Description) with true.
      workflow. cbn [dict_get dict_lookup].
      change (str_eqb (py "description") (py "description")) with true.
      cbv iota. rewrite E2, Herr.
      run_step.
      unfold parse_log. split; reflexivity.
    + intros r3 Hok2. rewrite generate_tech_layer_eq. cbn [fst].
      intros E3 Herr. injection E3 as E3. workflow. rewrite E1, Hok.
      run_step. rewrite Hc.
      run_step.
      change (is_str (py "General Conversation") Feature_Description) with false.
      change (is_str (py "Feature Description") Feature_Description) with true.
      workflow. cbn [dict_get dict_lookup].
      change (str_eqb (py "description") (py "description")) with true.
      cbv iota. rewrite E2, Hok2.
      run_step.
      rewrite E3, Herr.
      run_step.
      unfold parse_log. split; reflexivity.
Qed.

Lemma C5_witness :
  fst (process_user_input analysis_fails hello)
  = Return [(py "error", VStr (py "Feature analysis failed"));
            (py "details", failed_to_parse (py "oops"))]
  /\ llm_calls (snd (process_user_input analysis_fails hello))
     = [ClassifyPrompt hello; AnalyzePrompt (VStr hello)].
Proof.
  destruct (C5_error_short_circuits analysis_fails hello) as [_ H].
  refine (proj1 (H (VDict feature_answer) (failed_to_parse (py "oops"))
                   _ _ _ _) _).
  - vm_compute. reflexivity.
  - vm_compute. reflexivity.
  - vm_compute. reflexivity.
  - vm_compute. reflexivity.
  - vm_compute. reflexivity.
Defined.

(** ** C6: [clean_text], step by step *)


(** ** C7: what is written, and by whom *)


(** ** C8: what the stages return *)




(** The fields printed after the content hold braces. *)
Lemma says_123_span (p : prompt) : has_object_span (says_123 p).
Proof.
  exists (py "content='123' additional_kwargs="), [], (py " response_metadata={}").
  reflexivity.
Qed.




(** ** C9: the description read by the analysis *)

(** C9: [analyze_feature] reads only the "description" entry of its
    input: two inputs with the same description (the empty string when it
    is missing) give the same result and the same events. *)
Theorem C9_analyze_feature_reads_description (oracle : prompt -> str)
    (input1 input2 : dict) :
  dict_get input1 (py "description") (VStr []) =
  dict_get input2 (py "description") (VStr []) ->
  analyze_feature oracle input1 = analyze_feature oracle input2.
Proof.
  intros H. unfold analyze_feature. rewrite H. reflexivity.
Qed.

Lemma C9_witness :
  analyze_feature chats [] = analyze_feature chats [(py "description", VStr [])]
  /\ analyze_feature chats [(py "description", VStr hello); (py "lang", VStr (py "en"))]
     = analyze_feature chats [(py "description", VStr hello)].
Proof.
  split.
  - apply C9_analyze_feature_reads_description. reflexivity.
  - apply C9_analyze_feature_reads_description. reflexivity.
Defined.

(** ** C10: result or error *)

(** C10: the dictionary [process_user_input] returns has exactly one of the
    top-level keys "workflow" and "error". *)
Theorem C10_workflow_xor_error (oracle : prompt -> str) (user_input : str)
    (result : dict) (t : list event) :
  process_user_input oracle user_input = (Return result, t) ->
  dict_has result (py "workflow") = negb (dict_has result (py "error")).
Proof.
  workflow. repeat split_test; intros H; inversion H; subst; reflexivity.
Qed.

Lemma C10_witness :
  dict_has chat_run (py "workflow") = negb (dict_has chat_run (py "error")).
Proof.
  apply (@C10_workflow_xor_error chats hello chat_run
           (snd (process_user_input chats hello))).
  vm_compute. reflexivity.
Defined.

(** * Further properties *)

(** ** The matcher finds only what the pattern admits *)

Section Soundness.
Variable A : Type.
Implicit Types (k : cont A) (s w : str) (g : option str) (x : A).

Lemma sound_one (p : char -> bool) k s g x :
  one p k s g = Some x ->
  exists c s', s = c :: s' /\ p c = true /\ k s' g = Some x.
Proof.
  unfold one. destruct s as [|c s']; [discriminate|].
  destruct (p c) eqn:E; [|discriminate]. eauto.
Qed.

Lemma progress_some s k s' g x :
  progress s k s' g = Some x -> k s' g = Some x.
Proof. unfold progress. destruct (length s' <? length s); [auto|discriminate]. Qed.

Lemma rmatch_sound (r : regex) : forall k s g x,
  rmatch r k s g = Some x ->
  exists w s' g', s = w ++ s' /\ matches r w g g' /\ k s' g' = Some x.
Proof.
  induction r as [|c| | |cs|r1 IH1 r2 IH2|r1 IH1|r1 IH1|r1 IH1]; intros k s g x H.
  - exists [], s, g. repeat split; [constructor|exact H].
  - apply sound_one in H. destruct H as (c' & s' & -> & Hc & H).
    apply N.eqb_eq in Hc. subst c'. exists [c], s', g. repeat split; [constructor|exact H].
  - apply sound_one in H. destruct H as (c' & s' & -> & _ & H).
    exists [c'], s', g. repeat split; [constructor|exact H].
  - apply sound_one in H. destruct H as (c' & s' & -> & Hc & H).
    exists [c'], s', g. repeat split; [constructor; exact Hc|exact H].
  - apply sound_one in H. destruct H as (c' & s' & -> & Hc & H).
    exists [c'], s', g. repeat split; [|exact H].
    constructor. destruct (mem c' cs); [discriminate|reflexivity].
  - cbn [rmatch] in H. apply IH1 in H. destruct H as (w1 & s1 & g1 & -> & M1 & H).
    apply IH2 in H. destruct H as (w2 & s2 & g2 & -> & M2 & H).
    exists (w1 ++ w2), s2, g2. rewrite <- app_assoc. repeat split; [|exact H].
    econstructor; eassumption.
  - cbn [rmatch] in H. revert H. generalize (length s) as n. intros n. revert s g.
    induction n as [|n IHn]; intros s g H.
    + exists [], s, g. repeat split; [constructor|exact H].
    + cbn [greedy_loop] in H. apply orelse_some in H. destruct H as [H|H].
      * apply IH1 in H. destruct H as (w1 & s1 & g1 & -> & M1 & H).
        apply progress_some in H. apply IHn in H.
        destruct H as (w2 & s2 & g2 & -> & M2 & H).
        exists (w1 ++ w2), s2, g2. rewrite <- app_assoc. repeat split; [|exact H].
        econstructor; eassumption.
      * exists [], s, g. repeat split; [constructor|exact H].
  - cbn [rmatch] in H. revert H. generalize (length s) as n. intros n. revert s g.
    induction n as [|n IHn]; intros s g H.
    + exists [], s, g. repeat split; [constructor|exact H].
    + cbn [lazy_loop] in H. apply orelse_some in H. destruct H as [H|H].
      * exists [], s, g. repeat split; [constructor|exact H].
      * apply IH1 in H. destruct H as (w1 & s1 & g1 & -> & M1 & H).
        apply progress_some in H. apply IHn in H.
        destruct H as (w2 & s2 & g2 & -> & M2 & H).
        exists (w1 ++ w2), s2, g2. rewrite <- app_assoc. repeat split; [|exact H].
        econstructor; eassumption.
  - cbn [rmatch] in H. apply IH1 in H. destruct H as (w & s' & g' & -> & M & H).
    rewrite firstn_minus_app in H.
    exists w, s', (Some w). repeat split; [econstructor; exact M|exact H].
Qed.

End Soundness.

Lemma match_at_sound (r : regex) (s : str) (m : match_object) :
  match_at r s = Some m ->
  exists s' g', s = group0 m ++ s' /\ matches r (group0 m) None g'
                /\ group1 m = match g' with Some x => x | None => [] end.
Proof.
  unfold match_at. intros H. apply rmatch_sound in H.
  destruct H as (w & s' & g' & -> & M & H).
  rewrite firstn_minus_app in H. injection H as <-.
  exists s', g'. cbn. auto.
Qed.

Lemma search_sound (r : regex) (s : str) (m : match_object) :
  search r s = Some m ->
  exists a c g', s = a ++ group0 m ++ c /\ matches r (group0 m) None g'
                 /\ group1 m = match g' with Some x => x | None => [] end.
Proof.
  induction s as [|c0 s IH].
  - cbn [search]. destruct (match_at r []) eqn:E; [|discriminate].
    intros H. injection H as ->. apply match_at_sound in E.
    destruct E as (s' & g' & E & M & G). exists [], s', g'. auto.
  - cbn [search]. destruct (match_at r (c0 :: s)) eqn:E.
    + intros H. injection H as ->. apply match_at_sound in E.
      destruct E as (s' & g' & E & M & G). exists [], s', g'. auto.
    + intros H. apply IH in H. destruct H as (a & c & g' & -> & M & G).
      exists (c0 :: a), c, g'. auto.
Qed.

(** ** What the three patterns admit *)

Ltac inv H := inversion H; subst; clear H.

Lemma matches_eps (w : str) (g g' : option str) :
  matches Eps w g g' -> w = [] /\ g' = g.
Proof. intros H. inv H. auto. Qed.

Lemma matches_chr (c : char) (w : str) (g g' : option str) :
  matches (Chr c) w g g' -> w = [c] /\ g' = g.
Proof. intros H. inv H. auto. Qed.

Lemma matches_cat (r1 r2 : regex) (w : str) (g g' : option str) :
  matches (Cat r1 r2) w g g' ->
  exists w1 w2 g1, w = w1 ++ w2 /\ matches r1 w1 g g1 /\ matches r2 w2 g1 g'.
Proof. intros H. inv H. eauto 6. Qed.

Lemma matches_group (r : regex) (w : str) (g g' : option str) :
  matches (Group r) w g g' -> g' = Some w /\ exists g1, matches r w g g1.
Proof. intros H. inv H. eauto. Qed.

Lemma matches_lit (p w : str) (g g' : option str) :
  matches (lit p) w g g' -> w = p /\ g' = g.
Proof.
  revert w g. induction p as [|c p IH]; intros w g H.
  - apply matches_eps in H. exact H.
  - cbn [lit] in H. apply matches_cat in H.
    destruct H as (w1 & w2 & g1 & -> & H1 & H2).
    apply matches_chr in H1. destruct H1 as [-> ->].
    apply IH in H2. destruct H2 as [-> ->]. auto.
Qed.

(** A star of a pattern that reads one character of a class and leaves
    the capture alone reads characters of the class. *)
Lemma matches_star_class (r : regex) (p : char -> Prop) :
  (forall w g g', matches r w g g' -> exists c, w = [c] /\ p c /\ g' = g) ->
  forall w g g', matches (Star r) w g g' -> Forall p w /\ g' = g.
Proof.
  intros Hr w g g' H. remember (Star r) as r' eqn:E.
  induction H; try discriminate E.
  - split; [constructor|reflexivity].
  - injection E as ->.
    destruct (Hr _ _ _ H) as (c & -> & Hc & ->).
    destruct (IHmatches2 eq_refl) as [Hw ->].
    split; [constructor; assumption|reflexivity].
Qed.

Lemma matches_star_space (w : str) (g g' : option str) :
  matches (Star Space) w g g' -> blank w /\ g' = g.
Proof.
  apply matches_star_class. intros w0 g0 g0' H. inv H. eauto.
Qed.

Lemma mem_no_brace (c : char) :
  mem c [lbrace; rbrace] = false -> c <> lbrace /\ c <> rbrace.
Proof.
  unfold mem. cbn [existsb]. intros H.
  apply orb_false_iff in H. destruct H as [H1 H].
  apply orb_false_iff in H. destruct H as [H2 _].
  apply N.eqb_neq in H1, H2. auto.
Qed.

Lemma matches_star_no_brace (w : str) (g g' : option str) :
  matches (Star no_brace) w g g' -> flat w /\ g' = g.
Proof.
  intros H.
  apply (@matches_star_class no_brace (fun c => c <> lbrace /\ c <> rbrace)) in H.
  - destruct H as [H ->]. split; [|reflexivity].
    split; eapply Forall_impl; try exact H; cbn; tauto.
  - intros w0 g0 g0' M. inv M. eexists. split; [reflexivity|].
    split; [apply mem_no_brace; assumption|reflexivity].
Qed.

Lemma matches_lazy_dot (w : str) (g g' : option str) :
  matches (StarLazy Dot) w g g' -> g' = g.
Proof.
  intros H. remember (StarLazy Dot) as r eqn:E.
  induction H; try discriminate E; [reflexivity|].
  injection E as ->. inv H. auto.
Qed.

Lemma matches_star_dot (w : str) (g g' : option str) :
  matches (Star Dot) w g g' -> g' = g.
Proof.
  intros H. remember (Star Dot) as r eqn:E.
  induction H; try discriminate E; [reflexivity|].
  injection E as ->. inv H. auto.
Qed.

(** Takes apart the hypotheses that a pattern matches. *)
Ltac unmatch :=
  repeat match goal with
         | H : matches (lit _) _ _ _ |- _ =>
             apply matches_lit in H; destruct H as [? ?]; subst
         | H : matches (Star Space) _ _ _ |- _ =>
             apply matches_star_space in H; destruct H as [? ?]; subst
         | H : matches (Star no_brace) _ _ _ |- _ =>
             apply matches_star_no_brace in H; destruct H as [? ?]; subst
         | H : matches (Star Dot) _ _ _ |- _ =>
             apply matches_star_dot in H; subst
         | H : matches (StarLazy Dot) _ _ _ |- _ =>
             apply matches_lazy_dot in H; subst
         | H : matches (Cat _ _) _ _ _ |- _ =>
             apply matches_cat in H; destruct H as (? & ? & ? & ? & ? & ?); subst
         | H : matches (Chr _) _ _ _ |- _ =>
             apply matches_chr in H; destruct H as [? ?]; subst
         | H : matches (Group _) _ _ _ |- _ =>
             apply matches_group in H; destruct H as (? & ? & ?); subst
         end.

Lemma matches_fenced (w : str) (g g' : option str) :
  matches fenced_json_re w g g' ->
  exists ws1 body ws2,
    w = py "```json" ++ ws1 ++ (lbrace :: body ++ [rbrace]) ++ ws2 ++ py "```"
    /\ blank ws1 /\ blank ws2 /\ g' = Some (lbrace :: body ++ [rbrace]).
Proof.
  unfold fenced_json_re. intros H. unmatch.
  do 3 eexists. split; [reflexivity|]. auto.
Qed.

Lemma matches_braces (w : str) (g g' : option str) :
  matches braces_re w g g' ->
  exists body, w = lbrace :: body ++ [rbrace] /\ g' = g.
Proof.
  unfold braces_re. intros H. unmatch.
  eexists. split; reflexivity.
Qed.

Lemma matches_star_inner (w : str) (g g' : option str) :
  matches (Star (Cat (Chr lbrace)
                  (Cat (Star no_brace) (Cat (Chr rbrace) (Star no_brace)))))
    w g g' ->
  exists inner,
    w = concat (map inner_object inner)
    /\ Forall (fun xy => flat (fst xy) /\ flat (snd xy)) inner
    /\ g' = g.
Proof.
  intros H.
  remember (Star (Cat (Chr lbrace)
                   (Cat (Star no_brace) (Cat (Chr rbrace) (Star no_brace)))))
    as r eqn:E.
  induction H; try discriminate E.
  - exists []. split; [reflexivity|]. split; [constructor|reflexivity].
  - injection E as ->. destruct (IHmatches2 eq_refl) as (inner & -> & Hinner & ->).
    unmatch.
    match goal with
    | Hx : flat ?x, Hy : flat ?y |- context [[lbrace] ++ ?x ++ [rbrace] ++ ?y] =>
        exists ((x, y) :: inner)
    end.
    split; [reflexivity|].
    split; [|reflexivity].
    constructor; [split; assumption|assumption].
Qed.

Lemma matches_shallow (w : str) (g g' : option str) :
  matches shallow_object_re w g g' -> shallow_object w /\ g' = Some w.
Proof.
  unfold shallow_object_re. intros H.
  apply matches_group in H. destruct H as (-> & g1 & H).
  split; [|reflexivity].
  apply matches_cat in H. destruct H as (w1 & w2 & g2 & -> & H1 & H).
  apply matches_chr in H1. destruct H1 as [-> ->].
  apply matches_cat in H. destruct H as (head & w3 & g3 & -> & H1 & H).
  apply matches_star_no_brace in H1. destruct H1 as [Hhead ->].
  apply matches_cat in H. destruct H as (w4 & w5 & g4 & -> & H1 & H).
  apply matches_star_inner in H1. destruct H1 as (inner & -> & Hinner & ->).
  apply matches_chr in H. destruct H as [-> ->].
  exists head, inner. auto.
Qed.

(** The object the first pattern extracts starts and ends with a brace
    and stands in the text between the marker of a JSON code block and
    the closing marker, with nothing but whitespace around it. *)
Theorem fenced_pattern_extracts (text : str) (m : match_object) :
  search fenced_json_re text = Some m ->
  exists before ws1 body ws2 after,
    text = before ++ py "```json" ++ ws1 ++ group1 m ++ ws2 ++ py "```" ++ after
    /\ blank ws1 /\ blank ws2
    /\ group1 m = lbrace :: body ++ [rbrace].
Proof.
  intros H. apply search_sound in H.
  destruct H as (a & c & g' & -> & M & G).
  apply matches_fenced in M. destruct M as (ws1 & body & ws2 & E & H1 & H2 & ->).
  exists a, ws1, body, ws2, c. rewrite E, G.
  repeat split; try assumption.
  rewrite <- !app_assoc. reflexivity.
Qed.

(** What the third pattern extracts is part of the text and an object
    whose braces nest at most one level deep. *)
Theorem shallow_pattern_extracts (text : str) (m : match_object) :
  search shallow_object_re text = Some m ->
  shallow_object (group1 m)
  /\ exists before after, text = before ++ group1 m ++ after.
Proof.
  intros H. apply search_sound in H.
  destruct H as (a & c & g' & E & M & G).
  apply matches_shallow in M. destruct M as [Hw ->].
  rewrite G. cbv iota. split; [exact Hw|]. exists a, c. exact E.
Qed.

(** *** The second pattern: from the first opening brace to the last
    closing one *)

Lemma lacks_app (c : char) (s t : str) :
  lacks c (s ++ t) <-> lacks c s /\ lacks c t.
Proof. apply Forall_app. Qed.

Lemma lacks_cons (c x : char) (s : str) :
  lacks c (x :: s) <-> x <> c /\ lacks c s.
Proof. apply Forall_cons_iff. Qed.

(** Text is cut at its first [c], if it has one. *)
Lemma first_occurrence (c : char) (s : str) :
  lacks c s \/ exists a b, s = a ++ c :: b /\ lacks c a.
Proof.
  induction s as [|x s IH].
  - left. constructor.
  - destruct (N.eq_dec x c) as [->|Hx].
    + right. exists [], s. split; [reflexivity|constructor].
    + destruct IH as [IH|(a & b & -> & Ha)].
      * left. constructor; assumption.
      * right. exists (x :: a), b. split; [reflexivity|constructor; assumption].
Qed.

(** Text is cut at its last [c], if it has one. *)
Lemma last_occurrence (c : char) (s : str) :
  lacks c s \/ exists a b, s = a ++ c :: b /\ lacks c b.
Proof.
  induction s as [|x s IH].
  - left. constructor.
  - destruct IH as [IH|(a & b & -> & Hb)].
    + destruct (N.eq_dec x c) as [->|Hx].
      * right. exists [], s. split; [reflexivity|assumption].
      * left. constructor; assumption.
    + right. exists (x :: a), b. split; [reflexivity|assumption].
Qed.

(** The cut of a text with a brace-delimited span at its first opening
    and its last closing brace. *)
Lemma outermost_span (s : str) :
  has_object_span s ->
  exists a b c, s = a ++ lbrace :: b ++ rbrace :: c
                /\ lacks lbrace a /\ lacks rbrace c.
Proof.
  intros (a0 & b0 & c0 & ->).
  destruct (first_occurrence lbrace a0) as [Ha|(a & a1 & -> & Ha)];
    destruct (last_occurrence rbrace c0) as [Hc|(c1 & c & -> & Hc)].
  - exists a0, b0, c0. auto.
  - exists a0, (b0 ++ rbrace :: c1), c. rewrite <- !app_assoc. auto.
  - exists a, (a1 ++ lbrace :: b0), c0. rewrite <- !app_assoc. auto.
  - exists a, (a1 ++ lbrace :: b0 ++ rbrace :: c1), c.
    repeat (rewrite <- !app_assoc; cbn [app]). auto.
Qed.

Section GreedyDot.
Variable A : Type.
Implicit Types (k : cont A) (s : str) (g : option str) (x : A).

Lemma chr_fails k g (c d : char) s :
  d <> c -> rmatch (Chr c) k (d :: s) g = None.
Proof.
  intros H. cbn [rmatch]. unfold one.
  destruct (N.eqb_spec c d); [congruence|reflexivity].
Qed.

Lemma chr_reads k g (c : char) s :
  rmatch (Chr c) k (c :: s) g = k s g.
Proof. cbn [rmatch]. unfold one. rewrite N.eqb_refl. reflexivity. Qed.

Lemma dot_reads k g (c : char) s :
  rmatch Dot k (c :: s) g = k s g.
Proof. reflexivity. Qed.

(** Without a closing brace ahead, a greedy [.*] and a closing brace
    find nothing. *)
Lemma greedy_dot_none k g : forall n s,
  lacks rbrace s ->
  greedy_loop (rmatch Dot) (rmatch (Chr rbrace) k) n s g = None.
Proof.
  induction n as [|n IH]; intros s Hs; cbn [greedy_loop].
  - destruct s as [|c s]; [reflexivity|].
    apply lacks_cons in Hs. destruct Hs as [Hc _].
    apply chr_fails. assumption.
  - destruct s as [|c s]; [reflexivity|].
    apply lacks_cons in Hs. destruct Hs as [Hc Hs].
    rewrite dot_reads, progress_tail, IH by assumption.
    cbn [orelse]. apply chr_fails. assumption.
Qed.

(** A greedy [.*] before a closing brace runs up to the last closing
    brace after which the rest of the pattern matches. *)
Lemma greedy_dot_last k g x (c : str) :
  lacks rbrace c -> k c g = Some x ->
  forall b n,
    length (b ++ rbrace :: c) <= n ->
    greedy_loop (rmatch Dot) (rmatch (Chr rbrace) k) n (b ++ rbrace :: c) g
    = Some x.
Proof.
  intros Hc Hk. induction b as [|d b IH]; intros n Hn;
    (destruct n as [|n]; [cbn in Hn; lia|]); cbn [app greedy_loop].
  - rewrite dot_reads, progress_tail, greedy_dot_none by assumption.
    cbn [orelse]. rewrite chr_reads. exact Hk.
  - rewrite dot_reads, progress_tail, IH by (cbn [length app] in Hn; lia).
    reflexivity.
Qed.

End GreedyDot.

(** Positions at which the pattern cannot start are passed over. *)
Lemma search_skip (r : regex) (s : str) : forall a,
  (forall a1 x a2, a = a1 ++ x :: a2 -> match_at r (x :: a2 ++ s) = None) ->
  search r (a ++ s) = search r s.
Proof.
  induction a as [|x a IH]; intros H; [reflexivity|].
  cbn [app search]. rewrite (H [] x a eq_refl).
  apply IH. intros a1 y a2 ->. apply (H (x :: a1) y a2). reflexivity.
Qed.

Lemma braces_re_needs_brace (x : char) (s : str) :
  x <> lbrace -> match_at braces_re (x :: s) = None.
Proof.
  intros Hx. unfold match_at, braces_re. cbn [rmatch]. unfold one at 1.
  destruct (N.eqb_spec lbrace x); [congruence|reflexivity].
Qed.

Lemma search_braces_span (a b c : str) :
  lacks lbrace a -> lacks rbrace c ->
  search braces_re (a ++ lbrace :: b ++ rbrace :: c)
  = Some (MatchObject (lbrace :: b ++ [rbrace]) []).
Proof.
  intros Ha Hc. rewrite search_skip.
  - cbn [search].
    assert (E : match_at braces_re (lbrace :: b ++ rbrace :: c)
                = Some (MatchObject (lbrace :: b ++ [rbrace]) [])).
    { unfold match_at, braces_re. rewrite rmatch_cat.
      change (rmatch (Chr lbrace) ?k (lbrace :: ?t) None) with (k t None).
      rewrite rmatch_cat.
      change (rmatch (Star Dot) ?k ?t None)
        with (greedy_loop (rmatch Dot) k (length t) t None).
      apply greedy_dot_last; [assumption| |lia].
      f_equal. f_equal.
      change (lbrace :: b ++ rbrace :: c) with ((lbrace :: b) ++ rbrace :: c).
      replace ((lbrace :: b) ++ rbrace :: c)
        with (((lbrace :: b) ++ [rbrace]) ++ c)
        by (rewrite <- app_assoc; reflexivity).
      apply firstn_minus_app. }
    rewrite E. reflexivity.
  - intros a1 x a2 ->. apply braces_re_needs_brace.
    apply lacks_app in Ha. destruct Ha as [_ Ha].
    apply lacks_cons in Ha. tauto.
Qed.

(** The second pattern matches exactly when the text has an opening
    brace with a closing brace after it, and the match runs from the
    first opening brace of the text to its last closing brace. *)
Theorem braces_pattern_extracts (text : str) :
  match search braces_re text with
  | Some m =>
      exists before body after,
        text = before ++ group0 m ++ after
        /\ group0 m = lbrace :: body ++ [rbrace]
        /\ lacks lbrace before /\ lacks rbrace after
  | None => ~ has_object_span text
  end.
Proof.
  destruct (search braces_re text) as [m|] eqn:E.
  - assert (Hspan : has_object_span text).
    { apply search_sound in E. destruct E as (a & c & g' & -> & M & _).
      apply matches_braces in M. destruct M as (body & -> & _).
      exists a, body, c. cbn [app]. rewrite <- app_assoc. reflexivity. }
    apply outermost_span in Hspan. destruct Hspan as (a & b & c & -> & Ha & Hc).
    rewrite search_braces_span in E by assumption. injection E as <-.
    exists a, b, c. cbn [group0]. repeat split; try assumption.
    cbn [app]. rewrite <- app_assoc. reflexivity.
  - intros Hspan. apply braces_re_finds in Hspan. congruence.
Qed.

(** ** A fenced object with text before and after it *)

Lemma fence_followed (s post : str) :
  fence s ++ post = py "```json" ++ LF :: s ++ LF :: py "```" ++ post.
Proof.
  unfold fence. rewrite <- app_assoc. cbn [app]. rewrite <- app_assoc. reflexivity.
Qed.

Lemma closing_matches_then (A : Type) (k : cont A) (g : option str)
    (post : str) (x : A) :
  k post g = Some x ->
  rmatch (Cat (Star Space) (lit (py "```"))) k (LF :: py "```" ++ post) g
  = Some x.
Proof.
  intros Hk. rewrite rmatch_cat.
  change (rmatch (Star Space) ?K ?t g)
    with (greedy_loop (rmatch Space) K (length t) t g).
  change (py "```") with [backtick; backtick; backtick].
  cbn [app length greedy_loop].
  change (rmatch Space ?K (LF :: ?t) g) with (K t g).
  rewrite progress_tail.
  change (rmatch Space ?K (backtick :: ?t) g) with (@None A).
  cbn [orelse].
  change (backtick :: backtick :: backtick :: post)
    with ([backtick; backtick; backtick] ++ post).
  rewrite rmatch_lit, Hk. reflexivity.
Qed.

(** On a fenced object without backticks and whatever follows it, the
    pattern matches the fenced object, and group 1 is the object. *)
Lemma match_at_fence_followed (mid post : str) :
  Forall (fun c => c <> backtick) mid ->
  let s := lbrace :: mid ++ [rbrace] in
  match_at fenced_json_re (fence s ++ post) = Some (MatchObject (fence s) s).
Proof.
  intros Hmid s. unfold match_at, fenced_json_re.
  rewrite fence_followed.
  cbn [rmatch]. rewrite rmatch_lit.
  set (k := fun s' g => Some (MatchObject _ _)).
  set (tail := LF :: py "```" ++ post).
  assert (Es : s ++ tail = lbrace :: mid ++ rbrace :: tail).
  { subst s. cbn [app]. rewrite <- app_assoc. reflexivity. }
  cbn [length greedy_loop rmatch one]. change (is_space LF) with true. cbv iota.
  rewrite progress_tail. rewrite Es. cbn [app length greedy_loop].
  cbn [rmatch one]. change (is_space lbrace) with false. cbv iota.
  cbn [orelse]. rewrite N.eqb_refl.
  set (kg := fun (s' : str) (_ : option str) => _).
  assert (Hobject :
    lazy_loop (rmatch Dot) kg (length (mid ++ rbrace :: tail))
      (mid ++ rbrace :: tail) None = Some (MatchObject (fence s) s));
    [|match goal with
      | |- orelse ?a ?b = _ =>
          replace a with (Some (MatchObject (fence s) s))
            by (symmetry; exact Hobject)
      end; reflexivity].
  apply (@lazy_dot_first match_object kg
           (MatchObject (fence s) s) (rbrace :: tail) None mid).
  - rewrite length_app. lia.
  - intros a c b E. subst kg. cbv beta. unfold one at 1.
    destruct (N.eqb_spec rbrace c) as [<-|]; [|reflexivity].
    apply (@no_marker_before_brace match_object k).
    rewrite E in Hmid. apply Forall_app in Hmid. destruct Hmid as [_ Hmid].
    inversion Hmid; assumption.
  - subst kg. cbv beta. unfold one at 1. rewrite N.eqb_refl.
    pose proof (@closing_matches_then match_object k) as Hclose.
    cbn [rmatch] in Hclose. unfold tail at 1 2.
    apply Hclose. subst k. cbv beta. f_equal. f_equal.
    + rewrite <- fence_followed. apply firstn_minus_app.
    + change (S (length (mid ++ rbrace :: tail)))
        with (length (lbrace :: mid ++ rbrace :: tail)).
      rewrite <- Es. apply firstn_minus_app.
Qed.

Lemma fenced_needs_marker (x : char) (s : str) :
  x <> backtick -> match_at fenced_json_re (x :: s) = None.
Proof.
  intros Hx. unfold match_at, fenced_json_re. rewrite rmatch_cat.
  change (py "```json") with (backtick :: py "``json").
  cbn [lit]. rewrite rmatch_cat. apply chr_fails. exact Hx.
Qed.

Lemma search_fence_in_prose (pre mid post : str) :
  lacks backtick pre ->
  Forall (fun c => c <> backtick) mid ->
  let s := lbrace :: mid ++ [rbrace] in
  search fenced_json_re (pre ++ fence s ++ post)
  = Some (MatchObject (fence s) s).
Proof.
  intros Hpre Hmid s. rewrite search_skip.
  - pose proof (match_at_fence_followed post Hmid) as H. cbv zeta in H. fold s in H.
    destruct (fence s ++ post); cbn [search]; rewrite H; reflexivity.
  - intros a1 x a2 ->. apply fenced_needs_marker.
    apply lacks_app in Hpre. destruct Hpre as [_ Hpre].
    apply lacks_cons in Hpre. tauto.
Qed.

Lemma dumps_object_tidy (o : dict) :
  plain (VDict o) = true ->
  exists mid, Json.dumps (VDict o) = lbrace :: mid ++ [rbrace]
              /\ lacks backtick mid /\ tidy (lbrace :: mid ++ [rbrace]) = true.
Proof.
  intros H. pose proof (tidy_dumps _ H) as Htidy.
  cbn [Json.dumps] in *. eexists. split; [reflexivity|]. split; [|exact Htidy].
  apply tidy_no_backtick in Htidy. inversion Htidy as [|? ? _ Hrest]; subst.
  apply Forall_app in Hrest. apply Hrest.
Qed.

Lemma clean_text_fence_in_prose (o : dict) (pre post : str) :
  plain (VDict o) = true -> lacks backtick pre ->
  clean_text (pre ++ fence (Json.dumps (VDict o)) ++ post)
  = Json.dumps (VDict o).
Proof.
  intros H Hpre. destruct (dumps_object_tidy o H) as (mid & -> & Hmid & Htidy).
  pose proof (search_fence_in_prose post Hpre Hmid) as Hsearch. cbv zeta in Hsearch.
  unfold clean_text.
  destruct (pre ++ fence (lbrace :: mid ++ [rbrace]) ++ post) eqn:E.
  { apply app_eq_nil in E. destruct E as [_ E].
    apply app_eq_nil in E. destruct E as [E _]. discriminate E. }
  rewrite Hsearch. cbn [group1].
  rewrite strip_braces. apply unescape_all_tidy. exact Htidy.
Qed.

Lemma parsed_fence_in_prose (o : dict) (pre post : str) :
  plain (VDict o) = true -> lacks backtick pre ->
  parsed (pre ++ fence (Json.dumps (VDict o)) ++ post) = VDict o.
Proof.
  intros H Hpre. unfold parsed.
  rewrite (@clean_text_fence_in_prose o pre post H Hpre),
    (loads_dumps _ (plain_encodable _ H)).
  reflexivity.
Qed.

(** ** An object without a fence, with text before and after it *)

Lemma fenced_absent (s : str) :
  lacks backtick s -> search fenced_json_re s = None.
Proof.
  induction s as [|x s IH]; intros Hs; [reflexivity|].
  apply lacks_cons in Hs. destruct Hs as [Hx Hs].
  cbn [search]. rewrite fenced_needs_marker by assumption. apply IH, Hs.
Qed.

(** Deleting or replacing a marker leaves text without its first
    character alone. *)
Lemma replace_absent (c : char) (old new s : str) :
  lacks c s -> replace (c :: old) new s = s.
Proof.
  unfold replace. induction s as [|x s IH]; intros Hs; [reflexivity|].
  apply lacks_cons in Hs. destruct Hs as [Hx Hs].
  cbn [replace_go]. unfold starts_with. cbn [strip_prefix].
  destruct (N.eqb_spec c x); [congruence|]. rewrite IH by assumption. reflexivity.
Qed.

Lemma parsed_bare_in_prose (o : dict) (pre post : str) :
  plain (VDict o) = true ->
  lacks backtick pre -> lacks lbrace pre ->
  lacks backtick post -> lacks rbrace post ->
  parsed (pre ++ Json.dumps (VDict o) ++ post) = VDict o.
Proof.
  intros H Hpre1 Hpre2 Hpost1 Hpost2.
  destruct (dumps_object_tidy o H) as (mid & E & Hmid & Htidy).
  assert (Hclean : clean_text (pre ++ Json.dumps (VDict o) ++ post)
                   = Json.dumps (VDict o)).
  { rewrite E. unfold clean_text.
    assert (Htext : lacks backtick (pre ++ (lbrace :: mid ++ [rbrace]) ++ post)).
    { apply lacks_app. split; [assumption|]. apply lacks_app. split; [|assumption].
      apply tidy_no_backtick. exact Htidy. }
    destruct (pre ++ (lbrace :: mid ++ [rbrace]) ++ post) as [|c0 text] eqn:Etext.
    { apply app_eq_nil in Etext. destruct Etext as [_ Etext].
      apply app_eq_nil in Etext. destruct Etext as [Etext _]. discriminate Etext. }
    rewrite (fenced_absent Htext).
    change (py "```json") with (backtick :: py "``json").
    change (py "```") with (backtick :: py "``").
    rewrite !(replace_absent _ _ Htext). rewrite <- Etext.
    replace (pre ++ (lbrace :: mid ++ [rbrace]) ++ post)
      with (pre ++ lbrace :: mid ++ rbrace :: post)
      by (cbn [app]; rewrite <- app_assoc; reflexivity).
    rewrite search_braces_span by assumption. cbn [group0].
    rewrite strip_braces. apply unescape_all_tidy. exact Htidy. }
  unfold parsed. rewrite Hclean, (loads_dumps _ (plain_encodable _ H)).
  reflexivity.
Qed.

(** ** Answers without an opening brace *)

Lemma lacks_replace_go (c : char) (old : str) : forall s skip,
  lacks c s -> lacks c (replace_go old [] skip s).
Proof.
  induction s as [|x s IH]; intros skip Hs; [constructor|].
  apply lacks_cons in Hs. destruct Hs as [Hx Hs].
  cbn [replace_go]. destruct skip as [|skip]; [|apply IH, Hs].
  destruct (starts_with old (x :: s)); cbn [app]; [apply IH, Hs|].
  constructor; [exact Hx|apply IH, Hs].
Qed.

Lemma lacks_unfenced (c : char) (s : str) : lacks c s -> lacks c (unfenced s).
Proof.
  intros H. unfold unfenced, replace. apply lacks_replace_go, lacks_replace_go, H.
Qed.

Lemma lacks_not_in (c : char) (a b : str) : ~ lacks c (a ++ c :: b).
Proof.
  intros H. apply lacks_app in H. destruct H as [_ H].
  apply lacks_cons in H. tauto.
Qed.

Lemma braces_absent (s : str) : lacks lbrace s -> search braces_re s = None.
Proof.
  intros Hs. destruct (search braces_re s) as [m|] eqn:E; [|reflexivity].
  apply search_sound in E. destruct E as (a & c & g' & -> & M & _).
  apply matches_braces in M. destruct M as (body & Eb & _).
  rewrite Eb in Hs. cbn [app] in Hs. destruct (lacks_not_in _ _ Hs).
Qed.

Lemma fenced_needs_brace (s : str) :
  lacks lbrace s -> search fenced_json_re s = None.
Proof.
  intros Hs. destruct (search fenced_json_re s) as [m|] eqn:E; [|reflexivity].
  apply search_sound in E. destruct E as (a & c & g' & -> & M & _).
  apply matches_fenced in M. destruct M as (ws1 & body & ws2 & Eb & _).
  rewrite Eb in Hs.
  apply lacks_app in Hs. destruct Hs as [_ Hs].
  apply lacks_app in Hs. destruct Hs as [Hs _].
  apply lacks_app in Hs. destruct Hs as [_ Hs].
  apply lacks_app in Hs. destruct Hs as [_ Hs].
  apply lacks_app in Hs. destruct Hs as [Hs _].
  apply lacks_cons in Hs. tauto.
Qed.

Lemma shallow_needs_brace (s : str) :
  lacks lbrace s -> search shallow_object_re s = None.
Proof.
  intros Hs. destruct (search shallow_object_re s) as [m|] eqn:E; [|reflexivity].
  apply search_sound in E. destruct E as (a & c & g' & -> & M & _).
  apply matches_shallow in M. destruct M as [(head & inner & Eb & _) _].
  rewrite Eb in Hs. cbn [app] in Hs. destruct (lacks_not_in _ _ Hs).
Qed.

Lemma parsed_without_brace (text : str) :
  lacks lbrace text -> parsed text = value_or_error text.
Proof.
  intros Hs.
  assert (Hclean : clean_text text = unescape_all (strip (unfenced text))).
  { unfold clean_text. destruct text as [|c text]; [reflexivity|].
    rewrite (fenced_needs_brace Hs).
    fold (unfenced (c :: text)).
    rewrite (braces_absent (lacks_unfenced Hs)). reflexivity. }
  unfold parsed, value_or_error, reextract.
  rewrite Hclean, (fenced_needs_brace Hs), (shallow_needs_brace Hs). reflexivity.
Qed.

(** ** What the stages make of an answer *)

Ltac stage_results :=
  rewrite ?classify_input_eq, ?analyze_feature_eq, ?generate_tech_layer_eq;
  cbn [fst].

(** An object served in a JSON code block is recovered by each stage
    also when text surrounds the block: the first attempt takes the
    object out of the block, whatever braces the text after it holds. *)
Theorem fenced_object_in_prose_recovered (oracle : prompt -> str) (o : dict) :
  plain (VDict o) = true ->
  (forall user_input,
      fenced_answer o (oracle (ClassifyPrompt user_input)) ->
      fst (classify_input oracle user_input) = Return (VDict o))
  /\ (forall feature_input,
         fenced_answer o
           (oracle (AnalyzePrompt
                      (dict_get feature_input (py "description") (VStr [])))) ->
         fst (analyze_feature oracle feature_input) = Return (VDict o))
  /\ (forall feature_analysis,
         fenced_answer o (oracle (TechLayerPrompt feature_analysis user_prompt)) ->
         fst (generate_tech_layer oracle feature_analysis) = Return (VDict o)).
Proof.
  intros H.
  split; [|split]; intros x (before & after & Hbefore & E); stage_results;
    rewrite E; f_equal; apply parsed_fence_in_prose; assumption.
Qed.

(** An object written without a code block, between text that holds no
    backtick, is recovered by each stage when no opening brace comes
    before it and no closing brace after it. *)
Theorem bare_object_in_prose_recovered (oracle : prompt -> str) (o : dict) :
  plain (VDict o) = true ->
  (forall user_input,
      bare_answer o (oracle (ClassifyPrompt user_input)) ->
      fst (classify_input oracle user_input) = Return (VDict o))
  /\ (forall feature_input,
         bare_answer o
           (oracle (AnalyzePrompt
                      (dict_get feature_input (py "description") (VStr [])))) ->
         fst (analyze_feature oracle feature_input) = Return (VDict o))
  /\ (forall feature_analysis,
         bare_answer o (oracle (TechLayerPrompt feature_analysis user_prompt)) ->
         fst (generate_tech_layer oracle feature_analysis) = Return (VDict o)).
Proof.
  intros H.
  split; [|split]; intros x (before & after & H1 & H2 & H3 & H4 & E);
    stage_results; rewrite E; f_equal; apply parsed_bare_in_prose; assumption.
Qed.


Ltac absent := vm_compute; repeat (constructor; try discriminate).

Lemma fenced_object_in_prose_recovered_witness :
  fst (classify_input polite hello) = Return (VDict chat_answer).
Proof.
  apply (proj1 (fenced_object_in_prose_recovered polite chat_answer eq_refl)).
  exists (py "Here is the result: "), (py " Anything else?").
  split; [absent|reflexivity].
Defined.

Lemma bare_object_in_prose_recovered_witness :
  fst (classify_input terse hello) = Return (VDict chat_answer).
Proof.
  apply (proj1 (bare_object_in_prose_recovered terse chat_answer eq_refl)).
  exists (py "Result: "), (py " (done)").
  split; [absent|]. split; [absent|]. split; [absent|]. split; [absent|reflexivity].
Defined.


(** ** The workflow from answer to result *)

(** With a model that answers the classification with a fenced object
    whose classification is "General Conversation", the workflow returns
    that object as its result after one call. *)
Theorem general_conversation_end_to_end (oracle : prompt -> str)
    (user_input : str) (o : dict) :
  plain (VDict o) = true ->
  fenced_answer o (oracle (ClassifyPrompt user_input)) ->
  dict_has o (py "error") = false ->
  dict_get o (py "classification") (VStr []) = General_Conversation ->
  fst (process_user_input oracle user_input)
  = Return [(py "workflow", VStr (py "general_conversation"));
            (py "classification", General_Conversation);
            (py "result", VDict o)]
  /\ llm_calls (snd (process_user_input oracle user_input))
     = [ClassifyPrompt user_input].
Proof.
  intros H (before & after & Hbefore & E) Herr Hclass.
  workflow. rewrite E, (@parsed_fence_in_prose o before after H Hbefore).
  cbn [py_in py_get]. rewrite Herr. run_step. rewrite Hclass.
  change (is_str (py "General Conversation") General_Conversation) with true.
  run_step. unfold parse_log. split; reflexivity.
Qed.

(** With a model that answers each of the three prompts with a fenced
    object without "error", the first classifying the input as a feature
    description, the workflow calls the model three times, the analysis
    on the user input and the tech layer on the analysis, and returns the
    three objects assembled. *)
Theorem feature_end_to_end (oracle : prompt -> str) (user_input : str)
    (classification analysis chunks : dict) :
  plain (VDict classification) = true ->
  plain (VDict analysis) = true ->
  plain (VDict chunks) = true ->
  fenced_answer classification (oracle (ClassifyPrompt user_input)) ->
  fenced_answer analysis (oracle (AnalyzePrompt (VStr user_input))) ->
  fenced_answer chunks (oracle (TechLayerPrompt (VDict analysis) user_prompt)) ->
  dict_has classification (py "error") = false ->
  dict_has analysis (py "error") = false ->
  dict_has chunks (py "error") = false ->
  dict_get classification (py "classification") (VStr []) = Feature_Description ->
  fst (process_user_input oracle user_input)
  = Return [(py "workflow", VStr (py "feature_processing"));
            (py "classification", Feature_Description);
            (py "feature_analysis", VDict analysis);
            (py "tech_layer_result", VDict chunks)]
  /\ llm_calls (snd (process_user_input oracle user_input))
     = [ClassifyPrompt user_input; AnalyzePrompt (VStr user_input);
        TechLayerPrompt (VDict analysis) user_prompt].
Proof.
  intros H1 H2 H3 (b1 & a1 & Hb1 & E1) (b2 & a2 & Hb2 & E2) (b3 & a3 & Hb3 & E3)
    Herr1 Herr2 Herr3 Hclass.
  workflow. rewrite E1, (@parsed_fence_in_prose classification b1 a1 H1 Hb1).
  cbn [py_in py_get]. rewrite Herr1. run_step. rewrite Hclass.
  change (is_str (py "General Conversation") Feature_Description) with false.
  change (is_str (py "Feature Description") Feature_Description) with true.
  workflow.
  change (dict_get [(py "description", VStr user_input)] (py "description")
            (VStr [])) with (VStr user_input).
  rewrite E2, (@parsed_fence_in_prose analysis b2 a2 H2 Hb2).
  cbn [py_in]. rewrite Herr2. workflow.
  rewrite E3, (@parsed_fence_in_prose chunks b3 a3 H3 Hb3).
  cbn [py_in]. rewrite Herr3. run_step.
  unfold parse_log. split; reflexivity.
Qed.

(** A run calls the model once, twice or three times, whether it returns
    or raises: for the classification of the input, then for the analysis
    of the input, then for the tech layer of some analysis. *)
Theorem at_most_three_calls (oracle : prompt -> str) (user_input : str) :
  call_sequences user_input
    (llm_calls (snd (process_user_input oracle user_input))).
Proof.
  unfold call_sequences. workflow. keys.
  repeat split_test; unfold parse_log; cbn [llm_calls app snd]; eauto.
Qed.

(** A classification result that is not a dictionary: a string or a list
    that contains "error" is reported as a failed classification, any
    other string or list raises [AttributeError] at the lookup of the
    classification, and a number, a truth value or [None] raises
    [TypeError] at the test for "error". *)
Theorem classification_not_a_dictionary (oracle : prompt -> str)
    (user_input : str) (v : value) :
  fst (classify_input oracle user_input) = Return v ->
  match v with
  | VDict _ => True
  | VStr s =>
      fst (process_user_input oracle user_input)
      = if contains (py "error") s
        then Return (failure "Classification failed" v)
        else Raise AttributeError
  | VList l =>
      fst (process_user_input oracle user_input)
      = if existsb (is_str (py "error")) l
        then Return (failure "Classification failed" v)
        else Raise AttributeError
  | _ => fst (process_user_input oracle user_input) = Raise TypeError
  end.
Proof.
  rewrite classify_input_eq. cbn [fst]. intros E. injection E as E.
  destruct v; try exact I; workflow; rewrite E; cbn [py_in py_get]; run_step;
    try reflexivity;
    match goal with
    | |- context [if ?b then _ else _] => destruct b; reflexivity
    end.
Qed.

Lemma general_conversation_end_to_end_witness :
  fst (process_user_input polite hello) = Return chat_run
  /\ llm_calls (snd (process_user_input polite hello)) = [ClassifyPrompt hello].
Proof.
  apply (@general_conversation_end_to_end polite hello chat_answer eq_refl).
  - exists (py "Here is the result: "), (py " Anything else?").
    split; [absent|reflexivity].
  - reflexivity.
  - reflexivity.
Defined.

Lemma feature_end_to_end_witness :
  fst (process_user_input well_behaved hello)
  = Return [(py "workflow", VStr (py "feature_processing"));
            (py "classification", Feature_Description);
            (py "feature_analysis", VDict some_analysis);
            (py "tech_layer_result", VDict some_chunks)]
  /\ llm_calls (snd (process_user_input well_behaved hello))
     = [ClassifyPrompt hello; AnalyzePrompt (VStr hello);
        TechLayerPrompt (VDict some_analysis) user_prompt].
Proof.
  apply (@feature_end_to_end well_behaved hello feature_answer some_analysis
           some_chunks eq_refl eq_refl eq_refl).
  - exists (py "Sure. "), []. split; [absent|reflexivity].
  - exists [], (py " Enjoy!"). split; [constructor|reflexivity].
  - exists [], []. split; [constructor|reflexivity].
  - reflexivity.
  - reflexivity.
  - reflexivity.
  - reflexivity.
Defined.

Lemma classification_not_a_dictionary_witness :
  fst (process_user_input mumbles hello)
  = Return (failure "Classification failed" (VStr (py "an error occurred"))).
Proof.
  apply (@classification_not_a_dictionary mumbles hello
           (VStr (py "an error occurred"))).
  vm_compute. reflexivity.
Defined.

(** ** The command-line loop *)

Functional Scheme loop_ind := Induction for loop Sort Prop.

(** Brings the hypotheses of a case of the loop into shape. *)
Ltac loop_case :=
  repeat match goal with
         | E : loop _ _ _ _ = (_, _), IH : context [loop _ _ _ _] |- _ =>
             rewrite E in IH
         end;
  cbn [fst snd] in *.

Lemma typed_cons (stdin : list str) (line u : str) :
  typed stdin u -> typed (line :: stdin) u.
Proof.
  intros (Hu & l & Hl & E). split; [exact Hu|]. exists l. split; [right; exact Hl|exact E].
Qed.

Lemma processed_cons (oracle : prompt -> str) (stdin : list str) (line : str)
    (ur : str * dict) :
  processed oracle stdin ur -> processed oracle (line :: stdin) ur.
Proof. intros [H1 H2]. split; [apply typed_cons; exact H1|exact H2]. Qed.

Lemma typed_head (stdin : list str) (line : str) (c : char) (u : str) :
  strip line = c :: u -> typed (line :: stdin) (strip line).
Proof.
  intros E. split; [rewrite E; discriminate|].
  exists line. split; [left; reflexivity|reflexivity].
Qed.

(** The three lines printed before an input is processed. *)
Lemma after_banner (A : Type) (m : M A) (o : outcome A) (t1 : list event) :
  (emit Print ;; emit Print ;; emit Print ;; m) = (o, t1) ->
  m = (o, snd m) /\ t1 = Print :: Print :: Print :: snd m.
Proof.
  destruct m as [[a|e] t0]; cbn; intros H; injection H as <- <-; auto.
Qed.

Lemma loop_left (oracle : prompt -> str) (stdin : list str) (results : list value)
    (test_count : nat) (final : list value) :
  snd (loop oracle stdin results test_count) = Some final ->
  exists line, In line stdin /\ exit_word line.
Proof.
  functional induction (loop oracle stdin results test_count); loop_case;
    try discriminate; intros H;
    try (destruct (IHp H) as (l & Hl & Hexit); exists l;
         split; [cbn [In]; auto|exact Hexit]).
  exists line. split; [left; reflexivity|assumption].
Qed.

Lemma loop_results (oracle : prompt -> str) (stdin : list str)
    (results : list value) (test_count : nat) (final : list value) :
  snd (loop oracle stdin results test_count) = Some final ->
  exists new, final = results ++ map entry new
              /\ Forall (processed oracle stdin) new.
Proof.
  functional induction (loop oracle stdin results test_count); loop_case;
    try discriminate; intros H.
  - injection H as <-. exists []. split; [symmetry; apply app_nil_r|constructor].
  - destruct (IHp H) as (new & -> & Hnew). exists new. split; [reflexivity|].
    eapply Forall_impl; [|exact Hnew]. intros ur. apply processed_cons.
  - destruct (IHp H) as (new & -> & Hnew).
    apply after_banner in e2. destruct e2 as [e2 _].
    exists ((strip line, result) :: new). split.
    + rewrite <- app_assoc. reflexivity.
    + constructor.
      * split; [eapply typed_head; eassumption|]. cbn [fst snd]. rewrite e2. reflexivity.
      * eapply Forall_impl; [|exact Hnew]. intros ur Hur.
        apply processed_cons, processed_cons, Hur.
  - destruct (IHp H) as (new & -> & Hnew).
    apply after_banner in e2. destruct e2 as [e2 _].
    exists ((strip line, result) :: new). split.
    + rewrite <- app_assoc. reflexivity.
    + constructor.
      * split; [eapply typed_head; eassumption|]. cbn [fst snd]. rewrite e2. reflexivity.
      * eapply Forall_impl; [|exact Hnew]. intros ur Hur.
        apply processed_cons, processed_cons, Hur.
  - destruct (IHp H) as (new & -> & Hnew).
    apply after_banner in e2. destruct e2 as [e2 _].
    exists ((strip line, result) :: new). split.
    + rewrite <- app_assoc. reflexivity.
    + constructor.
      * split; [eapply typed_head; eassumption|]. cbn [fst snd]. rewrite e2. reflexivity.
      * eapply Forall_impl; [|exact Hnew]. intros ur Hur.
        apply processed_cons, Hur.
  - destruct (IHp H) as (new & -> & Hnew). exists new. split; [reflexivity|].
    eapply Forall_impl; [|exact Hnew]. intros ur. apply processed_cons.
Qed.

Lemma in_files_written (name : str) (content : value) (t : list event) :
  In (WriteJson name content) t -> In name (files_written t).
Proof.
  induction t as [|e t IH]; [intros []|].
  intros [->|H]; [left; reflexivity|].
  destruct e; cbn [files_written]; auto. right. auto.
Qed.

Lemma in_llm_calls (p : prompt) (t : list event) :
  In (Invoke p) t <-> In p (llm_calls t).
Proof.
  induction t as [|e t IH]; [reflexivity|].
  destruct e; cbn [llm_calls In]; rewrite <- IH;
    (split; [intros [H|H]; [try discriminate H; try (injection H as ->)|]; auto
            |intros H; auto]).
  destruct H as [->|H]; auto.
Qed.

Lemma llm_calls_app (t1 t2 : list event) :
  llm_calls (t1 ++ t2) = llm_calls t1 ++ llm_calls t2.
Proof.
  induction t1 as [|e t1 IH]; [reflexivity|].
  destruct e; cbn [app llm_calls]; rewrite IH; reflexivity.
Qed.

Lemma display_calls_nothing (result : dict) :
  llm_calls (snd (display result)) = [].
Proof.
  unfold display, keys_of.
  repeat match goal with
         | |- context [if ?b then _ else _] => destruct b
         | |- context [match dict_get ?d ?k ?v with _ => _ end] =>
             destruct (dict_get d k v)
         end; reflexivity.
Qed.

(** What processing an input adds to the events of the loop: no file,
    and the calls of [process_user_input]. *)
Lemma processing_events (oracle : prompt -> str) (u : str) (o : outcome dict)
    (t1 : list event) :
  (emit Print ;; emit Print ;; emit Print ;; process_user_input oracle u)
  = (o, t1) ->
  files_written t1 = []
  /\ llm_calls t1 = llm_calls (snd (process_user_input oracle u)).
Proof.
  intros H. apply after_banner in H. destruct H as [_ ->].
  cbn [files_written llm_calls]. split; [|reflexivity].
  apply quiet_writes_nothing, process_user_input_quiet.
Qed.

Lemma display_events (result : dict) (o : outcome unit) (t2 : list event) :
  display result = (o, t2) -> files_written t2 = [] /\ llm_calls t2 = [].
Proof.
  intros H. pose proof (display_writes_nothing result) as H1.
  pose proof (display_calls_nothing result) as H2.
  rewrite H in H1, H2. auto.
Qed.

(** Rewrites the files and the calls of the events of a case. *)
Ltac loop_events :=
  repeat match goal with
         | E : (emit Print ;; _) = (_, _) |- _ =>
             apply processing_events in E; destruct E as [? ?]
         | E : display _ = (_, _) |- _ =>
             apply display_events in E; destruct E as [? ?]
         end.

Lemma increasing_weaken (lo : nat) (ks : list nat) :
  increasing (S lo) ks = true -> increasing lo ks = true.
Proof.
  destruct ks as [|k ks]; [reflexivity|]. cbn [increasing].
  intros H. apply andb_true_iff in H. destruct H as [H1 H2].
  apply Nat.ltb_lt in H1. rewrite H2, andb_true_r. apply Nat.ltb_lt. lia.
Qed.

Lemma loop_files (oracle : prompt -> str) (stdin : list str)
    (results : list value) (test_count : nat) :
  exists ks,
    files_written (fst (loop oracle stdin results test_count))
    = map output_filename ks
    /\ increasing test_count ks = true.
Proof.
  functional induction (loop oracle stdin results test_count); loop_case;
    loop_events;
    cbn [files_written];
    rewrite ?files_written_app; cbn [files_written app];
    repeat match goal with H : files_written _ = [] |- _ => rewrite H; clear H end;
    cbn [app];
    try (exists []; split; reflexivity);
    destruct IHp as (ks & -> & Hks).
  - exists ks. auto.
  - exists (S test_count :: ks). split; [reflexivity|].
    cbn [increasing]. rewrite Hks, andb_true_r. apply Nat.ltb_lt. lia.
  - exists ks. split; [reflexivity|]. apply increasing_weaken, Hks.
  - exists ks. split; [reflexivity|]. apply increasing_weaken, Hks.
  - exists ks. split; [reflexivity|]. apply increasing_weaken, Hks.
Qed.

Lemma loop_contents (oracle : prompt -> str) (stdin : list str)
    (results : list value) (test_count : nat) (name : str) (content : value) :
  In (WriteJson name content) (fst (loop oracle stdin results test_count)) ->
  exists k ur, name = output_filename k /\ content = VDict (snd ur)
               /\ processed oracle stdin ur.
Proof.
  functional induction (loop oracle stdin results test_count); loop_case;
    try (apply after_banner in e2; destruct e2 as [e2 ->]);
    intros H;
    repeat (cbn [In] in H; rewrite ?in_app_iff in H);
    repeat match type of H with
           | _ \/ _ => destruct H as [H|H]
           end;
    try discriminate H; try contradiction;
    try (apply in_files_written in H;
         first [ rewrite (quiet_writes_nothing
                            (process_user_input_quiet oracle (strip line))) in H
               | match goal with
                 | E : display _ = _ |- _ =>
                     apply display_events in E; destruct E as [E _];
                     rewrite E in H
                 end ];
         contradiction);
    try (destruct (IHp H) as (k & ur & Hk & Hc & Hur); exists k, ur;
         split; [exact Hk|]; split; [exact Hc|];
         first [apply processed_cons, processed_cons, Hur
               |apply processed_cons, Hur]).
  injection H as <- <-. exists (S test_count), (strip line, result).
  split; [reflexivity|]. split; [reflexivity|]. split.
  - eapply typed_head; eassumption.
  - cbn [fst snd]. rewrite e2. reflexivity.
Qed.

Lemma loop_calls (oracle : prompt -> str) (stdin : list str)
    (results : list value) (test_count : nat) (call : prompt) :
  In (Invoke call) (fst (loop oracle stdin results test_count)) ->
  exists u, typed stdin u
            /\ In call (llm_calls (snd (process_user_input oracle u))).
Proof.
  rewrite in_llm_calls.
  functional induction (loop oracle stdin results test_count); loop_case;
    loop_events; cbn [llm_calls];
    rewrite ?llm_calls_app; cbn [llm_calls app];
    repeat match goal with H : llm_calls _ = _ |- _ => rewrite H; clear H end;
    cbn [app]; rewrite ?in_app_iff;
    try (intros H; exact (False_ind _ H)).
  - intros Hin. destruct (IHp Hin) as (u & Hu & Hp). exists u.
    split; [apply typed_cons, Hu|exact Hp].
  - intros [Hin|[]]. exists (strip line).
    split; [eapply typed_head; eassumption|exact Hin].
  - intros [Hin|Hin].
    + exists (strip line). split; [eapply typed_head; eassumption|exact Hin].
    + destruct (IHp Hin) as (u & Hu & Hp). exists u.
      split; [apply typed_cons, typed_cons, Hu|exact Hp].
  - intros [Hin|Hin].
    + exists (strip line). split; [eapply typed_head; eassumption|exact Hin].
    + destruct (IHp Hin) as (u & Hu & Hp). exists u.
      split; [apply typed_cons, typed_cons, Hu|exact Hp].
  - intros [Hin|Hin].
    + exists (strip line). split; [eapply typed_head; eassumption|exact Hin].
    + destruct (IHp Hin) as (u & Hu & Hp). exists u.
      split; [apply typed_cons, Hu|exact Hp].
  - intros [Hin|Hin].
    + exists (strip line). split; [eapply typed_head; eassumption|exact Hin].
    + destruct (IHp Hin) as (u & Hu & Hp). exists u.
      split; [apply typed_cons, Hu|exact Hp].
Qed.

Lemma output_filename_injective (n m : nat) :
  output_filename n = output_filename m -> n = m.
Proof.
  unfold output_filename. intros H.
  apply app_inv_head, app_inv_tail in H.
  assert (E : forall z, Json.match_number (Json.int_repr z)
                        = Json.Scanned (VInt z) []).
  { intros z. rewrite <- (app_nil_r (Json.int_repr z)) at 1.
    apply match_number_int_repr. reflexivity. }
  pose proof (E (Z.of_nat n)) as En. rewrite H, E in En.
  injection En as En. lia.
Qed.

Lemma output_is_not_summary (n : nat) : output_filename n <> summary_filename.
Proof. discriminate. Qed.

Lemma increasing_above (lo : nat) (ks : list nat) :
  increasing lo ks = true -> Forall (lt lo) ks /\ NoDup ks.
Proof.
  revert lo. induction ks as [|k ks IH]; intros lo H.
  - split; constructor.
  - cbn [increasing] in H. apply andb_true_iff in H. destruct H as [H1 H2].
    apply Nat.ltb_lt in H1. destruct (IH k H2) as [Hall Hnd].
    split.
    + constructor; [exact H1|]. eapply Forall_impl; [|exact Hall].
      cbn. intros a Ha. lia.
    + constructor; [|exact Hnd]. intros Hin.
      rewrite Forall_forall in Hall. specialize (Hall k Hin). lia.
Qed.

Lemma output_filenames_distinct (lo : nat) (ks : list nat) :
  increasing lo ks = true -> NoDup (map output_filename ks).
Proof.
  intros H. apply increasing_above in H. destruct H as [_ H].
  induction H as [|k ks Hk Hnd IH]; [constructor|].
  cbn [map]. constructor; [|exact IH].
  intros Hin. apply in_map_iff in Hin. destruct Hin as (k' & E & Hk').
  apply output_filename_injective in E. subst k'. contradiction.
Qed.

(** The files of a run, in the order they are written. *)
Lemma main_files (oracle : prompt -> str) (stdin : list str) :
  exists ks,
    increasing 0 ks = true
    /\ match snd (loop oracle stdin [] 0) with
       | Some (_ :: _) =>
           files_written (main oracle stdin)
           = map output_filename ks ++ [summary_filename]
       | _ => files_written (main oracle stdin) = map output_filename ks
       end.
Proof.
  destruct (loop_files oracle stdin [] 0) as (ks & E & Hks).
  exists ks. split; [exact Hks|]. unfold main.
  destruct (loop oracle stdin [] 0) as [t r]. cbn [fst snd] in *.
  cbn [app files_written]. rewrite files_written_app, E.
  destruct r as [[|x results]|]; cbn [files_written].
  - apply app_nil_r.
  - rewrite prints_write_nothing. reflexivity.
  - apply app_nil_r.
Qed.





Ltac member := vm_compute; repeat (first [left; reflexivity | right]).




(** ** What [clean_text] returns *)

Lemma starts_with_length (old s : str) :
  starts_with old s = true -> length old <= length s.
Proof.
  unfold starts_with. destruct (strip_prefix old s) as [r|] eqn:E; [|discriminate].
  intros _. apply strip_prefix_app in E. subst s. rewrite length_app. lia.
Qed.

(** A replacement by text that is not longer does not lengthen. *)
Lemma replace_go_length (old new : str) :
  length new <= length old ->
  forall s skip, length (replace_go old new skip s) <= length s - skip.
Proof.
  intros Hnew. induction s as [|x s IH]; intros skip; [cbn; lia|].
  cbn [replace_go]. destruct skip as [|k].
  - destruct (starts_with old (x :: s)) eqn:E.
    + apply starts_with_length in E. cbn [length] in *.
      rewrite length_app. specialize (IH (length old - 1)). lia.
    + cbn [length]. specialize (IH 0). lia.
  - cbn [length]. specialize (IH k). lia.
Qed.

Lemma replace_length (old new s : str) :
  length new <= length old -> length (replace old new s) <= length s.
Proof.
  intros H. unfold replace. pose proof (@replace_go_length old new H s 0). lia.
Qed.

Lemma lstrip_length (s : str) : length (lstrip s) <= length s.
Proof.
  induction s as [|c s IH]; [reflexivity|]. cbn [lstrip].
  destruct (is_space c); cbn [length] in *; lia.
Qed.

Lemma strip_length (s : str) : length (strip s) <= length s.
Proof.
  unfold strip, rstrip. rewrite length_rev.
  etransitivity; [apply lstrip_length|]. rewrite length_rev. apply lstrip_length.
Qed.

Lemma unescape_all_length (s : str) : length (unescape_all s) <= length s.
Proof.
  unfold unescape_all.
  repeat (etransitivity; [apply replace_length; cbn; lia|]). reflexivity.
Qed.

Lemma search_group0_length (r : regex) (s : str) (m : match_object) :
  search r s = Some m -> length (group0 m) <= length s.
Proof.
  intros H. apply search_sound in H. destruct H as (a & c & g' & -> & _).
  rewrite !length_app. lia.
Qed.

Lemma fenced_group1_length (s : str) (m : match_object) :
  search fenced_json_re s = Some m -> length (group1 m) <= length s.
Proof.
  intros H. apply search_sound in H. destruct H as (a & c & g' & -> & M & G).
  apply matches_fenced in M. destruct M as (ws1 & body & ws2 & E & _ & _ & ->).
  rewrite G, E, !length_app. lia.
Qed.

(** [clean_text] only takes characters away: what it returns is never
    longer than the text it was given. *)
Theorem clean_text_never_longer (text : str) :
  length (clean_text text) <= length text.
Proof.
  unfold clean_text. destruct text as [|c text]; [reflexivity|].
  etransitivity; [apply unescape_all_length|].
  etransitivity; [apply strip_length|].
  destruct (search fenced_json_re (c :: text)) as [m|] eqn:E.
  - apply (fenced_group1_length _ E).
  - assert (H : length (replace (py "```") []
                          (replace (py "```json") [] (c :: text)))
                <= length (c :: text)).
    { etransitivity; [apply replace_length; cbn; lia|].
      apply replace_length. cbn. lia. }
    destruct (search braces_re _) as [m|] eqn:E'; [|exact H].
    etransitivity; [apply (search_group0_length _ _ E')|exact H].
Qed.

(** A replacement of two characters leaves the last character of the
    text in place when it is not the second of the two. *)
Lemma replace_two_last (b e c : char) (new : str) :
  e <> c ->
  forall s skip,
    skip <= length s ->
    replace_go [b; e] new skip (s ++ [c]) = replace_go [b; e] new skip s ++ [c].
Proof.
  intros Hc. induction s as [|x s IH]; intros skip Hskip.
  - destruct skip; [|cbn in Hskip; lia].
    cbn [app replace_go]. unfold starts_with. cbn [strip_prefix].
    destruct (b =? c)%N; reflexivity.
  - cbn [app replace_go]. destruct skip as [|k].
    + assert (E : starts_with [b; e] (x :: s ++ [c]) = starts_with [b; e] (x :: s)).
      { unfold starts_with. cbn [strip_prefix]. destruct (b =? x)%N; [|reflexivity].
        destruct s as [|y s]; cbn [app].
        - destruct (N.eqb_spec e c); [congruence|reflexivity].
        - destruct (e =? y)%N; reflexivity. }
      rewrite E. destruct (starts_with [b; e] (x :: s)) eqn:Es.
      * apply starts_with_length in Es. cbn [length] in Es.
        rewrite IH by (cbn [length]; lia). rewrite app_assoc. reflexivity.
      * rewrite IH by lia. reflexivity.
    + rewrite IH by (cbn [length] in Hskip; lia). reflexivity.
Qed.

Lemma replace_braced (e : char) (new mid : str) :
  e <> rbrace ->
  exists mid',
    replace [backslash; e] new (lbrace :: mid ++ [rbrace])
    = lbrace :: mid' ++ [rbrace].
Proof.
  intros He. rewrite replace_head by reflexivity. unfold replace.
  rewrite (replace_two_last backslash new He) by lia. eauto.
Qed.

Lemma unescape_all_braced (mid : str) :
  exists mid', unescape_all (lbrace :: mid ++ [rbrace]) = lbrace :: mid' ++ [rbrace].
Proof.
  unfold unescape_all.
  destruct (@replace_braced (ch "n") [LF] mid) as [m1 ->]; [discriminate|].
  destruct (@replace_braced (ch "t") [TAB] m1) as [m2 ->]; [discriminate|].
  destruct (@replace_braced dquote [dquote] m2) as [m3 ->]; [discriminate|].
  destruct (@replace_braced backslash [backslash] m3) as [m4 ->]; [discriminate|].
  destruct (@replace_braced apostrophe [apostrophe] m4) as [m5 ->]; [discriminate|].
  eauto.
Qed.

(** When the text holds an opening brace and, later, a closing brace,
    what [clean_text] returns starts with an opening brace and ends with
    a closing one: the text outside the fenced object, or outside the
    outermost braces, is dropped. *)
Theorem clean_text_keeps_braces (text : str) :
  has_object_span text ->
  exists inside, clean_text text = lbrace :: inside ++ [rbrace].
Proof.
  intros Hspan. unfold clean_text.
  destruct text as [|c text]; [destruct Hspan as ([|] & ? & ? & H); discriminate H|].
  assert (Hclean : forall mid,
             exists mid', unescape_all (strip (lbrace :: mid ++ [rbrace]))
                          = lbrace :: mid' ++ [rbrace]).
  { intros mid. rewrite strip_braces. apply unescape_all_braced. }
  destruct (search fenced_json_re (c :: text)) as [m|] eqn:Efenced.
  - apply search_sound in Efenced. destruct Efenced as (a & d & g' & _ & M & G).
    apply matches_fenced in M. destruct M as (ws1 & body & ws2 & _ & _ & _ & ->).
    rewrite G. apply Hclean.
  - fold (unfenced (c :: text)).
    assert (Hunfenced : has_object_span (unfenced (c :: text))).
    { unfold unfenced.
      change (py "```") with [backtick; backtick; backtick].
      change (py "```json")
        with [backtick; backtick; backtick; 106; 115; 111; 110]%N.
      apply delete_keeps_span; [reflexivity|].
      apply delete_keeps_span; [reflexivity|]. exact Hspan. }
    pose proof (braces_re_finds Hunfenced) as Hfound.
    destruct (search braces_re (unfenced (c :: text))) as [m|] eqn:Ebraces;
      [|congruence].
    apply search_sound in Ebraces. destruct Ebraces as (a & d & g' & _ & M & _).
    apply matches_braces in M. destruct M as (body & -> & _). apply Hclean.
Qed.

Lemma clean_text_keeps_braces_witness :
  exists inside, clean_text (says_123 (ClassifyPrompt hello))
                 = lbrace :: inside ++ [rbrace].
Proof.
  apply clean_text_keeps_braces.
  exists (py "content='123' additional_kwargs="), [], (py " response_metadata={}").
  reflexivity.
Defined.

Lemma fenced_pattern_extracts_witness :
  exists before ws1 body ws2 after,
    fenced_empty
    = before ++ py "```json" ++ ws1 ++ [lbrace; rbrace] ++ ws2 ++ py "```" ++ after
    /\ blank ws1 /\ blank ws2
    /\ [lbrace; rbrace] = lbrace :: body ++ [rbrace].
Proof.
  apply (@fenced_pattern_extracts fenced_empty
           (MatchObject fenced_empty [lbrace; rbrace])).
  vm_compute. reflexivity.
Defined.

Lemma shallow_pattern_extracts_witness :
  shallow_object (py "{a{b}c}")
  /\ exists before after, nested_once = before ++ py "{a{b}c}" ++ after.
Proof.
  apply (@shallow_pattern_extracts nested_once
           (MatchObject (py "{a{b}c}") (py "{a{b}c}"))).
  vm_compute. reflexivity.
Defined.

(** ** The logger *)

(** [get_logger] configures a logger once: one that has no handler gets
    one stream handler with the format of the program and the level
    DEBUG; one that has a handler is left as it is, level included; no
    other logger is touched, and a second call changes nothing. *)
Theorem get_logger_configures_once (name : str) (registry : loggers) :
  let after := get_logger name registry in
  (handlers (registry name) = [] ->
   after name = Logger [StreamHandler log_format] (Some DEBUG))
  /\ (handlers (registry name) <> [] -> after name = registry name)
  /\ (forall other, str_eqb other name = false -> after other = registry other)
  /\ (forall n, get_logger name after n = after n).
Proof.
  cbv zeta. unfold get_logger.
  destruct (handlers (registry name)) as [|h hs] eqn:E.
  - unfold set_logger. rewrite str_eqb_refl. cbn [handlers app].
    repeat split; try reflexivity; try congruence.
    intros other ->. reflexivity.
  - rewrite E. repeat split; try reflexivity; discriminate.
Qed.

Lemma get_logger_configures_once_witness :
  get_logger (py "__main__") (configured (py "__main__")) (py "__main__")
  = Logger [StreamHandler (py "%(message)s")] (Some ERROR).
Proof.
  apply (proj1 (proj2 (get_logger_configures_once (py "__main__")
                         (configured (py "__main__"))))).
  discriminate.
Defined.
